(** * Entity resolution and incremental construction of the Five-Dynasties
      knowledge graph: a shallow embedding of [graph/crud.py],
      [models/entities.py], [ingestion/pipeline.py] and the temporal repair of
      [scripts/llm_batch_cleanup.py], with the properties of the
      specification stated over it; then of the alias cleaning of
      [scripts/llm_batch_cleanup.py], of [scripts/cleanup_polluted_nodes.py],
      of the retry loop of [config/llm_client.py], of the person list of
      [ingestion/extractor.py] and of [chunk_text] of
      [ingestion/text_processor.py], with further properties of the code.

    Conventions of the embedding.
    - A Python [str] is a Rocq [string] holding its UTF-8 encoding.  Equality,
      byte-wise order and substring search coincide with Python's on code
      points; [len] counts code points and is [py_len] below.
    - A Python [set[str]] is a [gset string]; a [list] is a [list].
    - The Neo4j store is the record [Graph]: one list of nodes per label, in
      creation order, and one list of edges.  A Cypher [MATCH] is a [filter]
      over that list, [LIMIT 1] keeps the head of the result, [MERGE] matches
      the pattern and creates when nothing matched.  A node is referred to by
      its label and its [uid] (the schema declares [uid] unique per label).
    - Every function that reads or writes the store takes the [Graph] and
      returns the new one next to its Python result.  Calls to the store
      answer; an exception is modelled where the code lets it leave the
      function: at [clear_database] and in the checkpoints of the ingestion
      loop. *)

From Stdlib Require Import ZArith Ascii String Bool.
From stdpp Require Import gmap strings list sorting.

Open Scope string_scope.

(* ===================================================================== *)
(** ** Python strings *)
(* ===================================================================== *)

(** A UTF-8 continuation byte has the form 10xxxxxx. *)
Definition is_continuation (c : ascii) : bool :=
  match c with
  | Ascii _ _ _ _ _ _ b6 b7 => b7 && negb b6
  end.

(** [len(s)]: the number of code points of [s]. *)
Fixpoint py_len (s : string) : nat :=
  match s with
  | EmptyString => 0
  | String c r => (if is_continuation c then 0 else 1) + py_len r
  end.

(** [kw in s] for strings: [kw] occurs as a substring of [s]. *)
Fixpoint py_in (kw s : string) : bool :=
  String.prefix kw s ||
  match s with
  | EmptyString => false
  | String _ r => py_in kw r
  end.

(** [s.replace(a, b)] for a one-byte [a] and [b]. *)
Fixpoint replace_char (a b : ascii) (s : string) : string :=
  match s with
  | EmptyString => EmptyString
  | String c r => String (if Ascii.eqb c a then b else c) (replace_char a b r)
  end.

(** [sorted(xs)] on strings. *)
Definition str_le (a b : string) : Prop := String.leb a b = true.

#[local] Instance str_le_dec : RelDecision str_le.
Proof. intros a b. unfold str_le. apply _. Defined.

Definition sorted (l : list string) : list string := merge_sort str_le l.

(** [list(dict.fromkeys(l))]: duplicates removed, first occurrences kept in
    order. *)
Fixpoint fromkeys_acc (seen l : list string) : list string :=
  match l with
  | [] => []
  | x :: r =>
      if bool_decide (x ∈ seen) then fromkeys_acc seen r
      else x :: fromkeys_acc (x :: seen) r
  end.

Definition dict_fromkeys (l : list string) : list string := fromkeys_acc [] l.

(** Truthiness of an [Optional[int]] and of an [Optional[str]]. *)
Definition truthy_int (o : option Z) : bool :=
  match o with
  | Some y => negb (y =? 0)%Z
  | None => false
  end.

Definition truthy_str (o : option string) : bool :=
  match o with
  | Some s => negb (String.eqb s "")
  | None => false
  end.

(* ===================================================================== *)
(** ** models/entities.py *)
(* ===================================================================== *)

Module Person.
Record t := mk {
  uid : string;
  original_name : string;
  aliases : list string;
  role : string;
  loyalty : list string;
  birth_year : option Z;
  death_year : option Z;
  death_cause : option string;
  description : string
}.

(** [all_names]: the original name with the aliases, the empty string
    discarded. *)
Definition all_names (self : t) : gset string :=
  ({[ original_name self ]} ∪ list_to_set (aliases self)) ∖ {[ "" ]}.

(** [neo4j_properties] followed by [SET p += props] on the node [old]:
    the six mandatory keys are overwritten, an optional key only when the
    model carries a value for it.  [uid] is the key of the [MERGE]. *)
Definition set_props (old self : t) : t :=
  {| uid := uid old;
     original_name := original_name self;
     aliases := aliases self;
     role := role self;
     loyalty := loyalty self;
     birth_year := match birth_year self with Some y => Some y | None => birth_year old end;
     death_year := match death_year self with Some y => Some y | None => death_year old end;
     death_cause := match death_cause self with Some c => Some c | None => death_cause old end;
     description := description self |}.

(** The node [MERGE (p:Person {uid: $uid})] creates before any [SET]. *)
Definition fresh (u : string) : t :=
  mk u "" [] "" [] None None None "".
End Person.

Module Dynasty.
Record t := mk {
  uid : string;
  name : string;
  founder : option string;
  capital : option string;
  start_year : option Z;
  end_year : option Z;
  description : string
}.

Definition set_props (old self : t) : t :=
  {| uid := uid old;
     name := name self;
     founder := if truthy_str (founder self) then founder self else founder old;
     capital := if truthy_str (capital self) then capital self else capital old;
     start_year := match start_year self with Some y => Some y | None => start_year old end;
     end_year := match end_year self with Some y => Some y | None => end_year old end;
     description := description self |}.

Definition fresh (u : string) : t := mk u "" None None None None "".
End Dynasty.

Module Event.
Record t := mk {
  uid : string;
  name : string;
  event_type : string;
  year : option Z;
  location : option string;
  participants : list string;
  outcome : option string;
  description : string
}.

Definition set_props (old self : t) : t :=
  {| uid := uid old;
     name := name self;
     event_type := event_type self;
     year := match year self with Some y => Some y | None => year old end;
     location := if truthy_str (location self) then location self else location old;
     participants := participants self;
     outcome := if truthy_str (outcome self) then outcome self else outcome old;
     description := description self |}.

Definition fresh (u : string) : t := mk u "" "" None None [] None "".
End Event.

Module Place.
Record t := mk {
  uid : string;
  name : string;
  modern_name : option string;
  description : string
}.

Definition set_props (old self : t) : t :=
  {| uid := uid old;
     name := name self;
     modern_name := if truthy_str (modern_name self) then modern_name self else modern_name old;
     description := description self |}.

Definition fresh (u : string) : t := mk u "" None "".
End Place.

Module Relation.
Record t := mk {
  source : string;
  target : string;
  relation_type : string;
  year : option Z;
  description : string
}.
End Relation.

Record ExtractionResult := {
  persons : list Person.t;
  dynasties : list Dynasty.t;
  events : list Event.t;
  places : list Place.t;
  relations : list Relation.t;
  source_text : string;
  source_chapter : string
}.

(* ===================================================================== *)
(** ** The graph store *)
(* ===================================================================== *)

Inductive Label := LPerson | LDynasty | LEvent | LPlace.

#[global] Instance Label_eq_dec : EqDecision Label.
Proof. solve_decision. Defined.

Definition NodeRef : Type := Label * string.

(** A persisted edge.  The three optional properties are the ones this code
    writes: [role] (participation), [description] and [year] (relations). *)
Record Edge := {
  e_src : NodeRef;
  e_dst : NodeRef;
  e_type : string;
  e_role : option string;
  e_description : option string;
  e_year : option Z
}.

Record Graph := {
  g_persons : list Person.t;
  g_dynasties : list Dynasty.t;
  g_events : list Event.t;
  g_places : list Place.t;
  g_edges : list Edge
}.

Definition empty_graph : Graph := Build_Graph [] [] [] [] [].

Definition with_persons (l : list Person.t) (g : Graph) : Graph :=
  {| g_persons := l; g_dynasties := g_dynasties g; g_events := g_events g;
     g_places := g_places g; g_edges := g_edges g |}.

Definition with_edges (l : list Edge) (g : Graph) : Graph :=
  {| g_persons := g_persons g; g_dynasties := g_dynasties g; g_events := g_events g;
     g_places := g_places g; g_edges := l |}.

(** [MERGE (n:L {uid: $uid}) SET n += $props] on the node list of one label:
    every node with that uid receives the properties; when there is none a
    node is created at the end of the list and receives them. *)
Section MergeNode.
Context {A : Type} (get_uid : A → string) (fresh : string → A) (set_props : A → A → A).

Definition has_uid (u : string) (l : list A) : bool :=
  existsb (λ n, String.eqb (get_uid n) u) l.

Definition merge_node (u : string) (props : A) (l : list A) : list A :=
  if has_uid u l
  then map (λ n, if String.eqb (get_uid n) u then set_props n props else n) l
  else l ++ [set_props (fresh u) props].
End MergeNode.

(* ===================================================================== *)
(** ** graph/crud.py *)
(* ===================================================================== *)

(** The blacklist of generic titles, as listed in the source (the literal
    repeats one entry; a set keeps one). *)
Definition AMBIGUOUS_TITLES : gset string :=
  list_to_set
    [ "太宗"; "太祖"; "世宗"; "高祖"; "中宗"; "明宗"; "穆宗"; "庄宗";
      "文宗"; "武宗"; "宣宗"; "哀帝"; "废帝"; "少帝"; "末帝";
      "皇帝"; "天子"; "新天子"; "大宋天子"; "大周皇帝"; "皇太子"; "太子";
      "皇太弟"; "晋王"; "秦王"; "齐王"; "赵王"; "魏王"; "楚王"; "吴王";
      "蜀王"; "梁王"; "燕王"; "汉王"; "周王"; "宋王"; "鲁王";
      "皇后"; "太后"; "太妃"; "贵妃"; "淑妃"; "贤妃";
      "太子"; "世子"; "长子"; "次子"; "三子"; "老大"; "老二"; "老三"; "老四";
      "先王"; "先帝";
      "宰相"; "枢密使"; "节度使"; "刺史"; "侍中";
      "唐主"; "梁主"; "晋主"; "汉主"; "周主"; "蜀主"; "契丹主";
      "辽主"; "吴主";
      "伶人"; "优伶"; "伶伦"; "住持和尚"; "法师" ].

(** The alias ceiling of the pollution guard. *)
Definition ALIAS_CEILING : nat := 25.

(** A name takes part in matching when it is not empty, not a blacklisted
    title and longer than one character. *)
Definition is_specific (n : string) : Prop :=
  n ≠ "" ∧ (n ∉ AMBIGUOUS_TITLES) ∧ py_len n ≠ 1.

#[global] Instance is_specific_dec n : Decision (is_specific n).
Proof. unfold is_specific. apply _. Defined.

Definition _filter_ambiguous_names (names : gset string) : gset string :=
  filter is_specific names.

(** The two queries of [find_person_by_any_name], as result lists. *)
Definition query_exact (names : gset string) (g : Graph) : list Person.t :=
  filter (λ p, Person.original_name p ∈ names) (g_persons g).

Definition query_alias (names : gset string) (g : Graph) : list Person.t :=
  filter (λ p, Exists (λ alias, alias ∈ names) (Person.aliases p)) (g_persons g).

Definition find_person_by_any_name (names : gset string) (use_filter : bool)
    (g : Graph) : option Person.t :=
  if bool_decide (names = ∅) then None
  else
    let specific_names :=
      if use_filter then _filter_ambiguous_names names
      else filter (λ n, n ≠ "") names in
    if bool_decide (specific_names = ∅) then None
    else
      match query_exact specific_names g with
      | r :: _ => Some r
      | [] => head (query_alias specific_names g)
      end.

(** [MERGE (p:Person {uid: $uid}) SET p += $props], the node creation used by
    [merge_person] and [upsert_person]. *)
Definition upsert_person (person : Person.t) (g : Graph) : Graph :=
  with_persons
    (merge_node Person.uid Person.fresh Person.set_props
       (Person.uid person) person (g_persons g)) g.

(** The alias set [merge_person] proposes for the node [existing] and the
    candidate's names. *)
Definition proposed_aliases (existing : Person.t) (all_names : gset string)
    : gset string :=
  let existing_aliases : gset string :=
    list_to_set (Person.aliases existing) ∪ {[ Person.original_name existing ]} in
  ((existing_aliases ∪ all_names) ∖ {[ Person.original_name existing ]}) ∖ {[ "" ]}.

(** The [MATCH (p:Person {uid: $uid}) SET ...] of the merge branch, on one
    node: aliases, loyalty and description are always written, a scalar only
    when the candidate has a value and the stored one is empty. *)
Definition merged_node (existing person : Person.t) (new_aliases : gset string)
    (n : Person.t) : Person.t :=
  let merged_loyalty := dict_fromkeys (Person.loyalty existing ++ Person.loyalty person) in
  let existing_desc := Person.description existing in
  let new_desc := Person.description person in
  let final_desc :=
    if (py_len existing_desc <? py_len new_desc)%nat then new_desc else existing_desc in
  {| Person.uid := Person.uid n;
     Person.original_name := Person.original_name n;
     Person.aliases := sorted (elements new_aliases);
     Person.role :=
       if negb (String.eqb (Person.role person) "")
          && negb (String.eqb (Person.role person) "其他")
          && (String.eqb (Person.role existing) "其他"
              || String.eqb (Person.role existing) "")
       then Person.role person else Person.role n;
     Person.loyalty := merged_loyalty;
     Person.birth_year :=
       if truthy_int (Person.birth_year person)
          && negb (truthy_int (Person.birth_year existing))
       then Person.birth_year person else Person.birth_year n;
     Person.death_year :=
       if truthy_int (Person.death_year person)
          && negb (truthy_int (Person.death_year existing))
       then Person.death_year person else Person.death_year n;
     Person.death_cause :=
       if truthy_str (Person.death_cause person)
          && negb (truthy_str (Person.death_cause existing))
       then Person.death_cause person else Person.death_cause n;
     Person.description := final_desc |}.

Definition update_person (existing person : Person.t) (new_aliases : gset string)
    (g : Graph) : Graph :=
  with_persons
    (map (λ n, if String.eqb (Person.uid n) (Person.uid existing)
               then merged_node existing person new_aliases n else n)
         (g_persons g)) g.

Definition merge_person (person : Person.t) (g : Graph) : string * Graph :=
  let all_names := Person.all_names person in
  match find_person_by_any_name all_names true g with
  | Some existing =>
      let new_aliases := proposed_aliases existing all_names in
      if (ALIAS_CEILING <? size new_aliases)%nat
      then (Person.uid person, upsert_person person g)
      else (Person.uid existing, update_person existing person new_aliases g)
  | None => (Person.uid person, upsert_person person g)
  end.

(** The person query of [resolve_node_uid] and [resolve_person_uid]:
    [WHERE p.original_name = $name OR $name IN p.aliases]. *)
Definition carries_name (name : string) (p : Person.t) : Prop :=
  Person.original_name p = name ∨ name ∈ Person.aliases p.

#[global] Instance carries_name_dec name p : Decision (carries_name name p).
Proof. unfold carries_name. apply _. Defined.

Definition query_person_by_name (name : string) (g : Graph) : list Person.t :=
  filter (carries_name name) (g_persons g).

Definition resolve_person_uid (name : string) (g : Graph) : option string :=
  if String.eqb name "" then None
  else Person.uid <$> head (query_person_by_name name g).

Definition resolve_node_uid (name : string) (g : Graph) : option string :=
  if String.eqb name "" then None
  else
    match query_person_by_name name g with
    | r :: _ => Some (Person.uid r)
    | [] =>
        match filter (λ d, Dynasty.name d = name) (g_dynasties g) with
        | r :: _ => Some (Dynasty.uid r)
        | [] =>
            match filter (λ e, Event.name e = name) (g_events g) with
            | r :: _ => Some (Event.uid r)
            | [] =>
                match filter (λ pl, Place.name pl = name) (g_places g) with
                | r :: _ => Some (Place.uid r)
                | [] => None
                end
            end
        end
    end.

Definition upsert_dynasty (dynasty : Dynasty.t) (g : Graph) : Graph :=
  {| g_persons := g_persons g;
     g_dynasties := merge_node Dynasty.uid Dynasty.fresh Dynasty.set_props
                      (Dynasty.uid dynasty) dynasty (g_dynasties g);
     g_events := g_events g; g_places := g_places g; g_edges := g_edges g |}.

Definition upsert_event (event : Event.t) (g : Graph) : Graph :=
  {| g_persons := g_persons g; g_dynasties := g_dynasties g;
     g_events := merge_node Event.uid Event.fresh Event.set_props
                   (Event.uid event) event (g_events g);
     g_places := g_places g; g_edges := g_edges g |}.

Definition upsert_place (place : Place.t) (g : Graph) : Graph :=
  {| g_persons := g_persons g; g_dynasties := g_dynasties g;
     g_events := g_events g;
     g_places := merge_node Place.uid Place.fresh Place.set_props
                   (Place.uid place) place (g_places g);
     g_edges := g_edges g |}.

(** Edges.  [MATCH (n {uid: $u})] without a label ranges over the nodes of
    every label; [MATCH (n:L {uid: $u})] over those of label [L]. *)
Definition match_label_uid (l : Label) (u : string) (g : Graph) : list NodeRef :=
  match l with
  | LPerson => map (λ n, (LPerson, Person.uid n)) (filter (λ n, Person.uid n = u) (g_persons g))
  | LDynasty => map (λ n, (LDynasty, Dynasty.uid n)) (filter (λ n, Dynasty.uid n = u) (g_dynasties g))
  | LEvent => map (λ n, (LEvent, Event.uid n)) (filter (λ n, Event.uid n = u) (g_events g))
  | LPlace => map (λ n, (LPlace, Place.uid n)) (filter (λ n, Place.uid n = u) (g_places g))
  end.

Definition match_uid (u : string) (g : Graph) : list NodeRef :=
  match_label_uid LPerson u g ++ match_label_uid LDynasty u g
  ++ match_label_uid LEvent u g ++ match_label_uid LPlace u g.

Definition is_edge (a b : NodeRef) (ty : string) (e : Edge) : Prop :=
  e_src e = a ∧ e_dst e = b ∧ e_type e = ty.

#[global] Instance is_edge_dec a b ty e : Decision (is_edge a b ty e).
Proof. unfold is_edge. apply _. Defined.

(** [MERGE (a)-[r:ty]->(b)] followed by a [SET] on [r], for one pair of
    bound nodes. *)
Definition merge_edge (set : Edge → Edge) (ty : string) (ab : NodeRef * NodeRef)
    (l : list Edge) : list Edge :=
  if bool_decide (Exists (is_edge ab.1 ab.2 ty) l)
  then map (λ e, if bool_decide (is_edge ab.1 ab.2 ty e) then set e else e) l
  else l ++ [set (Build_Edge ab.1 ab.2 ty None None None)].

(** The same for every pair the two [MATCH] clauses bind. *)
Definition merge_edges (set : Edge → Edge) (ty : string) (srcs dsts : list NodeRef)
    (l : list Edge) : list Edge :=
  foldl (λ acc ab, merge_edge set ty ab acc) l
        (a ← srcs; b ← dsts; [(a, b)]).

Definition set_role (role : string) (e : Edge) : Edge :=
  {| e_src := e_src e; e_dst := e_dst e; e_type := e_type e;
     e_role := Some role; e_description := e_description e; e_year := e_year e |}.

(** [SET r += relation.neo4j_properties()]. *)
Definition set_relation_props (relation : Relation.t) (e : Edge) : Edge :=
  {| e_src := e_src e; e_dst := e_dst e; e_type := e_type e;
     e_role := e_role e;
     e_description := Some (Relation.description relation);
     e_year := match Relation.year relation with Some y => Some y | None => e_year e end |}.

Definition PARTICIPATED_IN : string := "PARTICIPATED_IN".
Definition default_role : string := "参与者".

Definition link_event_participant (event_uid person_name role : string)
    (g : Graph) : Graph :=
  let resolved := resolve_person_uid person_name g in
  let person_uid :=
    if truthy_str resolved then resolved
    else
      match match_label_uid LPerson person_name g with
      | _ :: _ => Some person_name
      | [] => None
      end in
  match person_uid with
  | None => g
  | Some pu =>
      with_edges
        (merge_edges (set_role role) PARTICIPATED_IN
           (match_label_uid LPerson pu g) (match_label_uid LEvent event_uid g)
           (g_edges g)) g
  end.

Section RelationType.
(** [str.upper] and the per-character test [c.isalnum()] follow Python's
    Unicode tables, which are no part of the repository: they are taken as
    parameters.  [keep_alnum s] stands for
    ["".join(c if c.isalnum() or c == "_" else "_" for c in s)]. *)
Variable py_upper : string → string.
Variable keep_alnum : string → string.

Definition sanitize_rel_type (relation_type : string) : string :=
  let rel_type :=
    replace_char "-"%char "_"%char (replace_char " "%char "_"%char (py_upper relation_type)) in
  let rel_type := keep_alnum rel_type in
  if String.eqb rel_type "" then "RELATED_TO" else rel_type.

Definition create_relation_by_name (relation : Relation.t) (g : Graph)
    : bool * Graph :=
  let source_uid := resolve_node_uid (Relation.source relation) g in
  let target_uid := resolve_node_uid (Relation.target relation) g in
  if negb (truthy_str source_uid) then (false, g)
  else if negb (truthy_str target_uid) then (false, g)
  else
    let rel_type := sanitize_rel_type (Relation.relation_type relation) in
    (true,
     with_edges
       (merge_edges (set_relation_props relation) rel_type
          (match_uid (default "" source_uid) g) (match_uid (default "" target_uid) g)
          (g_edges g)) g).

(** [_write_result_to_neo4j]: polities, places, persons (through
    [merge_person]), events with their participants, relations.  Each
    write sits in its own [try]/[except], so none of them stops the
    others. *)
Definition write_event (event : Event.t) (g : Graph) : Graph :=
  foldl (λ acc participant_name,
           link_event_participant (Event.uid event) participant_name default_role acc)
        (upsert_event event g) (Event.participants event).

Definition _write_result_to_neo4j (result : ExtractionResult) (g : Graph) : Graph :=
  let g := foldl (λ acc dynasty, upsert_dynasty dynasty acc) g (dynasties result) in
  let g := foldl (λ acc place, upsert_place place acc) g (places result) in
  let g := foldl (λ acc person, (merge_person person acc).2) g (persons result) in
  let g := foldl (λ acc event, write_event event acc) g (events result) in
  foldl (λ acc relation, (create_relation_by_name relation acc).2) g (relations result).
End RelationType.

(* ===================================================================== *)
(** ** ingestion/pipeline.py *)
(* ===================================================================== *)

Record TextChunk := {
  chunk_id : string;
  chapter : string;
  content : string;
  char_count : Z
}.

(** [progress.json]: absent, present but not loadable, or holding the list
    written by [_save_progress]. *)
Inductive ProgressFile :=
  | NoFile
  | Unreadable
  | Saved (processed_chunks : list string).

(** [extraction_results.json], written by [_save_extraction_results] and
    read by [run_from_saved]. *)
Inductive ResultsFile :=
  | NoResults
  | UnreadableResults
  | SavedResults (saved_results : list ExtractionResult).

(** The pipeline object with the store it writes to and the two files it
    writes and reads back. *)
Record Pipeline := {
  _processed_chunks : gset string;
  _progress_file : ProgressFile;
  graph : Graph;
  _results_file : ResultsFile
}.

(** What stops the loop or the last save of a run before its end: the
    exception of a call that no [try] encloses. *)
Inductive Halt :=
  | ProgressWriteFailed
  | ResultsWriteFailed
  | GraphStatsFailed.

(** The collaborators outside the process.  [extract_from_chunk i c] is the
    result of the extraction call on the [i]-th unit of the run ([None]: the
    call failed or its reply could not be parsed);  [periodic i] names the
    first step of the checkpoint after unit [i] that raises, if any, and
    [final] does so for the last save;  [clear_database_raises] tells whether
    the [DETACH DELETE] of [clear_database] raises;  [torn_write] tells
    whether a file write that raises had already truncated its file. *)
Record Env := {
  extract_from_chunk : nat → TextChunk → option ExtractionResult;
  periodic : nat → option Halt;
  final : option Halt;
  clear_database_raises : bool;
  torn_write : bool
}.

(** What a run did: the units handed to the extraction collaborator and the
    results it accumulated. *)
Record Trace := {
  extract_calls : list string;
  results : list ExtractionResult
}.

Definition _load_progress (st : Pipeline) : Pipeline :=
  match _progress_file st with
  | NoFile => st
  | Unreadable =>
      {| _processed_chunks := ∅; _progress_file := _progress_file st; graph := graph st;
         _results_file := _results_file st |}
  | Saved l =>
      {| _processed_chunks := list_to_set l; _progress_file := _progress_file st;
         graph := graph st; _results_file := _results_file st |}
  end.

Definition _save_progress (st : Pipeline) : Pipeline :=
  {| _processed_chunks := _processed_chunks st;
     _progress_file := Saved (sorted (elements (_processed_chunks st)));
     graph := graph st;
     _results_file := _results_file st |}.

(** [_save_extraction_results(results, suffix)].  Without a suffix
    ([last]) the file is [extraction_results.json]; the periodic saves write
    [extraction_results_checkpoint_<n>.json], files that no function reads
    and that are not kept here. *)
Definition _save_extraction_results (results : list ExtractionResult) (last : bool)
    (st : Pipeline) : Pipeline :=
  if last then
    {| _processed_chunks := _processed_chunks st; _progress_file := _progress_file st;
       graph := graph st; _results_file := SavedResults results |}
  else st.

(** [_save_progress(); _save_extraction_results(...); get_graph_stats()]
    with the first failing step [fail].  A write that raises leaves its file
    as it was or, when [torn], without loadable content; a later failure
    finds the earlier writes done. *)
Definition checkpoint (fail : option Halt) (torn last : bool)
    (results : list ExtractionResult) (st : Pipeline) : option Halt * Pipeline :=
  match fail with
  | Some ProgressWriteFailed =>
      (fail, {| _processed_chunks := _processed_chunks st;
                _progress_file := if torn then Unreadable else _progress_file st;
                graph := graph st;
                _results_file := _results_file st |})
  | Some ResultsWriteFailed =>
      let st := _save_progress st in
      (fail, {| _processed_chunks := _processed_chunks st;
                _progress_file := _progress_file st;
                graph := graph st;
                _results_file :=
                  if last && torn then UnreadableResults else _results_file st |})
  | _ => (fail, _save_extraction_results results last (_save_progress st))
  end.

(** [l[n:]] and [l[:n]] for a Python integer [n]. *)
Definition py_slice_from {A} (n : Z) (l : list A) : list A :=
  if (0 <=? n)%Z then drop (Z.to_nat n) l
  else drop (length l - Z.to_nat (- n)) l.

Definition py_slice_to {A} (n : Z) (l : list A) : list A :=
  if (0 <=? n)%Z then take (Z.to_nat n) l
  else take (length l - Z.to_nat (- n)) l.

Section Run.
Variable py_upper : string → string.
Variable keep_alnum : string → string.
Variable env : Env.

(** One turn of the loop of [run] on the [i]-th unit. *)
Definition process_chunk (i : nat) (chunk : TextChunk) (ts : Trace * Pipeline)
    : Trace * Pipeline :=
  let '(tr, st) := ts in
  let result := extract_from_chunk env i chunk in
  let calls := (extract_calls tr ++ [chunk_id chunk])%list in
  let '(tr, g) :=
    match result with
    | Some r =>
        (Build_Trace calls (results tr ++ [r])%list,
         _write_result_to_neo4j py_upper keep_alnum r (graph st))
    | None => (Build_Trace calls (results tr), graph st)
    end in
  (tr, {| _processed_chunks := _processed_chunks st ∪ {[ chunk_id chunk ]};
          _progress_file := _progress_file st;
          graph := g;
          _results_file := _results_file st |}).

(** The loop: extraction, immediate write, progress, and every tenth unit a
    checkpoint. *)
Fixpoint process_chunks (i : nat) (chunks : list TextChunk) (ts : Trace * Pipeline)
    : option Halt * (Trace * Pipeline) :=
  match chunks with
  | [] => (None, ts)
  | chunk :: rest =>
      let '(tr, st) := process_chunk i chunk ts in
      if (S i mod 10 =? 0)%nat then
        match checkpoint (periodic env i) (torn_write env) false (results tr) st with
        | (Some h, st) => (Some h, (tr, st))
        | (None, st) => process_chunks (S i) rest (tr, st)
        end
      else process_chunks (S i) rest (tr, st)
  end.

(** How a run ends: [clear_database] raised, there was no unit, the run
    went through its last save, or a step of a checkpoint raised. *)
Inductive Outcome :=
  | ClearFailed
  | NoChunks
  | Completed
  | Halted (h : Halt).

(** [run], from the list of units it loaded: [chunks] is what the reading
    of [chunks.json], or else [process_raw_files], returned.
    [clear_database()] stands before the reset of the processed set and
    outside any [try]: when it raises, the run ends there with store, memory
    and files as they were. *)
Definition run (clear_db resume : bool) (max_chunks : option Z) (start_from : Z)
    (chunks : list TextChunk) (st : Pipeline) : Outcome * (Trace * Pipeline) :=
  if clear_db && clear_database_raises env then (ClearFailed, (Build_Trace [] [], st))
  else
  let st :=
    if clear_db then
      {| _processed_chunks := ∅; _progress_file := _progress_file st;
         graph := empty_graph; _results_file := _results_file st |}
    else if resume then _load_progress st
    else st in
  match chunks with
  | [] => (NoChunks, (Build_Trace [] [], st))
  | _ =>
      let chunks :=
        if resume && negb (bool_decide (_processed_chunks st = ∅))
        then filter (λ c, chunk_id c ∉ _processed_chunks st) chunks
        else chunks in
      let chunks := if (0 <? start_from)%Z then py_slice_from start_from chunks else chunks in
      let chunks :=
        match max_chunks with
        | Some m => py_slice_to m chunks
        | None => chunks
        end in
      match process_chunks 0 chunks (Build_Trace [] [], st) with
      | (Some h, ts) => (Halted h, ts)
      | (None, (tr, st)) =>
          match checkpoint (final env) (torn_write env) true (results tr) st with
          | (Some h, st) => (Halted h, (tr, st))
          | (None, st) => (Completed, (tr, st))
          end
      end
  end.
End Run.

(* ===================================================================== *)
(** ** scripts/llm_batch_cleanup.py: repair of the event relations *)
(* ===================================================================== *)

Definition MEMORIAL_KEYWORDS : list string :=
  [ "追封"; "追赠"; "追谥"; "祭"; "葬"; "陵"; "安葬"; "遗命"; "遗诏"; "庙号"; "谥号" ].

(** A Python [dict] with string keys, in insertion order. *)
Section Dict.
Context {V : Type}.

Fixpoint dict_get (k : string) (d : list (string * V)) : option V :=
  match d with
  | [] => None
  | (k', v) :: r => if String.eqb k' k then Some v else dict_get k r
  end.

Fixpoint dict_set (k : string) (v : V) (d : list (string * V)) : list (string * V) :=
  match d with
  | [] => [(k, v)]
  | (k', v') :: r =>
      if String.eqb k' k then (k', v) :: r else (k', v') :: dict_set k v r
  end.
End Dict.

(** [death_years]: uid to death year, for the persons that have one. *)
Definition death_years (g : Graph) : list (string * Z) :=
  foldl (λ d p, match Person.death_year p with
                | Some dy => dict_set (Person.uid p) dy d
                | None => d
                end) [] (g_persons g).

(** [any(kw in text for kw in MEMORIAL_KEYWORDS)]. *)
Definition has_memorial_keyword (text : string) : bool :=
  existsb (λ kw, py_in kw text) MEMORIAL_KEYWORDS.

(** A participation edge of the person [uid] towards an event node. *)
Definition participation_of (uid : string) (e : Edge) : Prop :=
  e_src e = (LPerson, uid) ∧ e_type e = PARTICIPATED_IN ∧ (e_dst e).1 = LEvent.

#[global] Instance participation_of_dec uid e : Decision (participation_of uid e).
Proof. unfold participation_of. apply _. Defined.

(** [e.year > $death_year]; a missing year compares to null and drops the
    row. *)
Definition later_than (dy : Z) (ev : Event.t) : Prop :=
  match Event.year ev with
  | Some y => (dy < y)%Z
  | None => False
  end.

#[global] Instance later_than_dec dy ev : Decision (later_than dy ev).
Proof. unfold later_than. destruct (Event.year ev); apply _. Defined.

(** The rows of the post-death query for one person: the events reached by
    a participation edge whose year exceeds the death year. *)
Definition post_death (uid : string) (dy : Z) (g : Graph) : list Event.t :=
  e ← g_edges g;
  if bool_decide (participation_of uid e)
  then filter (λ ev, Event.uid ev = (e_dst e).2 ∧ later_than dy ev) (g_events g)
  else [].

(** The events of the rows that are not memorial: [desc + ename] holds no
    keyword. *)
Definition to_remove (uid : string) (dy : Z) (g : Graph) : list string :=
  Event.uid <$>
    filter (λ ev, has_memorial_keyword (Event.description ev ++ Event.name ev) = false)
           (post_death uid dy g).

(** One turn of the removal loop. *)
Definition remove_post_death_of (g : Graph) (entry : string * Z) : Graph :=
  let '(uid, dy) := entry in
  match to_remove uid dy g with
  | [] => g
  | event_uids =>
      with_edges
        (filter (λ e, ¬ (participation_of uid e ∧ (e_dst e).2 ∈ event_uids)) (g_edges g)) g
  end.

(** Step 1 of [run_phase2_event_relations]: removal of the relations that
    lie after a person's death. *)
Definition remove_post_death_relations (g : Graph) : Graph :=
  foldl remove_post_death_of g (death_years g).

(** [get_all_person_name_map]: name or alias to uid.  An original name
    overrides an earlier entry, an alias only fills a free key; one-character
    aliases are skipped. *)
Definition get_all_person_name_map (g : Graph) : list (string * string) :=
  foldl (λ name_map r,
           let uid := Person.uid r in
           foldl (λ nm alias,
                    if negb (String.eqb alias "") && (1 <? py_len alias)%nat
                    then match dict_get alias nm with
                         | Some _ => nm
                         | None => dict_set alias uid nm
                         end
                    else nm)
                 (dict_set (Person.original_name r) uid name_map)
                 (Person.aliases r))
        [] (g_persons g).

(** The filter of step 2 on one person: an event after the death is linked
    only when its text holds a memorial keyword. *)
Definition link_allowed (dys : list (string * Z)) (e : Event.t) (desc uid : string)
    : bool :=
  match dict_get uid dys, Event.year e with
  | Some dy, Some year =>
      if negb (dy =? 0)%Z && negb (year =? 0)%Z && (dy <? year)%Z
      then has_memorial_keyword desc
      else true
  | _, _ => true
  end.

(** The persons step 2 wants linked to the event [e]: those named among the
    participants or in the text, minus the dead whose event is not memorial. *)
Definition final_link (name_map : list (string * string)) (dys : list (string * Z))
    (e : Event.t) : gset string :=
  let desc := Event.description e ++ " " ++ Event.name e in
  let from_participants : list string :=
    omap (λ pname, match dict_get pname name_map with
                   | Some uid => if String.eqb uid "" then None else Some uid
                   | None => None
                   end) (Event.participants e) in
  let from_text : list string :=
    omap (λ entry : string * string,
            if (2 <=? py_len entry.1)%nat && py_in entry.1 desc
            then Some entry.2 else None) name_map in
  let should_link : gset string := list_to_set (from_participants ++ from_text) in
  filter (λ uid, link_allowed dys e desc uid = true) should_link.

(** [_flush_event_links]: a participation edge is written where the count of
    existing ones is zero. *)
Definition flush_link (euid : string) (g : Graph) (puid : string) : Graph :=
  let cnt :=
    length (filter (λ e, participation_of puid e ∧ (e_dst e).2 = euid) (g_edges g)) in
  if (cnt =? 0)%nat
  then with_edges
         (merge_edges (set_role default_role) PARTICIPATED_IN
            (match_label_uid LPerson puid g) (match_label_uid LEvent euid g)
            (g_edges g)) g
  else g.

Definition _flush_event_links (batch : list (string * gset string)) (g : Graph) : Graph :=
  foldl (λ acc entry, foldl (flush_link entry.1) acc (elements entry.2)) g batch.

(** Step 2: the scan of all events, flushed in batches of 200. *)
Definition relink_events (dys : list (string * Z)) (g : Graph) : Graph :=
  let name_map := get_all_person_name_map g in
  let '(batch, g') :=
    foldl (λ (st : list (string * gset string) * Graph) e,
             let '(batch, acc) := st in
             let links := final_link name_map dys e in
             let batch :=
               if bool_decide (links = ∅) then batch
               else (batch ++ [(Event.uid e, links)])%list in
             if (200 <=? length batch)%nat then ([], _flush_event_links batch acc)
             else (batch, acc))
          ([], g) (g_events g) in
  _flush_event_links batch g'.

(** Step 3: self-loops are deleted, then of the edges sharing source, target
    and type only the first is kept. *)
Fixpoint collapse_parallel (seen : list (NodeRef * NodeRef * string)) (l : list Edge)
    : list Edge :=
  match l with
  | [] => []
  | e :: r =>
      let key := (e_src e, e_dst e, e_type e) in
      if bool_decide (key ∈ seen) then collapse_parallel seen r
      else e :: collapse_parallel (key :: seen) r
  end.

Definition clean_duplicates (g : Graph) : Graph :=
  with_edges (collapse_parallel [] (filter (λ e, e_src e ≠ e_dst e) (g_edges g))) g.

Definition run_phase2_event_relations (g : Graph) : Graph :=
  let dys := death_years g in
  clean_duplicates (relink_events dys (remove_post_death_relations g)).

(* ===================================================================== *)
(** ** Predicates of the statements *)
(* ===================================================================== *)

#[global] Instance Person_eq_dec : EqDecision Person.t.
Proof. solve_decision. Defined.

(** The stored persons have pairwise different uids: the uniqueness
    constraint of the schema. *)
Definition unique_uids (g : Graph) : Prop := NoDup (Person.uid <$> g_persons g).

(** A stored node answers to [name] in the lookup of a relation endpoint: a
    person by original name or alias, a polity, an event or a place by
    name. *)
Definition answers_to (name : string) (g : Graph) : Prop :=
  (∃ p, p ∈ g_persons g ∧ carries_name name p)
  ∨ (∃ d, d ∈ g_dynasties g ∧ Dynasty.name d = name)
  ∨ (∃ e, e ∈ g_events g ∧ Event.name e = name)
  ∨ (∃ pl, pl ∈ g_places g ∧ Place.name pl = name).

(** The populated scalars of [n] have the same value in [n']: a year that
    is present and not zero, a cause of death that is present and not empty,
    a role other than the empty string and the default. *)
Definition scalars_kept (n n' : Person.t) : Prop :=
  (truthy_int (Person.birth_year n) = true → Person.birth_year n' = Person.birth_year n)
  ∧ (truthy_int (Person.death_year n) = true → Person.death_year n' = Person.death_year n)
  ∧ (truthy_str (Person.death_cause n) = true →
     Person.death_cause n' = Person.death_cause n)
  ∧ (Person.role n ≠ "" → Person.role n ≠ "其他" → Person.role n' = Person.role n).

(** The call writes the candidate under its own uid: nothing matched, or the
    pollution guard refused the merge. *)
Definition takes_creation_path (person : Person.t) (g : Graph) : Prop :=
  match find_person_by_any_name (Person.all_names person) true g with
  | Some existing =>
      (ALIAS_CEILING < size (proposed_aliases existing (Person.all_names person)))%nat
  | None => True
  end.

#[global] Instance takes_creation_path_dec person g :
  Decision (takes_creation_path person g).
Proof.
  unfold takes_creation_path.
  destruct (find_person_by_any_name _ _ _); apply _.
Defined.

(** A sequence of [merge_person] calls. *)
Fixpoint merge_persons (candidates : list Person.t) (g : Graph) : Graph :=
  match candidates with
  | [] => g
  | c :: rest => merge_persons rest (merge_person c g).2
  end.

(** No call of the sequence reaches the creation write with the uid [u]. *)
Fixpoint never_rewritten (u : string) (candidates : list Person.t) (g : Graph) : Prop :=
  match candidates with
  | [] => True
  | c :: rest =>
      ¬ (takes_creation_path c g ∧ Person.uid c = u)
      ∧ never_rewritten u rest (merge_person c g).2
  end.

#[global] Instance never_rewritten_dec u candidates :
  ∀ g, Decision (never_rewritten u candidates g).
Proof. induction candidates as [|c rest IH]; intros g; cbn; apply _. Defined.

(** The body of the loop that fills [death_years]. *)
Definition record_death_year (d : list (string * Z)) (p : Person.t) : list (string * Z) :=
  match Person.death_year p with
  | Some dy => dict_set (Person.uid p) dy d
  | None => d
  end.

(** The participation edge [e] of person [u], who died in [dy], leads to an
    event after that year whose text has no memorial keyword. *)
Definition doomed (u : string) (dy : Z) (evs : list Event.t) (e : Edge) : Prop :=
  participation_of u e
  ∧ ∃ ev, ev ∈ evs ∧ Event.uid ev = (e_dst e).2 ∧ later_than dy ev
          ∧ has_memorial_keyword (String.append (Event.description ev) (Event.name ev))
            = false.

(* ===================================================================== *)
(** ** Scenario data *)
(* ===================================================================== *)

(** Persons of the period, as an extraction would return them. *)
Definition li_keyong : Person.t :=
  Person.mk "person_li_keyong" "李克用" ["晋王"] "藩镇节度使" ["晋"]
            None (Some 908%Z) None "沙陀人".

Definition li_cunxu : Person.t :=
  Person.mk "person_li_cunxu" "李存勖" ["晋王"; "亚子"] "皇帝" ["后唐"]
            (Some 885%Z) (Some 926%Z) None "后唐庄宗".

Definition li_siyuan : Person.t :=
  Person.mk "person_li_siyuan" "李嗣源" ["邈佶烈"] "皇帝" ["后唐"]
            None (Some 933%Z) None "后唐明宗".

(** Father and son, both known as Prince of Jin. *)
Definition two_princes_of_jin : Graph :=
  with_persons [li_keyong; li_cunxu] empty_graph.

(** The relation of the specification's scenario: its target was never
    resolved. *)
Definition adopted_son : Relation.t :=
  Relation.mk "李克用" "李嗣源" "ADOPTED_SON" None "义子".

(** An event whose participant is given by uid, not by name. *)
Definition xingjiao_mutiny : Event.t :=
  Event.mk "event_xingjiao" "兴教门之变" "政变" (Some 926%Z) (Some "洛阳")
           ["person_li_siyuan"] None "庄宗遇弑".

Definition fallback_graph : Graph :=
  upsert_event xingjiao_mutiny (upsert_person li_siyuan empty_graph).

(** The scenario of the specification: "Zhu Wen" first, then "Zhu Wen" with
    two more names. *)
Definition zhu_wen_first : Person.t :=
  Person.mk "person_zhuwen" "朱温" [] "其他" [] None None None "梁太祖".

Definition zhu_wen_later : Person.t :=
  Person.mk "person_zhu_wen" "朱温" ["朱全忠"; "朱晃"] "皇帝" ["后梁"]
            (Some 852%Z) (Some 912%Z) (Some "被杀") "后梁开国皇帝，原为黄巢部将".

(** A candidate that carries the name "Zhu Wen" and nothing else. *)
Definition zhu_wen_bare : Person.t :=
  Person.mk "person_zhu_wen_2" "朱温" [] "其他" [] None None None "".

(** A later extraction of Zhu Wen that disagrees on every scalar. *)
Definition zhu_wen_conflicting : Person.t :=
  Person.mk "person_zhu_wen" "朱温" ["朱全忠"] "将领" ["唐"]
            (Some 850%Z) (Some 913%Z) (Some "病死") "宣武节度使".

(** A stored node at the ceiling: "Zhu Wen" with twenty-five aliases, many of
    them names of other people. *)
Definition zhu_wen_polluted : Person.t :=
  Person.mk "person_zhuwen" "朱温"
    [ "朱全忠"; "朱晃"; "朱三"; "梁太祖"; "梁祖"; "东平王"; "朱阿三"; "全忠";
      "朱友珪"; "朱友贞"; "朱友文"; "朱友裕"; "朱存"; "朱全昱"; "张惠"; "敬翔";
      "李振"; "葛从周"; "庞师古"; "氏叔琮"; "杨师厚"; "王彦章"; "刘鄩"; "牛存节";
      "寇彦卿" ]
    "皇帝" ["后梁"] (Some 852%Z) (Some 912%Z) (Some "被杀") "后梁开国皇帝".

(** The extraction names the same person again, under the same uid, with one
    name the store does not have yet. *)
Definition zhu_wen_again : Person.t :=
  Person.mk "person_zhuwen" "朱温" ["朱友谦"] "其他" [] None None None "".

(** A stored person known only as the Prince of Jin, and a candidate that
    carries that title and nothing else. *)
Definition jin_wang_stored : Person.t :=
  Person.mk "person_jin_wang" "晋王" [] "藩镇节度使" ["晋"] None (Some 908%Z) None "".

Definition jin_wang_candidate : Person.t :=
  Person.mk "person_li_cunxu" "晋王" [] "皇帝" ["后唐"] None (Some 926%Z) None "".

(** Two extractions of a Prince of Jin, father and son, under the uid the
    title alone suggests. *)
Definition jin_wang_father : Person.t :=
  Person.mk "person_jin_wang" "晋王" [] "藩镇节度使" ["晋"] None (Some 908%Z) None
            "沙陀首领".

Definition jin_wang_son : Person.t :=
  Person.mk "person_jin_wang" "晋王" [] "皇帝" ["后唐"] None (Some 926%Z) None
            "灭后梁".

(** The scenario of the specification: a person who died in 912, an event of
    920, without and with a memorial keyword in its description. *)
Definition battle_920 : Event.t :=
  Event.mk "event_920" "镇州之战" "战争" (Some 920%Z) (Some "镇州") ["朱温"] None
           "晋军围攻镇州".

Definition memorial_920 : Event.t :=
  Event.mk "event_920" "镇州之战" "战争" (Some 920%Z) (Some "镇州") ["朱温"] None
           "战后追封梁太祖旧部".

Definition graph_920 (ev : Event.t) : Graph :=
  write_event ev (upsert_person zhu_wen_later empty_graph).

Definition participation_920 : Edge :=
  Build_Edge (LPerson, "person_zhu_wen") (LEvent, "event_920") PARTICIPATED_IN
             (Some default_role) None None.


(** The person of the scenario with 0 for a death year. *)
Definition zhu_wen_year_zero : Person.t :=
  Person.mk "person_zhu_wen" "朱温" ["朱全忠"; "朱晃"] "皇帝" ["后梁"]
            (Some 852%Z) (Some 0%Z) (Some "被杀") "后梁开国皇帝，原为黄巢部将".

Definition graph_year_zero : Graph :=
  write_event battle_920 (upsert_person zhu_wen_year_zero empty_graph).

(** Units of text, an extraction collaborator that always answers with one
    person, and an environment in which nothing raises. *)
Definition unit_of (id : string) : TextChunk := Build_TextChunk id "卷一" "..." 3.

Definition one_person_result : ExtractionResult :=
  {| persons := [li_keyong]; dynasties := []; events := []; places := [];
     relations := []; source_text := "..."; source_chapter := "卷一" |}.

Definition healthy_env : Env :=
  {| extract_from_chunk := λ _ _, Some one_person_result;
     periodic := λ _, None;
     final := None;
     clear_database_raises := false;
     torn_write := false |}.

(** A pipeline whose progress file records two units. *)
Definition resumed_pipeline : Pipeline :=
  {| _processed_chunks := ∅;
     _progress_file := Saved ["chunk_0000"; "chunk_0001"];
     graph := with_persons [zhu_wen_first] empty_graph;
     _results_file := NoResults |}.

Definition new_pipeline : Pipeline :=
  {| _processed_chunks := ∅; _progress_file := NoFile; graph := empty_graph;
     _results_file := NoResults |}.

(** Eleven units; every extraction fails; [stats_down_env] is the same with a
    graph store that does not answer the statistics query of the checkpoint
    after the tenth unit, while both checkpoint files are written. *)
Definition eleven_units : list TextChunk :=
  unit_of <$> [ "chunk_0000"; "chunk_0001"; "chunk_0002"; "chunk_0003";
                "chunk_0004"; "chunk_0005"; "chunk_0006"; "chunk_0007";
                "chunk_0008"; "chunk_0009"; "chunk_0010" ].

Definition failing_extraction_env : Env :=
  {| extract_from_chunk := λ _ _, None;
     periodic := λ _, None;
     final := None;
     clear_database_raises := false;
     torn_write := false |}.

Definition stats_down_env : Env :=
  {| extract_from_chunk := λ _ _, None;
     periodic := λ i, if (i =? 9)%nat then Some GraphStatsFailed else None;
     final := None;
     clear_database_raises := false;
     torn_write := false |}.

(** A disk that refuses the last write of the progress file, before the file
    is opened. *)
Definition progress_write_down_env : Env :=
  {| extract_from_chunk := λ _ _, None;
     periodic := λ _, None;
     final := Some ProgressWriteFailed;
     clear_database_raises := false;
     torn_write := false |}.

(** A graph store that refuses the [DETACH DELETE] of [clear_database]. *)
Definition store_down_env : Env :=
  {| extract_from_chunk := λ _ _, Some one_person_result;
     periodic := λ _, None;
     final := None;
     clear_database_raises := true;
     torn_write := false |}.

(* ===================================================================== *)
(** ** Further functions of the repository *)
(* ===================================================================== *)

(** ** graph/crud.py: the founder of a polity and the events of a person *)

Definition FOUNDED : string := "FOUNDED".

(** [link_dynasty_founder]: the founder is looked up by name only;
    [MATCH (d:Dynasty), MATCH (p:Person), MERGE (p)-[:FOUNDED]->(d)]. *)
Definition link_dynasty_founder (dynasty_uid person_name : string) (g : Graph) : Graph :=
  let person_uid := resolve_person_uid person_name g in
  if negb (truthy_str person_uid) then g
  else
    with_edges
      (foldl (λ acc ab, merge_edge id FOUNDED ab acc) (g_edges g)
         (d ← match_label_uid LDynasty dynasty_uid g;
          p ← match_label_uid LPerson (default "" person_uid) g;
          [(p, d)])) g.

(** [ORDER BY e.year], ascending: a missing year sorts last. *)
Definition year_le (a b : Event.t) : Prop :=
  match Event.year a, Event.year b with
  | Some x, Some y => (x ≤ y)%Z
  | Some _, None => True
  | None, Some _ => False
  | None, None => True
  end.

#[global] Instance year_le_dec : RelDecision year_le.
Proof.
  intros a b. unfold year_le.
  destruct (Event.year a), (Event.year b); apply _.
Defined.

(** [get_person_events]: the events at the end of a participation edge of
    the person, by year.  A row is given as the event node it reads its
    columns from. *)
Definition get_person_events (person_uid : string) (g : Graph) : list Event.t :=
  merge_sort year_le
    (_ ← match_label_uid LPerson person_uid g;
     e ← g_edges g;
     if bool_decide (participation_of person_uid e)
     then filter (λ ev, Event.uid ev = (e_dst e).2) (g_events g)
     else []).

(** ** Predicates on the store and on edge lists *)

(** [sorted] orders by a total relation. *)
#[local] Instance str_le_total : Total str_le.
Proof. intros a b. apply String.leb_total. Qed.

#[global] Instance Event_eq_dec : EqDecision Event.t.
Proof. solve_decision. Defined.

(** The uids stored under a label. *)
Definition uids_of (l : Label) (g : Graph) : list string :=
  match l with
  | LPerson => Person.uid <$> g_persons g
  | LDynasty => Dynasty.uid <$> g_dynasties g
  | LEvent => Event.uid <$> g_events g
  | LPlace => Place.uid <$> g_places g
  end.

Definition node_exists (g : Graph) (r : NodeRef) : Prop := r.2 ∈ uids_of r.1 g.

(** The store the schema asks for: uids are unique under each label and
    every edge joins two stored nodes. *)
Definition well_formed (g : Graph) : Prop :=
  NoDup (uids_of LPerson g) ∧ NoDup (uids_of LDynasty g)
  ∧ NoDup (uids_of LEvent g) ∧ NoDup (uids_of LPlace g)
  ∧ Forall (λ e, node_exists g (e_src e) ∧ node_exists g (e_dst e)) (g_edges g).

#[global] Instance well_formed_dec g : Decision (well_formed g).
Proof. unfold well_formed, node_exists. apply _. Defined.

(** The edges between the pairs [pairs] are there and carry what [set]
    writes. *)
Definition settled (set : Edge → Edge) (ty : string) (pairs : list (NodeRef * NodeRef))
    (l : list Edge) : Prop :=
  ∀ ab, ab ∈ pairs →
    Exists (is_edge ab.1 ab.2 ty) l
    ∧ ∀ e, e ∈ l → is_edge ab.1 ab.2 ty e → set e = e.

(** ** ingestion/pipeline.py: writing from the saved results *)


(** What identifies an edge for [MERGE] and for the removal of duplicates:
    its endpoints and its type. *)
Definition edge_key (e : Edge) : NodeRef * NodeRef * string :=
  (e_src e, e_dst e, e_type e).

(** [g'] is [g] with participation edges added, each from a person to an
    event that [allowed] relates. *)
Definition links_added (allowed : string → string → Prop) (g g' : Graph) : Prop :=
  g_persons g' = g_persons g ∧ g_dynasties g' = g_dynasties g
  ∧ g_events g' = g_events g ∧ g_places g' = g_places g
  ∧ ∀ e', e' ∈ g_edges g' →
      edge_key e' ∈ edge_key <$> g_edges g
      ∨ ∃ euid puid, allowed euid puid
          ∧ edge_key e' = ((LPerson, puid), (LEvent, euid), PARTICIPATED_IN).

(** ** scripts/llm_batch_cleanup.py: the cleaning of the aliases *)






(** [ORDER BY size(p.aliases) DESC]. *)
Definition more_aliases (a b : Person.t) : Prop :=
  (length (Person.aliases b) ≤ length (Person.aliases a))%nat.

#[global] Instance more_aliases_dec : RelDecision more_aliases.
Proof. intros a b. unfold more_aliases. apply _. Defined.





Section Phase1.
(** [clean_aliases_with_llm] on the [i]-th person of the run: [None] when
    the call fails or the reply has no [correct_aliases]; otherwise the
    lists [correct_aliases] and [wrong_aliases] of the reply. *)
Variable clean_aliases_with_llm : nat → Person.t → option (list string * list string).



End Phase1.


(** ** scripts/cleanup_polluted_nodes.py *)

(** An entry of [KNOWN_PERSONS]: the properties of a person as corrected by
    hand. *)
Record KnownPerson := {
  k_original_name : string;
  k_correct_aliases : list string;
  k_role : string;
  k_birth_year : option Z;
  k_death_year : option Z;
  k_death_cause : option string;
  k_loyalty : list string;
  k_description : string
}.

Definition KNOWN_PERSONS : list (string * KnownPerson) :=
  [
    ("person_li_keyong",
     {| k_original_name := "李克用";
        k_correct_aliases :=
          ["朱邪克用"; "独眼龙"; "李鸦儿"; "飞虎子"; "晋王"; "老晋王"; "太祖武皇帝"; "献祖文皇帝"; "李邈佶烈";
           "李国昌"; "并门"];
        k_role := "藩镇节度使";
        k_birth_year := Some 856%Z;
        k_death_year := Some 908%Z;
        k_death_cause := Some "病逝";
        k_loyalty := ["唐"; "河东"; "沙陀"];
        k_description :=
          "沙陀人，唐末河东节度使，与朱温对抗多年。封晋王，死后其子李存勖继承其志建立后唐。" |});
    ("person_li_cunxu",
     {| k_original_name := "李存勖";
        k_correct_aliases :=
          ["李存勗"; "李亚子"; "亚子"; "庄宗"; "后唐庄宗"; "庄宗皇帝"; "唐庄宗"; "同光帝"; "同光皇帝"; "李天下";
           "晋王"; "李晋王"; "李三郎"; "李皇帝"; "唐主"; "河南天子"];
        k_role := "皇帝";
        k_birth_year := Some 885%Z;
        k_death_year := Some 926%Z;
        k_death_cause := Some "兴教门之变中被杀";
        k_loyalty := ["河东"; "后唐"; "晋"];
        k_description :=
          "李克用之子，后唐开国皇帝。灭后梁统一北方，后因宠信伶人、猜忌功臣导致兴教门之变被杀。" |});
    ("person_yelv_deguang",
     {| k_original_name := "耶律德光";
        k_correct_aliases :=
          ["辽太宗"; "德光"; "契丹主"; "契丹皇帝"; "辽主"; "天皇王"; "天下兵马大元帅"; "大元帅"; "元帅太子";
           "寿昌皇太弟"; "皇太弟"];
        k_role := "皇帝";
        k_birth_year := Some 902%Z;
        k_death_year := Some 947%Z;
        k_death_cause := Some "北归途中病逝";
        k_loyalty := ["契丹/辽"; "契丹"; "辽"];
        k_description :=
          "辽太宗，耶律阿保机次子。助石敬瑭灭后唐建后晋，获燕云十六州。后灭后晋入主中原，但北归途中病逝。" |});
    ("person_yelv_abaoji",
     {| k_original_name := "耶律阿保机";
        k_correct_aliases :=
          ["阿保机"; "安巴坚"; "辽太祖"; "世里阿保机"; "天皇帝"; "契丹天皇帝"; "辽朝天皇帝"];
        k_role := "皇帝";
        k_birth_year := Some 872%Z;
        k_death_year := Some 926%Z;
        k_death_cause := Some "病逝";
        k_loyalty := ["契丹"; "辽"];
        k_description :=
          "契丹/辽朝开国皇帝，统一契丹各部，建立辽朝。" |});
    ("person_xizong",
     {| k_original_name := "僖宗";
        k_correct_aliases :=
          ["唐僖宗"; "唐僖宗李儇"; "僖宗李儇"; "李儇"; "寿王李杰"; "李杰"];
        k_role := "皇帝";
        k_birth_year := Some 862%Z;
        k_death_year := Some 888%Z;
        k_death_cause := Some "病逝";
        k_loyalty := ["唐朝"];
        k_description :=
          "唐朝倒数第三位皇帝，在位期间爆发黄巢之乱。" |});
    ("person_zhuwen",
     {| k_original_name := "朱温";
        k_correct_aliases :=
          ["朱全忠"; "朱晃"; "梁太祖"; "朱三"; "朱老三"; "朱阿三"; "朱三哥"; "阿三"; "泼朱三"; "全忠";
           "东平王"; "梁王"; "砀山大盗"; "朱大强盗"; "朱温老贼"; "老头子"; "朱大帅"];
        k_role := "皇帝";
        k_birth_year := Some 852%Z;
        k_death_year := Some 912%Z;
        k_death_cause := Some "被其子朱友珪弑杀";
        k_loyalty := ["后梁"];
        k_description :=
          "后梁开国皇帝，原为黄巢部将，后叛变归唐，篡唐建后梁。" |});
    ("person_guo_wei",
     {| k_original_name := "郭威";
        k_correct_aliases :=
          ["后周太祖"; "周太祖"; "太祖"; "郭雀儿"; "郭侍中"];
        k_role := "皇帝";
        k_birth_year := Some 904%Z;
        k_death_year := Some 954%Z;
        k_death_cause := Some "病逝";
        k_loyalty := ["后汉"; "后周"];
        k_description :=
          "后周开国皇帝，推翻后汉建立后周。" |});
    ("person_tian_jun",
     {| k_original_name := "田頵";
        k_correct_aliases :=
          ["田二哥"; "田二当家"; "田大将军"; "田老二"; "田"];
        k_role := "将领";
        k_birth_year := Some 887%Z;
        k_death_year := Some 903%Z;
        k_death_cause := None;
        k_loyalty := ["杨吴"];
        k_description :=
          "唐末宁国军节度使。" |});
    ("person_liu_fu_ren",
     {| k_original_name := "刘夫人";
        k_correct_aliases :=
          ["刘玉娘"; "刘后"; "刘皇后"; "刘氏"; "刘太太"; "刘太夫人"; "刘山人之女"; "刘小姐"; "魏国夫人";
           "王妃刘氏"];
        k_role := "后妃";
        k_birth_year := None;
        k_death_year := Some 926%Z;
        k_death_cause := Some "自焚而死";
        k_loyalty := ["后唐"];
        k_description :=
          "后唐庄宗李存勖的皇后刘氏，以贪财著称。" |});
    ("person_zhu_youzhen",
     {| k_original_name := "朱友贞";
        k_correct_aliases :=
          ["后梁末帝"; "末帝"; "梁末帝"; "均王"; "梁主"; "朱瑱"; "朱锽"; "大梁皇帝"];
        k_role := "皇帝";
        k_birth_year := Some 888%Z;
        k_death_year := Some 923%Z;
        k_death_cause := Some "自杀";
        k_loyalty := ["后梁"];
        k_description :=
          "后梁末代皇帝，朱温之子。" |});
    ("person_qian_liu",
     {| k_original_name := "钱镠";
        k_correct_aliases :=
          ["吴越王"; "吴越王钱镠"; "武肃王"; "吴越武肃王"; "武肃"; "婆留"; "钱公"; "钱具美"; "淮海王"; "越王"];
        k_role := "皇帝";
        k_birth_year := Some 852%Z;
        k_death_year := Some 932%Z;
        k_death_cause := Some "病逝";
        k_loyalty := ["吴越"];
        k_description :=
          "吴越国开国之君。" |});
    ("person_gao_jichang",
     {| k_original_name := "高季昌";
        k_correct_aliases :=
          ["高季兴"; "南平王"; "荆南节度使"; "朱季昌"; "文献王"; "渤海王"];
        k_role := "藩镇节度使";
        k_birth_year := Some 858%Z;
        k_death_year := Some 929%Z;
        k_death_cause := Some "病逝";
        k_loyalty := ["南平"; "荆南"];
        k_description :=
          "南平（荆南）开国者。" |});
    ("person_gao_xingzhou",
     {| k_original_name := "高行周";
        k_correct_aliases :=
          [];
        k_role := "将领";
        k_birth_year := None;
        k_death_year := None;
        k_death_cause := None;
        k_loyalty := ["后唐"; "后晋"; "后汉"; "后周"];
        k_description :=
          "五代时期著名将领。" |});
    ("person_ding_cong_shi",
     {| k_original_name := "丁从实";
        k_correct_aliases :=
          ["董从实"];
        k_role := "刺史";
        k_birth_year := None;
        k_death_year := None;
        k_death_cause := None;
        k_loyalty := [];
        k_description :=
          "" |});
    ("person_xu_xianfei",
     {| k_original_name := "徐贤妃";
        k_correct_aliases :=
          ["贤妃"; "徐氏姐妹"; "诩圣皇太妃"];
        k_role := "后妃";
        k_birth_year := None;
        k_death_year := Some 926%Z;
        k_death_cause := None;
        k_loyalty := ["后唐"];
        k_description :=
          "后唐庄宗妃嫔。" |});
    ("person_liu_hanhong",
     {| k_original_name := "刘汉宏";
        k_correct_aliases :=
          [];
        k_role := "叛将";
        k_birth_year := None;
        k_death_year := None;
        k_death_cause := None;
        k_loyalty := [];
        k_description :=
          "" |});
    ("person_ling_ren",
     {| k_original_name := "敬新磨";
        k_correct_aliases :=
          ["敬新磨"];
        k_role := "艺人";
        k_birth_year := None;
        k_death_year := None;
        k_death_cause := None;
        k_loyalty := ["后唐"];
        k_description :=
          "后唐庄宗宠信的伶人。" |});
    ("person_yelv_jing",
     {| k_original_name := "耶律璟";
        k_correct_aliases :=
          ["辽穆宗"; "穆宗"; "睡王"; "孝和皇帝"];
        k_role := "皇帝";
        k_birth_year := Some 931%Z;
        k_death_year := Some 969%Z;
        k_death_cause := Some "被侍从杀害";
        k_loyalty := ["辽"];
        k_description :=
          "辽穆宗，以嗜睡好杀著称。" |});
    ("person_yelv_be",
     {| k_original_name := "耶律倍";
        k_correct_aliases :=
          ["东丹王"; "人皇王"; "突欲"; "耶律突欲"; "东丹王突欲"; "李赞华"; "让国皇帝"; "东丹赞华"; "东丹慕华";
           "老大耶律倍"; "倍"];
        k_role := "皇太子";
        k_birth_year := Some 899%Z;
        k_death_year := Some 937%Z;
        k_death_cause := Some "被杀";
        k_loyalty := ["契丹"; "辽"; "后唐"];
        k_description :=
          "耶律阿保机长子，本为皇太子，让位于弟耶律德光后出逃后唐。" |});
    ("person_wang_zongyi",
     {| k_original_name := "王宗懿";
        k_correct_aliases :=
          ["王元膺"; "太子"];
        k_role := "皇子";
        k_birth_year := None;
        k_death_year := None;
        k_death_cause := None;
        k_loyalty := ["前蜀"];
        k_description :=
          "前蜀高祖王建太子。" |})
  ].

(** The [SET] of the repair on one node: name, aliases, role, description
    and loyalty are written, a year or the cause of death only when the
    table has one. *)
Definition fix_known (correct_data : KnownPerson) (n : Person.t) : Person.t :=
  {| Person.uid := Person.uid n;
     Person.original_name := k_original_name correct_data;
     Person.aliases :=
       sorted (elements (list_to_set (k_correct_aliases correct_data) : gset string));
     Person.role := k_role correct_data;
     Person.loyalty := k_loyalty correct_data;
     Person.birth_year :=
       match k_birth_year correct_data with
       | Some y => Some y
       | None => Person.birth_year n
       end;
     Person.death_year :=
       match k_death_year correct_data with
       | Some y => Some y
       | None => Person.death_year n
       end;
     Person.death_cause :=
       match k_death_cause correct_data with
       | Some c => Some c
       | None => Person.death_cause n
       end;
     Person.description := k_description correct_data |}.

(** The node needs no repair: it has no alias outside the correct ones and
    the original name, and it has the original name of the table. *)
Definition needs_no_fix (correct_data : KnownPerson) (current : Person.t) : bool :=
  let current_aliases : gset string := list_to_set (Person.aliases current) in
  let correct_aliases : gset string := list_to_set (k_correct_aliases correct_data) in
  let wrong_aliases :=
    (current_aliases ∖ correct_aliases) ∖ {[ k_original_name correct_data ]} in
  bool_decide (wrong_aliases = ∅)
  && String.eqb (Person.original_name current) (k_original_name correct_data).

(** One turn of the loop of [cleanup_polluted_nodes]. *)
Definition cleanup_known (g : Graph) (entry : string * KnownPerson) : Graph :=
  let '(uid, correct_data) := entry in
  match filter (λ p, Person.uid p = uid) (g_persons g) with
  | [] => g
  | current :: _ =>
      if needs_no_fix correct_data current then g
      else
        with_persons
          (map (λ n, if String.eqb (Person.uid n) uid then fix_known correct_data n else n)
               (g_persons g)) g
  end.

(** [cleanup_duplicate_relations] runs the two statements of step 3 of the
    event repair: self-loops are deleted, then all but the first of the
    edges that share source, target and type. *)
Definition cleanup_duplicate_relations (g : Graph) : Graph := clean_duplicates g.

Definition cleanup_polluted_nodes_with (known : list (string * KnownPerson))
    (g : Graph) : Graph :=
  cleanup_duplicate_relations (foldl cleanup_known g known).

Definition cleanup_polluted_nodes (g : Graph) : Graph :=
  cleanup_polluted_nodes_with KNOWN_PERSONS g.

(** What the loop does to one node, given the whole table. *)
Definition node_fix (known : list (string * KnownPerson)) (n : Person.t) : Person.t :=
  match dict_get (Person.uid n) known with
  | Some correct_data =>
      if needs_no_fix correct_data n then n else fix_known correct_data n
  | None => n
  end.

(** A store in which the node of Li Keyong has absorbed the names of his
    son and of his adopted son. *)
Definition li_keyong_polluted : Person.t :=
  Person.mk "person_li_keyong" "李克用" ["晋王"; "李存勖"; "李嗣源"; "独眼龙"]
            "藩镇节度使" ["晋"] None (Some 908%Z) None "沙陀人".

Definition polluted_store : Graph :=
  with_persons [li_keyong_polluted; li_siyuan] empty_graph.

(** ** config/llm_client.py *)

(** [s[:n]]: the first [n] code points of [s]. *)
Fixpoint py_take (n : nat) (s : string) : string :=
  match s with
  | EmptyString => EmptyString
  | String c r =>
      if is_continuation c then String c (py_take n r)
      else match n with
           | 0 => EmptyString
           | S n' => String c (py_take n' r)
           end
  end.

(** What [requests.post] does at one attempt: it answers with a status
    code, a body text and, when the body parses as a completion, its
    content; or it raises [Timeout] or [ConnectionError]. *)
Inductive Reply :=
  | Http (status_code : Z) (text : string) (content : option string)
  | Timeout
  | ConnectionError.

(** How [chat] ends when it does not return: the exceptions that leave
    it. *)
Inductive ChatError :=
  | ApiError (status_code : Z) (error_detail : string)
  | TimedOut
  | ConnectionFailed
  | BodyError
  | Exhausted.

(** The result of [chat] with the requests it sent and the seconds it
    slept between them. *)
Record ChatResult := {
  chat_outcome : ChatError + string;
  chat_requests : nat;
  chat_sleeps : list nat
}.

Section Chat.
(** The reply to the [attempt]-th request. *)
Variable post : nat → Reply.
(** What is done to the content before it is returned: nothing in
    [VenusLLM.chat], the removal of the think tags in [DeepSeekLLM.chat]. *)
Variable finish : string → string.
Variable retry : nat.

(** The loop [for attempt in range(retry)] from [attempt] on, with
    [remaining] turns to go. *)
Fixpoint chat_from (attempt remaining : nat) : ChatResult :=
  match remaining with
  | 0 => {| chat_outcome := inl Exhausted; chat_requests := 0; chat_sleeps := [] |}
  | S rest =>
      let next := chat_from (S attempt) rest in
      let retry_or_raise (error : ChatError) :=
        if (attempt <? retry - 1)%nat
        then {| chat_outcome := chat_outcome next;
                chat_requests := S (chat_requests next);
                chat_sleeps := (2 ^ attempt)%nat :: chat_sleeps next |}
        else {| chat_outcome := inl error; chat_requests := 1; chat_sleeps := [] |} in
      match post attempt with
      | Http status_code text content =>
          if negb (status_code =? 200)%Z
          then retry_or_raise (ApiError status_code (py_take 500 text))
          else match content with
               | Some c =>
                   {| chat_outcome := inr (finish c); chat_requests := 1;
                      chat_sleeps := [] |}
               | None =>
                   {| chat_outcome := inl BodyError; chat_requests := 1;
                      chat_sleeps := [] |}
               end
      | Timeout => retry_or_raise TimedOut
      | ConnectionError => retry_or_raise ConnectionFailed
      end
  end.

Definition chat : ChatResult := chat_from 0 retry.
End Chat.

(** A reply after which [chat] tries again, when it has an attempt left. *)
Definition retryable (r : Reply) : Prop :=
  match r with
  | Http status_code _ _ => status_code ≠ 200%Z
  | Timeout | ConnectionError => True
  end.

(** ** ingestion/extractor.py: the list of known persons *)

(** The extractor object: the cached rows of [get_all_person_names] (name
    and aliases) and the count of calls served from the cache. *)
Record KnowledgeExtractor := {
  _known_persons_cache : option (list (string * list string));
  _cache_refresh_counter : nat
}.

Definition new_extractor : KnowledgeExtractor :=
  {| _known_persons_cache := None; _cache_refresh_counter := 0 |}.

Definition newline : string := String "010"%char EmptyString.

Definition person_line (p : string * list string) : string :=
  match p.2 with
  | [] => "- " ++ p.1
  | aliases => "- " ++ p.1 ++ "（又名：" ++ String.concat "、" aliases ++ "）"
  end.

(** [_build_existing_context] with the answer of the store to
    [get_all_person_names] ([None]: the query raises).  The result is the
    context, whether the store was asked, and the extractor. *)
Definition _build_existing_context (force_refresh : bool)
    (get_all_person_names : option (list (string * list string)))
    (self : KnowledgeExtractor) : string * bool * KnowledgeExtractor :=
  let cached :=
    negb force_refresh
    && bool_decide (is_Some (_known_persons_cache self))
    && (_cache_refresh_counter self <? 20)%nat in
  let self :=
    if cached
    then {| _known_persons_cache := _known_persons_cache self;
            _cache_refresh_counter := S (_cache_refresh_counter self) |}
    else match get_all_person_names with
         | Some rows => {| _known_persons_cache := Some rows;
                           _cache_refresh_counter := 0 |}
         | None => {| _known_persons_cache := Some [];
                      _cache_refresh_counter := _cache_refresh_counter self |}
         end in
  let context :=
    match _known_persons_cache self with
    | None | Some [] => ""
    | Some rows =>
        "【已入库人物名单（请将文本中的人物与以下已有人物对齐，避免重复创建。"
        ++ "如果文本中出现的名字是某个已有人物的别名，请使用该已有人物的 original_name）】"
        ++ newline
        ++ String.concat newline (person_line <$> take 200 rows)
    end in
  (context, negb cached, self).

(** The contexts of [n] calls in a row without [force_refresh], the
    [i]-th of which finds the store answering [get_all_person_names i];
    each with the mark of the calls that asked the store. *)
Fixpoint contexts (get_all_person_names : nat → option (list (string * list string)))
    (i n : nat) (self : KnowledgeExtractor) : list (string * bool) :=
  match n with
  | 0 => []
  | S n' =>
      let '(context, asked, self) :=
        _build_existing_context false (get_all_person_names i) self in
      (context, asked) :: contexts get_all_person_names (S i) n' self
  end.

(** ** ingestion/text_processor.py: the cutting of a chapter into units *)

(** [chunk_text] handles its text character by character: in this part a
    [str] is the list of its code points, a [list N]. *)

(** The sentence delimiters of the pattern [([。！？；\n])]. *)
Definition is_delimiter (c : N) : bool :=
  bool_decide (c ∈ [12290; 65281; 65311; 65307; 10]%N).

(** [re.split] with that pattern: the pieces between the delimiters, each
    followed by the delimiter that ends it. *)
Fixpoint re_split (current : list N) (text : list N) : list (list N) :=
  match text with
  | [] => [current]
  | c :: rest =>
      if is_delimiter c then current :: [c] :: re_split [] rest
      else re_split (current ++ [c])%list rest
  end.

Section ChunkText.
(** [c.isspace()], from Python's Unicode tables. *)
Variable py_isspace : N → bool.

Fixpoint lstrip (s : list N) : list N :=
  match s with
  | [] => []
  | c :: rest => if py_isspace c then lstrip rest else s
  end.

Definition strip (s : list N) : list N := reverse (lstrip (reverse (lstrip s))).

Definition nonempty (s : list N) : bool := negb (bool_decide (s = [])).

(** The pieces joined with their delimiters and stripped, the blank ones
    left out. *)
Fixpoint merge_pairs (sentences : list (list N)) : list (list N) :=
  match sentences with
  | [] => []
  | [last] => if nonempty (strip last) then [strip last] else []
  | piece :: delimiter :: rest =>
      let merged := (piece ++ delimiter)%list in
      if nonempty (strip merged) then strip merged :: merge_pairs rest
      else merge_pairs rest
  end.

Definition merged_sentences (text : list N) : list (list N) := merge_pairs (re_split [] text).

(** One turn of the loop over the sentences; the state is [chunks] and
    [current_chunk]. *)
Definition chunk_step (chunk_size overlap : Z) (st : list (list N) * list N) (sentence : list N)
    : list (list N) * list N :=
  let '(chunks, current_chunk) := st in
  if (Z.of_nat (length current_chunk) + Z.of_nat (length sentence) <=? chunk_size)%Z
  then (chunks, (current_chunk ++ sentence)%list)
  else
    let chunks :=
      if nonempty current_chunk then (chunks ++ [current_chunk])%list else chunks in
    if (0 <? overlap)%Z && nonempty current_chunk
    then (chunks, (py_slice_from (- overlap) current_chunk ++ sentence)%list)
    else (chunks, sentence).

Definition chunk_sentences (chunk_size overlap : Z) (sentences : list (list N)) : list (list N) :=
  let '(chunks, current_chunk) :=
    foldl (chunk_step chunk_size overlap) ([], []) sentences in
  if nonempty current_chunk then (chunks ++ [current_chunk])%list else chunks.

Definition chunk_text (text : list N) (chunk_size overlap : Z) : list (list N) :=
  chunk_sentences chunk_size overlap (merged_sentences text).
End ChunkText.

(** Each unit but the first starts with the end of the unit before it. *)
Definition overlapping (overlap : Z) (chunks : list (list N)) : Prop :=
  ∀ i c1 c2, chunks !! i = Some c1 → chunks !! S i = Some c2 →
             py_slice_from (- overlap) c1 `prefix_of` c2.

(** A text of three sentences, "ab。 cd。ef", and the blank as the only
    space character. *)
Definition three_sentences : list N :=
  [97; 98; 12290; 32; 99; 100; 12290; 101; 102]%N.

Definition blank_only (c : N) : bool := (c =? 32)%N.

(* ===================================================================== *)
(** * Properties *)
(* ===================================================================== *)

Open Scope list_scope.

(** ** The embedding on small inputs *)

Example py_len_counts_characters :
  py_len "晋王" = 2%nat ∧ py_len "倍" = 1%nat ∧ py_len "Li Keyong" = 9%nat.
Proof. repeat split. Qed.

Example py_in_examples :
  py_in "追封" "战后追封梁太祖旧部" = true ∧ py_in "葬" "晋军围攻镇州" = false.
Proof. split; vm_compute; reflexivity. Qed.

Example sorted_by_code_point :
  sorted ["朱晃"; "b"; "朱全忠"; "a"] = ["a"; "b"; "朱全忠"; "朱晃"].
Proof. vm_compute. reflexivity. Qed.

Example dict_fromkeys_keeps_first :
  dict_fromkeys ["后梁"; "唐"; "后梁"; "晋"; "唐"] = ["后梁"; "唐"; "晋"].
Proof. vm_compute. reflexivity. Qed.

Example filter_drops_titles_and_single_characters :
  _filter_ambiguous_names {[ "朱温"; "晋王"; "倍"; "" ]} = {[ "朱温" ]}.
Proof. apply (bool_decide_unpack _). vm_compute. exact I. Qed.

Example slices_like_python :
  py_slice_from 1 [1; 2; 3] = [2; 3] ∧ py_slice_to 2 [1; 2; 3] = [1; 2]
  ∧ py_slice_to (-1) [1; 2; 3] = [1; 2] ∧ py_slice_to (-5) [1; 2; 3] = [].
Proof. repeat split. Qed.

Example sanitize_rel_type_examples :
  sanitize_rel_type id id "ADOPTED SON" = "ADOPTED_SON"
  ∧ sanitize_rel_type id id "MARRIED-INTO" = "MARRIED_INTO"
  ∧ sanitize_rel_type id id "" = "RELATED_TO".
Proof. repeat split. Qed.

(** The scenario of the specification: "Zhu Wen", then "Zhu Wen" with two
    more names.  One node, the uid of the first write, both names as
    aliases, the longer description, the scalars filled in. *)
Example zhu_wen_scenario :
  merge_person zhu_wen_later (merge_person zhu_wen_first empty_graph).2
  = ("person_zhuwen",
     with_persons
       [ Person.mk "person_zhuwen" "朱温" ["朱全忠"; "朱晃"] "皇帝" ["后梁"]
                   (Some 852%Z) (Some 912%Z) (Some "被杀")
                   "后梁开国皇帝，原为黄巢部将" ]
       empty_graph).
Proof. vm_compute. reflexivity. Qed.

(** ** Lists, sets and queries *)

Lemma elem_of_sorted (x : string) (l : list string) : x ∈ sorted l ↔ x ∈ l.
Proof. unfold sorted. by rewrite merge_sort_Permutation. Qed.

Lemma list_to_set_sorted (X : gset string) :
  list_to_set (sorted (elements X)) = X.
Proof.
  apply set_eq. intros x.
  rewrite elem_of_list_to_set, elem_of_sorted. apply elem_of_elements.
Qed.

Section Queries.
Context {A : Type} (P : A → Prop) `{!∀ x, Decision (P x)}.

Lemma filter_none (l : list A) : (∀ q, q ∈ l → ¬ P q) → filter P l = [].
Proof.
  induction l as [|a l IH]; intros Hl; [done|].
  rewrite filter_cons_False by (apply Hl; left).
  apply IH. intros q Hq. apply Hl. by right.
Qed.

(** The first row of a query is the first node of the store that
    satisfies its condition. *)
Lemma filter_first (l1 l2 : list A) (p : A) :
  (∀ q, q ∈ l1 → ¬ P q) → P p → filter P (l1 ++ p :: l2) = p :: filter P l2.
Proof.
  intros Hl1 Hp. rewrite filter_app, (filter_none l1 Hl1).
  by rewrite filter_cons_True.
Qed.

(** A query has a row as soon as one node satisfies its condition. *)
Lemma filter_some (l : list A) (p : A) :
  p ∈ l → P p → ∃ q rest, filter P l = q :: rest ∧ q ∈ l ∧ P q.
Proof.
  intros Hin Hp.
  assert (Hf : p ∈ filter P l) by (apply list_elem_of_filter; done).
  destruct (filter P l) as [|q rest] eqn:E; [by apply elem_of_nil in Hf|].
  exists q, rest. split; [done|].
  assert (Hq : q ∈ filter P l) by (rewrite E; left).
  apply list_elem_of_filter in Hq. destruct Hq. done.
Qed.

(** The first node of the store that satisfies the condition of a query. *)
Lemma filter_first_split (l : list A) (p : A) :
  p ∈ l → P p →
  ∃ l1 q l2, l = l1 ++ q :: l2 ∧ P q ∧ ∀ r, r ∈ l1 → ¬ P r.
Proof.
  induction l as [|a l IH]; [by intros ?%elem_of_nil|].
  intros Hin Hp. destruct (decide (P a)) as [Ha|Ha].
  - exists [], a, l. split; [done|]. split; [done|]. by intros r ?%elem_of_nil.
  - apply elem_of_cons in Hin as [->|Hin]; [done|].
    destruct (IH Hin Hp) as (l1 & q & l2 & -> & Hq & Hl1).
    exists (a :: l1), q, l2. split; [done|]. split; [done|].
    intros r [->|Hr]%elem_of_cons; [done|by apply Hl1].
Qed.

Lemma filter_nil_iff (l : list A) : filter P l = [] ↔ ∀ q, q ∈ l → ¬ P q.
Proof.
  split; [|apply filter_none].
  intros Hf q Hq Hp.
  assert (Hin : q ∈ filter P l) by (by apply list_elem_of_filter).
  rewrite Hf in Hin. by apply elem_of_nil in Hin.
Qed.
End Queries.

Lemma empty_not_title : "" ∉ AMBIGUOUS_TITLES.
Proof. apply (bool_decide_unpack _). by vm_compute. Qed.

Lemma py_len_empty (s : string) : py_len s = 1 → s ≠ "".
Proof. by intros H ->. Qed.

(** A blacklisted or one-character name is not specific. *)
Lemma ambiguous_not_specific (name : string) :
  name ∈ AMBIGUOUS_TITLES ∨ py_len name = 1 → ¬ is_specific name.
Proof. intros [H|H] (_ & Ht & Hl); [by apply Ht | by apply Hl]. Qed.

Lemma ambiguous_nonempty (name : string) :
  name ∈ AMBIGUOUS_TITLES ∨ py_len name = 1 → name ≠ "".
Proof.
  intros [H|H].
  - intros ->. by apply empty_not_title.
  - by apply py_len_empty.
Qed.

(** The lookup of the identity resolver answers nothing when no name
    survives the filter. *)
Lemma find_person_filtered_empty (names : gset string) (g : Graph) :
  _filter_ambiguous_names names = ∅ →
  find_person_by_any_name names true g = None.
Proof.
  intros H. unfold find_person_by_any_name.
  case_bool_decide; [done|]. cbn. rewrite H. by rewrite bool_decide_eq_true_2.
Qed.

(** The lookup only returns stored nodes. *)
Lemma find_person_stored (names : gset string) (b : bool) (g : Graph) (r : Person.t) :
  find_person_by_any_name names b g = Some r → r ∈ g_persons g.
Proof.
  unfold find_person_by_any_name.
  case_bool_decide; [done|]. case_bool_decide; [done|].
  set (s := if b then _ else _).
  destruct (query_exact s g) as [|r' l] eqn:E.
  - intros Hh. apply head_Some_elem_of in Hh.
    unfold query_alias in Hh. apply list_elem_of_filter in Hh. tauto.
  - intros [= <-].
    assert (Hr : r' ∈ query_exact s g) by (rewrite E; left).
    unfold query_exact in Hr. apply list_elem_of_filter in Hr. tauto.
Qed.

(** ** C9: relation and participant lookups do not filter names *)

(** C9.  The blacklist and the one-character exclusion belong to the
    identity resolver alone.  For every name that is a blacklisted title or
    has a single character: the identity lookup on that name answers nothing,
    whatever is stored; [resolve_person_uid] fails exactly when no stored
    person carries the name, and [resolve_node_uid] exactly when no stored
    node of any kind does; when a stored person [p] carries the name, both
    answer the uid of the first stored person that carries it, which is [p]
    itself whenever no earlier person carries it. *)
Theorem resolve_ignores_blacklist (g : Graph) (name : string) :
  name ∈ AMBIGUOUS_TITLES ∨ py_len name = 1 →
  find_person_by_any_name {[ name ]} true g = None
  ∧ (resolve_person_uid name g = None ↔ ∀ q, q ∈ g_persons g → ¬ carries_name name q)
  ∧ (resolve_node_uid name g = None ↔ ¬ answers_to name g)
  ∧ (∀ p, p ∈ g_persons g → carries_name name p →
       ∃ l1 q l2,
         g_persons g = l1 ++ q :: l2
         ∧ carries_name name q
         ∧ (∀ r, r ∈ l1 → ¬ carries_name name r)
         ∧ resolve_person_uid name g = Some (Person.uid q)
         ∧ resolve_node_uid name g = Some (Person.uid q))
  ∧ (∀ p l1 l2, g_persons g = l1 ++ p :: l2 → carries_name name p →
       (∀ q, q ∈ l1 → ¬ carries_name name q) →
       resolve_person_uid name g = Some (Person.uid p)
       ∧ resolve_node_uid name g = Some (Person.uid p)).
Proof.
  intros Hamb.
  pose proof (ambiguous_nonempty name Hamb) as Hne.
  apply String.eqb_neq in Hne.
  assert (Hfirst : ∀ p l1 l2, g_persons g = l1 ++ p :: l2 → carries_name name p →
            (∀ q, q ∈ l1 → ¬ carries_name name q) →
            resolve_person_uid name g = Some (Person.uid p)
            ∧ resolve_node_uid name g = Some (Person.uid p)).
  { intros p l1 l2 Hg Hcar Hl1.
    unfold resolve_person_uid, resolve_node_uid, query_person_by_name.
    rewrite Hne, Hg, (filter_first (carries_name name) l1 l2 p Hl1 Hcar). done. }
  split; [|split; [|split; [|split]]].
  - apply find_person_filtered_empty. unfold _filter_ambiguous_names.
    apply (filter_singleton_False_L (C:=gset string) is_specific).
    by apply ambiguous_not_specific.
  - unfold resolve_person_uid, query_person_by_name. rewrite Hne.
    rewrite <- (filter_nil_iff (carries_name name)).
    destruct (filter (carries_name name) (g_persons g)); cbn; split; done.
  - unfold resolve_node_uid, query_person_by_name, answers_to. rewrite Hne.
    destruct (filter (carries_name name) (g_persons g)) as [|r1 ?] eqn:E1.
    2:{ split; [done|]. intros Hnot. exfalso. apply Hnot. left.
        assert (Hr : r1 ∈ filter (carries_name name) (g_persons g)) by (rewrite E1; left).
        apply list_elem_of_filter in Hr as [? ?]. by exists r1. }
    destruct (filter (λ d, Dynasty.name d = name) (g_dynasties g)) as [|r2 ?] eqn:E2.
    2:{ split; [done|]. intros Hnot. exfalso. apply Hnot. right. left.
        assert (Hr : r2 ∈ filter (λ d, Dynasty.name d = name) (g_dynasties g))
          by (rewrite E2; left).
        apply list_elem_of_filter in Hr as [? ?]. by exists r2. }
    destruct (filter (λ e, Event.name e = name) (g_events g)) as [|r3 ?] eqn:E3.
    2:{ split; [done|]. intros Hnot. exfalso. apply Hnot. right. right. left.
        assert (Hr : r3 ∈ filter (λ e, Event.name e = name) (g_events g))
          by (rewrite E3; left).
        apply list_elem_of_filter in Hr as [? ?]. by exists r3. }
    destruct (filter (λ pl, Place.name pl = name) (g_places g)) as [|r4 ?] eqn:E4.
    2:{ split; [done|]. intros Hnot. exfalso. apply Hnot. right. right. right.
        assert (Hr : r4 ∈ filter (λ pl, Place.name pl = name) (g_places g))
          by (rewrite E4; left).
        apply list_elem_of_filter in Hr as [? ?]. by exists r4. }
    split; [|done]. intros _.
    pose proof (proj1 (filter_nil_iff _ _) E1) as N1.
    pose proof (proj1 (filter_nil_iff _ _) E2) as N2.
    pose proof (proj1 (filter_nil_iff _ _) E3) as N3.
    pose proof (proj1 (filter_nil_iff _ _) E4) as N4.
    intros [(p & Hp & Hc)|[(d & Hd & Hc)|[(e & He & Hc)|(pl & Hpl & Hc)]]].
    + by apply (N1 p).
    + by apply (N2 d).
    + by apply (N3 e).
    + by apply (N4 pl).
  - intros p Hin Hcar.
    destruct (filter_first_split (carries_name name) (g_persons g) p Hin Hcar)
      as (l1 & q & l2 & Hg & Hq & Hl1).
    exists l1, q, l2. split; [done|]. split; [done|]. split; [done|].
    by apply (Hfirst q l1 l2).
  - exact Hfirst.
Qed.

Lemma resolve_ignores_blacklist_witness :
  find_person_by_any_name {[ "晋王" ]} true (with_persons [li_cunxu] empty_graph) = None
  ∧ resolve_person_uid "晋王" (with_persons [li_cunxu] empty_graph)
    = Some "person_li_cunxu"
  ∧ resolve_node_uid "晋王" (with_persons [li_cunxu] empty_graph)
    = Some "person_li_cunxu".
Proof.
  assert (Htitle : "晋王" ∈ AMBIGUOUS_TITLES ∨ py_len "晋王" = 1).
  { left. apply (bool_decide_unpack _). vm_compute. exact I. }
  assert (Hcar : carries_name "晋王" li_cunxu).
  { right. simpl. left. }
  destruct (resolve_ignores_blacklist (with_persons [li_cunxu] empty_graph) _ Htitle)
    as (Hfind & _ & _ & _ & Hfirst).
  split; [exact Hfind|].
  apply (Hfirst li_cunxu [] []); [reflexivity|exact Hcar|].
  intros q Hq%elem_of_nil. destruct Hq.
Defined.

(** C9, as stated, fails: a blacklisted title stored as an alias of two
    persons resolves to the first of them, not to the other node that
    carries it. *)
Lemma shared_title_resolves_to_first_carrier :
  "晋王" ∈ AMBIGUOUS_TITLES
  ∧ li_cunxu ∈ g_persons two_princes_of_jin
  ∧ carries_name "晋王" li_cunxu
  ∧ resolve_person_uid "晋王" two_princes_of_jin = Some (Person.uid li_keyong)
  ∧ resolve_node_uid "晋王" two_princes_of_jin = Some (Person.uid li_keyong)
  ∧ Person.uid li_keyong ≠ Person.uid li_cunxu.
Proof.
  split; [apply (bool_decide_unpack _); vm_compute; exact I|].
  split; [apply (bool_decide_unpack _); vm_compute; exact I|].
  split; [apply (bool_decide_unpack _); vm_compute; exact I|].
  split; [vm_compute; reflexivity|].
  split; [vm_compute; reflexivity|].
  discriminate.
Qed.

(** ** Edges written by [MERGE] *)

Section MergeEdges.
Variable set : Edge → Edge.
Variable Q : Edge → Prop.
Hypothesis set_src : ∀ e, e_src (set e) = e_src e.
Hypothesis set_dst : ∀ e, e_dst (set e) = e_dst e.
Hypothesis set_type : ∀ e, e_type (set e) = e_type e.
Hypothesis set_Q : ∀ e, Q (set e).

Lemma set_is_edge (a b : NodeRef) (ty : string) (e : Edge) :
  is_edge a b ty (set e) ↔ is_edge a b ty e.
Proof. unfold is_edge. by rewrite set_src, set_dst, set_type. Qed.

(** The edge a [MERGE] is about exists afterwards and carries what the
    [SET] wrote. *)
Lemma merge_edge_adds (ty : string) (ab : NodeRef * NodeRef) (l : list Edge) :
  ∃ e, e ∈ merge_edge set ty ab l ∧ is_edge ab.1 ab.2 ty e ∧ Q e.
Proof.
  unfold merge_edge. case_bool_decide as Hex.
  - apply Exists_exists in Hex as (e & He & Hab).
    exists (set e). split; [|split].
    + apply list_elem_of_fmap. exists e. split; [|done].
      by rewrite bool_decide_eq_true_2.
    + by apply set_is_edge.
    + apply set_Q.
  - exists (set (Build_Edge ab.1 ab.2 ty None None None)). split; [|split].
    + apply elem_of_app. right. left.
    + by apply set_is_edge.
    + apply set_Q.
Qed.

(** An edge that carries it keeps carrying it through later merges. *)
Lemma merge_edge_keeps (ty ty' : string) (a b : NodeRef) (ab : NodeRef * NodeRef)
    (l : list Edge) :
  (∃ e, e ∈ l ∧ is_edge a b ty e ∧ Q e) →
  ∃ e, e ∈ merge_edge set ty' ab l ∧ is_edge a b ty e ∧ Q e.
Proof.
  intros (e & He & Hab & HQ). unfold merge_edge. case_bool_decide.
  - destruct (decide (is_edge ab.1 ab.2 ty' e)) as [Hd|Hd].
    + exists (set e). split; [|split].
      * apply list_elem_of_fmap. exists e. split; [|done].
        by rewrite bool_decide_eq_true_2.
      * by apply set_is_edge.
      * apply set_Q.
    + exists e. split; [|done].
      apply list_elem_of_fmap. exists e. split; [|done].
      by rewrite bool_decide_eq_false_2.
  - exists e. split; [|done]. apply elem_of_app. by left.
Qed.

Lemma foldl_merge_edge_keeps (ty ty' : string) (a b : NodeRef)
    (pairs : list (NodeRef * NodeRef)) (l : list Edge) :
  (∃ e, e ∈ l ∧ is_edge a b ty e ∧ Q e) →
  ∃ e, e ∈ foldl (λ acc ab, merge_edge set ty' ab acc) l pairs
       ∧ is_edge a b ty e ∧ Q e.
Proof.
  revert l. induction pairs as [|ab pairs IH]; intros l H; [done|].
  cbn. apply IH. by apply merge_edge_keeps.
Qed.

(** After [MATCH a, MATCH b, MERGE (a)-[r:ty]->(b) SET ...] every bound pair
    is joined by an edge that carries what was set. *)
Lemma merge_edges_joined (ty : string) (srcs dsts : list NodeRef) (l : list Edge)
    (a b : NodeRef) :
  a ∈ srcs → b ∈ dsts →
  ∃ e, e ∈ merge_edges set ty srcs dsts l ∧ is_edge a b ty e ∧ Q e.
Proof.
  intros Ha Hb. unfold merge_edges.
  assert (Hin : (a, b) ∈ (a ← srcs; b ← dsts; [(a, b)])).
  { apply list_elem_of_bind. exists a. split; [|done].
    apply list_elem_of_bind. exists b. split; [left|done]. }
  revert l. induction (a ← srcs; b ← dsts; [(a, b)]) as [|ab pairs IH]; intros l.
  - by apply elem_of_nil in Hin.
  - cbn. apply elem_of_cons in Hin as [<-|Hin].
    + apply foldl_merge_edge_keeps. apply (merge_edge_adds ty (a, b)).
    + by apply IH.
Qed.
End MergeEdges.


(** With no node bound on one side the [MERGE] writes nothing. *)
Lemma merge_edges_no_target (set : Edge → Edge) (ty : string) (srcs : list NodeRef)
    (l : list Edge) :
  merge_edges set ty srcs [] l = l.
Proof.
  unfold merge_edges.
  assert (Hpairs : (a ← srcs; b ← ([] : list NodeRef); [(a, b)]) = []).
  { induction srcs as [|a srcs IH]; [done|]. by rewrite bind_cons, IH. }
  by rewrite Hpairs.
Qed.

(** ** C5: order of the endpoint lookup, failure of a relation *)

Lemma resolve_node_uid_empty (g : Graph) : resolve_node_uid "" g = None.
Proof. done. Qed.

Section RelationProperties.
Variable py_upper : string → string.
Variable keep_alnum : string → string.

(** C5.  [resolve_node_uid] asks the persons (original name or alias), then
    the polities, then the events, then the places, each by name, and the
    first kind that has a match decides; a relation one of whose endpoints
    resolves to no uid makes [create_relation_by_name] return false and
    leaves the whole store as it was. *)
Theorem relation_endpoint_resolution (relation : Relation.t) (name : string)
    (g : Graph) :
  (name ≠ "" →
     (∀ p, p ∈ g_persons g → carries_name name p →
        ∃ q, q ∈ g_persons g ∧ carries_name name q
             ∧ resolve_node_uid name g = Some (Person.uid q))
     ∧ ((∀ p, p ∈ g_persons g → ¬ carries_name name p) →
        (∀ d, d ∈ g_dynasties g → Dynasty.name d = name →
           ∃ d', d' ∈ g_dynasties g ∧ Dynasty.name d' = name
                 ∧ resolve_node_uid name g = Some (Dynasty.uid d'))
        ∧ ((∀ d, d ∈ g_dynasties g → Dynasty.name d ≠ name) →
           (∀ e, e ∈ g_events g → Event.name e = name →
              ∃ e', e' ∈ g_events g ∧ Event.name e' = name
                    ∧ resolve_node_uid name g = Some (Event.uid e'))
           ∧ ((∀ e, e ∈ g_events g → Event.name e ≠ name) →
              (∀ pl, pl ∈ g_places g → Place.name pl = name →
                 ∃ pl', pl' ∈ g_places g ∧ Place.name pl' = name
                        ∧ resolve_node_uid name g = Some (Place.uid pl'))
              ∧ ((∀ pl, pl ∈ g_places g → Place.name pl ≠ name) →
                 resolve_node_uid name g = None)))))
  ∧ (resolve_node_uid (Relation.source relation) g = None
     ∨ resolve_node_uid (Relation.target relation) g = None →
     create_relation_by_name py_upper keep_alnum relation g = (false, g)).
Proof.
  split.
  - intros Hne%String.eqb_neq. unfold resolve_node_uid, query_person_by_name.
    rewrite Hne. split.
    { intros p Hp Hc.
      destruct (filter_some (carries_name name) _ p Hp Hc) as (q & rest & -> & ? & ?).
      by exists q. }
    intros Hnop. rewrite (filter_none (carries_name name) _ Hnop). split.
    { intros d Hd Hn.
      destruct (filter_some (λ d, Dynasty.name d = name) _ d Hd Hn)
        as (q & rest & -> & ? & ?).
      by exists q. }
    intros Hnod. rewrite (filter_none (λ d, Dynasty.name d = name) _ Hnod). split.
    { intros e He Hn.
      destruct (filter_some (λ e, Event.name e = name) _ e He Hn)
        as (q & rest & -> & ? & ?).
      by exists q. }
    intros Hnoe. rewrite (filter_none (λ e, Event.name e = name) _ Hnoe). split.
    { intros pl Hpl Hn.
      destruct (filter_some (λ pl, Place.name pl = name) _ pl Hpl Hn)
        as (q & rest & -> & ? & ?).
      by exists q. }
    intros Hnopl. by rewrite (filter_none (λ pl, Place.name pl = name) _ Hnopl).
  - unfold create_relation_by_name. intros [-> | ->]; cbn; [done|].
    by destruct (negb _).
Qed.
End RelationProperties.

(** The scenario of the specification: the relation arrives before its
    target was ever resolved. *)
Lemma relation_endpoint_resolution_witness :
  resolve_node_uid "李嗣源" (with_persons [li_keyong] empty_graph) = None
  ∧ create_relation_by_name id id adopted_son (with_persons [li_keyong] empty_graph)
    = (false, with_persons [li_keyong] empty_graph).
Proof.
  assert (Hnone : resolve_node_uid "李嗣源" (with_persons [li_keyong] empty_graph) = None).
  { vm_compute. reflexivity. }
  split; [exact Hnone|].
  apply (relation_endpoint_resolution id id adopted_son "李嗣源").
  right. exact Hnone.
Defined.

(** ** C10: the uid fallback of [link_event_participant] *)

Lemma resolve_person_uid_none (name : string) (g : Graph) :
  (∀ p, p ∈ g_persons g → ¬ carries_name name p) →
  resolve_person_uid name g = None.
Proof.
  intros H. unfold resolve_person_uid, query_person_by_name.
  destruct (String.eqb name ""); [done|].
  by rewrite (filter_none (carries_name name) _ H).
Qed.

Lemma match_label_uid_person (u : string) (g : Graph) (p : Person.t) :
  p ∈ g_persons g → Person.uid p = u → (LPerson, u) ∈ match_label_uid LPerson u g.
Proof.
  intros Hp Hu. cbn. apply list_elem_of_fmap. exists p. split; [by rewrite Hu|].
  by apply list_elem_of_filter.
Qed.

Lemma match_label_uid_event (u : string) (g : Graph) (ev : Event.t) :
  ev ∈ g_events g → Event.uid ev = u → (LEvent, u) ∈ match_label_uid LEvent u g.
Proof.
  intros Hp Hu. cbn. apply list_elem_of_fmap. exists ev. split; [by rewrite Hu|].
  by apply list_elem_of_filter.
Qed.

(** C10.  For a participant string that is neither the original name nor an
    alias of any stored person: when a Person node has that very string as
    its uid, the call leaves the nodes alone and a PARTICIPATED_IN edge with
    the given role joins that person to the event node of the given uid (the
    event the participant is linked to; the [MATCH] on it binds nothing, and
    so nothing is written, when the store has no such event); when no Person
    node has the string as uid either, the call writes nothing. *)
Theorem link_event_participant_uid_fallback (event_uid person_name role : string)
    (g : Graph) :
  (∀ p, p ∈ g_persons g → ¬ carries_name person_name p) →
  ((∃ p, p ∈ g_persons g ∧ Person.uid p = person_name) →
     let g' := link_event_participant event_uid person_name role g in
     g_persons g' = g_persons g ∧ g_dynasties g' = g_dynasties g
     ∧ g_events g' = g_events g ∧ g_places g' = g_places g
     ∧ (∀ ev, ev ∈ g_events g → Event.uid ev = event_uid →
          ∃ e, e ∈ g_edges g'
               ∧ e_src e = (LPerson, person_name) ∧ e_dst e = (LEvent, event_uid)
               ∧ e_type e = PARTICIPATED_IN ∧ e_role e = Some role)
     ∧ ((∀ ev, ev ∈ g_events g → Event.uid ev ≠ event_uid) →
        g_edges g' = g_edges g))
  ∧ ((∀ p, p ∈ g_persons g → Person.uid p ≠ person_name) →
     link_event_participant event_uid person_name role g = g).
Proof.
  intros Hno. pose proof (resolve_person_uid_none _ _ Hno) as Hres.
  unfold link_event_participant. rewrite Hres. cbn [truthy_str]. split.
  - intros (p & Hp & Hu).
    pose proof (match_label_uid_person _ _ _ Hp Hu) as Hm.
    destruct (match_label_uid LPerson person_name g) as [|r rest] eqn:E;
      [by apply elem_of_nil in Hm|].
    cbv zeta. unfold with_edges.
    cbn [g_persons g_dynasties g_events g_places g_edges].
    do 4 (split; [done|]). split.
    2:{ intros Hnoev.
        assert (Ev : match_label_uid LEvent event_uid g = []).
        { cbn. by rewrite (filter_none (λ n, Event.uid n = event_uid) _ Hnoev). }
        rewrite Ev. apply merge_edges_no_target. }
    intros ev Hev Heu. rewrite E.
    destruct (merge_edges_joined (set_role role) (λ e, e_role e = Some role)
                ltac:(done) ltac:(done) ltac:(done) ltac:(done)
                PARTICIPATED_IN (r :: rest) (match_label_uid LEvent event_uid g)
                (g_edges g) (LPerson, person_name) (LEvent, event_uid))
      as (e & He & (Hs & Hd & Ht) & Hr).
    { done. }
    { by eapply match_label_uid_event. }
    by exists e.
  - intros Hnouid.
    assert (E : match_label_uid LPerson person_name g = []).
    { cbn. rewrite (filter_none (λ n, Person.uid n = person_name) _ Hnouid). done. }
    by rewrite E.
Qed.

Lemma link_event_participant_uid_fallback_witness :
  resolve_person_uid "person_li_siyuan" fallback_graph = None
  ∧ ∃ e, e ∈ g_edges (link_event_participant "event_xingjiao" "person_li_siyuan"
                        default_role fallback_graph)
         ∧ e_src e = (LPerson, "person_li_siyuan")
         ∧ e_dst e = (LEvent, "event_xingjiao")
         ∧ e_type e = PARTICIPATED_IN ∧ e_role e = Some default_role.
Proof.
  assert (Hno : ∀ p, p ∈ g_persons fallback_graph →
                     ¬ carries_name "person_li_siyuan" p).
  { apply Forall_forall, (bool_decide_unpack _). vm_compute. exact I. }
  split; [vm_compute; reflexivity|].
  destruct (link_event_participant_uid_fallback "event_xingjiao" "person_li_siyuan"
              default_role fallback_graph Hno) as [Hlink _].
  assert (Huid : ∃ p, p ∈ g_persons fallback_graph ∧ Person.uid p = "person_li_siyuan").
  { exists li_siyuan. split; [left|reflexivity]. }
  destruct (Hlink Huid) as (_ & _ & _ & _ & Hedge & _).
  apply (Hedge xingjiao_mutiny); [left|reflexivity].
Defined.

(** ** Node upserts *)

Section MergeNodeProperties.
Context {A : Type} (get_uid : A → string) (fresh : string → A) (set_props : A → A → A).
Hypothesis set_props_uid : ∀ old props, get_uid (set_props old props) = get_uid old.
Hypothesis fresh_uid : ∀ u, get_uid (fresh u) = u.

Lemma has_uid_false (u : string) (l : list A) :
  has_uid get_uid u l = false ↔ ∀ n, n ∈ l → get_uid n ≠ u.
Proof.
  unfold has_uid. induction l as [|a l IH]; cbn.
  - split; [|done]. intros _ n Hn. by apply elem_of_nil in Hn.
  - rewrite orb_false_iff, IH, String.eqb_neq. split.
    + intros [Ha Hl] n [->|Hn]%elem_of_cons; auto.
    + intros H. split; [apply H; left|]. intros n Hn. apply H. by right.
Qed.

(** A node of another uid is left where it is and as it is. *)
Lemma merge_node_lookup_other (u : string) (props : A) (l : list A) (i : nat) (n : A) :
  l !! i = Some n → get_uid n ≠ u → merge_node get_uid fresh set_props u props l !! i = Some n.
Proof.
  intros Hi Hne. unfold merge_node. destruct (has_uid get_uid u l).
  - rewrite list_lookup_fmap, Hi. cbn.
    apply String.eqb_neq in Hne. by rewrite Hne.
  - by apply lookup_app_l_Some.
Qed.

Lemma merge_node_other (u : string) (props : A) (l : list A) (n : A) :
  n ∈ l → get_uid n ≠ u → n ∈ merge_node get_uid fresh set_props u props l.
Proof.
  intros (i & Hi)%list_elem_of_lookup Hne.
  apply list_elem_of_lookup. exists i. by apply merge_node_lookup_other.
Qed.

(** The node of the given uid exists afterwards and has received the
    properties. *)
Lemma merge_node_target (u : string) (props : A) (l : list A) :
  ∃ old, get_uid old = u ∧ set_props old props ∈ merge_node get_uid fresh set_props u props l.
Proof.
  unfold merge_node. destruct (has_uid get_uid u l) eqn:E.
  - unfold has_uid in E. apply existsb_exists in E as (old & Hold & Hu).
    apply String.eqb_eq in Hu. exists old. split; [done|].
    apply list_elem_of_fmap. exists old. split.
    + apply String.eqb_eq in Hu. by rewrite Hu.
    + by apply list_elem_of_In.
  - exists (fresh u). split; [apply fresh_uid|].
    apply elem_of_app. right. left.
Qed.

(** With no node of that uid the store grows by exactly one node. *)
Lemma merge_node_fresh (u : string) (props : A) (l : list A) :
  (∀ n, n ∈ l → get_uid n ≠ u) →
  merge_node get_uid fresh set_props u props l = l ++ [set_props (fresh u) props].
Proof. intros H%has_uid_false. unfold merge_node. by rewrite H. Qed.

(** Uids stay the same, in the same order. *)
Lemma merge_node_uids (u : string) (props : A) (l : list A) :
  get_uid <$> merge_node get_uid fresh set_props u props l
  = if has_uid get_uid u l then get_uid <$> l else (get_uid <$> l) ++ [u].
Proof.
  unfold merge_node. destruct (has_uid get_uid u l).
  - rewrite <- list_fmap_compose. apply list_fmap_ext. intros i n _. cbn.
    destruct (String.eqb (get_uid n) u); [apply set_props_uid|done].
  - by rewrite fmap_app; cbn; rewrite set_props_uid, fresh_uid.
Qed.

Lemma merge_node_NoDup (u : string) (props : A) (l : list A) :
  NoDup (get_uid <$> l) → NoDup (get_uid <$> merge_node get_uid fresh set_props u props l).
Proof.
  intros Hnd. rewrite merge_node_uids. destruct (has_uid get_uid u l) eqn:E; [done|].
  apply NoDup_app. split; [done|]. split; [|apply NoDup_singleton].
  intros x Hx ->%list_elem_of_singleton.
  apply list_elem_of_fmap in Hx as (n & Hn & Hin).
  by apply (proj1 (has_uid_false u l) E n Hin).
Qed.
End MergeNodeProperties.

Lemma Person_set_props_uid (old props : Person.t) :
  Person.uid (Person.set_props old props) = Person.uid old.
Proof. done. Qed.

Lemma Person_fresh_uid (u : string) : Person.uid (Person.fresh u) = u.
Proof. done. Qed.

(** A node created for a candidate is the candidate. *)
Lemma Person_set_props_fresh (p : Person.t) :
  Person.set_props (Person.fresh (Person.uid p)) p = p.
Proof.
  destruct p as [u n a r l b d c de]. unfold Person.set_props. cbn.
  by destruct b, d, c.
Qed.

Lemma unique_uids_eq (g : Graph) (n m : Person.t) :
  unique_uids g → n ∈ g_persons g → m ∈ g_persons g →
  Person.uid n = Person.uid m → n = m.
Proof.
  intros Hnd (i & Hi)%list_elem_of_lookup (j & Hj)%list_elem_of_lookup Hu.
  assert (i = j).
  { eapply NoDup_lookup; [exact Hnd| |].
    - rewrite list_lookup_fmap, Hi. done.
    - rewrite list_lookup_fmap, Hj. cbn. by rewrite Hu. }
  subst. congruence.
Qed.

Lemma upsert_person_unique_uids (p : Person.t) (g : Graph) :
  unique_uids g → unique_uids (upsert_person p g).
Proof. apply merge_node_NoDup; done. Qed.

Lemma update_person_uids (existing person : Person.t) (X : gset string) (g : Graph) :
  Person.uid <$> g_persons (update_person existing person X g)
  = Person.uid <$> g_persons g.
Proof.
  cbn. rewrite <- list_fmap_compose. apply list_fmap_ext. intros i n _. cbn.
  by destruct (String.eqb _ _).
Qed.

Lemma merge_person_unique_uids (p : Person.t) (g : Graph) :
  unique_uids g → unique_uids (merge_person p g).2.
Proof.
  intros H. unfold merge_person.
  destruct (find_person_by_any_name _ _ _) as [existing|];
    [|by apply upsert_person_unique_uids].
  destruct (_ <? _)%nat; cbn [snd]; [by apply upsert_person_unique_uids|].
  unfold unique_uids. by rewrite update_person_uids.
Qed.

(** ** C1: the pollution guard *)

(** The proposal is the union of the stored aliases and the candidate's
    names without the canonical name and the empty string. *)
Lemma elem_of_proposed_aliases (existing : Person.t) (names : gset string) (x : string) :
  x ∈ proposed_aliases existing names
  ↔ (x ∈ Person.aliases existing ∨ x = Person.original_name existing ∨ x ∈ names)
    ∧ x ≠ Person.original_name existing ∧ x ≠ "".
Proof.
  unfold proposed_aliases.
  rewrite !elem_of_difference, !elem_of_union, elem_of_list_to_set, !elem_of_singleton.
  tauto.
Qed.

Lemma update_person_target (existing person : Person.t) (X : gset string) (g : Graph) :
  existing ∈ g_persons g →
  merged_node existing person X existing ∈ g_persons (update_person existing person X g).
Proof.
  intros H. cbn. apply list_elem_of_fmap. exists existing. split; [|done].
  by rewrite String.eqb_refl.
Qed.

Lemma update_person_elem (existing person : Person.t) (X : gset string) (g : Graph)
    (n' : Person.t) :
  n' ∈ g_persons (update_person existing person X g) →
  ∃ n, n ∈ g_persons g
       ∧ n' = if String.eqb (Person.uid n) (Person.uid existing)
              then merged_node existing person X n else n.
Proof.
  cbn. intros (n & -> & Hn)%list_elem_of_fmap. by exists n.
Qed.

Lemma update_person_other (existing person : Person.t) (X : gset string) (g : Graph)
    (n : Person.t) :
  n ∈ g_persons g → Person.uid n ≠ Person.uid existing →
  n ∈ g_persons (update_person existing person X g).
Proof.
  intros Hn Hne%String.eqb_neq. cbn. apply list_elem_of_fmap. exists n.
  by rewrite Hne.
Qed.

(** What holds of C1.  When [merge_person] finds a matching node, the
    proposed alias set is the union of that node's aliases (and original
    name) with the candidate's unfiltered names, minus the canonical name and
    the empty string.  Above 25 names nothing is merged: the candidate is
    written under its own uid, which is returned, and when no stored person
    has that uid the stored nodes are all left as they were and one new node,
    the candidate, is appended.  Otherwise the matched node's uid is returned, the
    node keeps uid and canonical name, receives loyalty and description of the
    merge, and its stored aliases are exactly the proposal, which contains
    both pre-merge alias sets minus the canonical name and the empty string;
    nodes of another uid are untouched. *)
Theorem pollution_guard_union_or_abort (person existing : Person.t) (g : Graph) :
  find_person_by_any_name (Person.all_names person) true g = Some existing →
  let proposal := proposed_aliases existing (Person.all_names person) in
  let r := merge_person person g in
  (∀ x, x ∈ proposal
        ↔ (x ∈ Person.aliases existing ∨ x = Person.original_name existing
           ∨ x ∈ Person.all_names person)
          ∧ x ≠ Person.original_name existing ∧ x ≠ "")
  ∧ ((ALIAS_CEILING < size proposal)%nat →
       r.1 = Person.uid person
       ∧ g_dynasties r.2 = g_dynasties g ∧ g_events r.2 = g_events g
       ∧ g_places r.2 = g_places g ∧ g_edges r.2 = g_edges g
       ∧ (∀ n, n ∈ g_persons g → Person.uid n ≠ Person.uid person → n ∈ g_persons r.2)
       ∧ ((∀ n, n ∈ g_persons g → Person.uid n ≠ Person.uid person) →
          g_persons r.2 = g_persons g ++ [person]))
  ∧ ((size proposal ≤ ALIAS_CEILING)%nat →
       r.1 = Person.uid existing
       ∧ g_dynasties r.2 = g_dynasties g ∧ g_events r.2 = g_events g
       ∧ g_places r.2 = g_places g ∧ g_edges r.2 = g_edges g
       ∧ length (g_persons r.2) = length (g_persons g)
       ∧ (∃ n, n ∈ g_persons r.2
               ∧ Person.uid n = Person.uid existing
               ∧ Person.original_name n = Person.original_name existing
               ∧ Person.loyalty n
                 = dict_fromkeys (Person.loyalty existing ++ Person.loyalty person)
               ∧ Person.description n
                 = (if (py_len (Person.description existing)
                        <? py_len (Person.description person))%nat
                    then Person.description person else Person.description existing))
       ∧ (∀ n, n ∈ g_persons r.2 → Person.uid n = Person.uid existing →
            list_to_set (Person.aliases n) = proposal)
       ∧ (∀ n, n ∈ g_persons g → Person.uid n ≠ Person.uid existing →
            n ∈ g_persons r.2)
       ∧ list_to_set (Person.aliases existing)
           ∖ {[ Person.original_name existing; "" ]} ⊆ proposal
       ∧ Person.all_names person ∖ {[ Person.original_name existing ]} ⊆ proposal).
Proof.
  intros Hfind proposal r.
  pose proof (find_person_stored _ _ _ _ Hfind) as Hstored.
  split; [apply elem_of_proposed_aliases|].
  subst r. unfold merge_person. rewrite Hfind. fold proposal. split.
  - intros Hgt. apply Nat.ltb_lt in Hgt. rewrite Hgt. cbn [fst snd].
    repeat split; try done.
    + intros n Hn Hne. by apply merge_node_other.
    + intros Hfresh. cbn.
      rewrite merge_node_fresh by done. by rewrite Person_set_props_fresh.
  - intros Hle. apply Nat.ltb_ge in Hle. rewrite Hle. cbn [fst snd].
    repeat split; try done.
    + cbn. by rewrite length_map.
    + exists (merged_node existing person proposal existing).
      split; [by apply update_person_target|done].
    + intros n' (n & Hn & ->)%update_person_elem Hu.
      destruct (String.eqb (Person.uid n) (Person.uid existing)) eqn:E.
      * cbn. apply list_to_set_sorted.
      * apply String.eqb_neq in E. done.
    + intros n Hn Hne. by apply update_person_other.
    + intros x. rewrite elem_of_difference, elem_of_list_to_set.
      rewrite not_elem_of_union, !not_elem_of_singleton.
      intros [Hx Hnx]. apply elem_of_proposed_aliases. tauto.
    + intros x. rewrite elem_of_difference, not_elem_of_singleton.
      intros [Hx Hnx]. apply elem_of_proposed_aliases.
      assert (x ≠ "").
      { intros ->. unfold Person.all_names in Hx.
        apply elem_of_difference in Hx as [_ Hx]. by apply Hx, elem_of_singleton. }
      tauto.
Qed.

Lemma pollution_guard_union_or_abort_witness :
  (merge_person zhu_wen_later (with_persons [zhu_wen_first] empty_graph)).1
  = "person_zhuwen"
  ∧ ∃ n, n ∈ g_persons (merge_person zhu_wen_later
                          (with_persons [zhu_wen_first] empty_graph)).2
         ∧ Person.uid n = "person_zhuwen"
         ∧ Person.original_name n = "朱温"
         ∧ list_to_set (Person.aliases n) = ({[ "朱全忠"; "朱晃" ]} : gset string).
Proof.
  assert (Hfind : find_person_by_any_name (Person.all_names zhu_wen_later) true
                    (with_persons [zhu_wen_first] empty_graph) = Some zhu_wen_first).
  { vm_compute. reflexivity. }
  destruct (pollution_guard_union_or_abort zhu_wen_later zhu_wen_first _ Hfind)
    as (_ & _ & Hmerge).
  assert (Hle : (size (proposed_aliases zhu_wen_first (Person.all_names zhu_wen_later))
                 ≤ ALIAS_CEILING)%nat).
  { apply Nat.leb_le. vm_compute. reflexivity. }
  destruct (Hmerge Hle) as (Huid & _ & _ & _ & _ & _ & (n & Hn & Hu & Ho & _) & Hal & _).
  split; [exact Huid|].
  exists n. split; [exact Hn|]. split; [exact Hu|]. split; [exact Ho|].
  rewrite (Hal n Hn Hu).
  apply (bool_decide_unpack _). vm_compute. exact I.
Defined.

(** The write of the two branches that are to create a node is keyed by
    uid.  On a candidate whose uid is stored already it creates nothing: the
    node of that uid stays at its place and receives the candidate's
    properties, whether it is the node the lookup matched or another one. *)
Lemma creation_write_lands_on_stored_uid (person : Person.t) (g : Graph) (i : nat)
    (n : Person.t) :
  takes_creation_path person g →
  g_persons g !! i = Some n →
  Person.uid n = Person.uid person →
  (merge_person person g).1 = Person.uid person
  ∧ length (g_persons (merge_person person g).2) = length (g_persons g)
  ∧ g_persons (merge_person person g).2 !! i = Some (Person.set_props n person).
Proof.
  intros Hpath Hi Hu.
  assert (Hm : merge_person person g = (Person.uid person, upsert_person person g)).
  { unfold merge_person. unfold takes_creation_path in Hpath.
    destruct (find_person_by_any_name _ _ _); [|done].
    apply Nat.ltb_lt in Hpath. by rewrite Hpath. }
  rewrite Hm. cbn [fst snd]. split; [done|].
  unfold upsert_person, with_persons, merge_node. cbn [g_persons].
  assert (Hhas : has_uid Person.uid (Person.uid person) (g_persons g) = true).
  { unfold has_uid. apply existsb_exists. exists n. split.
    - apply list_elem_of_In, list_elem_of_lookup. by exists i.
    - by apply String.eqb_eq. }
  rewrite Hhas. split; [apply length_map|].
  change (map ?f ?l) with (f <$> l). rewrite list_lookup_fmap, Hi. cbn.
  apply String.eqb_eq in Hu. by rewrite Hu.
Qed.

(** C1, the code at the failing input.  A person extracted a second time
    under the uid of its polluted node: the lookup matches that node, the
    guard fires (26 proposed aliases), and the branch whose comments and log
    line promise to keep the existing aliases and to create a new node
    overwrites the matched node instead, which loses its aliases, and adds no
    node, because its write is [MERGE] on the candidate's uid, the matched
    node's own. *)
Lemma pollution_guard_overwrites_matched_node :
  g_persons (merge_person zhu_wen_polluted empty_graph).2 = [zhu_wen_polluted]
  ∧ find_person_by_any_name (Person.all_names zhu_wen_again) true
    (merge_person zhu_wen_polluted empty_graph).2 = Some zhu_wen_polluted
  ∧ size (proposed_aliases zhu_wen_polluted (Person.all_names zhu_wen_again)) = 26%nat
  ∧ (merge_person zhu_wen_again (merge_person zhu_wen_polluted empty_graph).2).1
    = Person.uid zhu_wen_again
  ∧ (zhu_wen_polluted
     ∉ g_persons (merge_person zhu_wen_again
                    (merge_person zhu_wen_polluted empty_graph).2).2)
  ∧ Person.aliases
      <$> g_persons (merge_person zhu_wen_again
                       (merge_person zhu_wen_polluted empty_graph).2).2
    = [ ["朱友谦"] ].
Proof.
  split; [vm_compute; reflexivity|].
  split; [vm_compute; reflexivity|].
  split; [vm_compute; reflexivity|].
  split; [vm_compute; reflexivity|].
  split; [|vm_compute; reflexivity].
  apply (bool_decide_unpack _). vm_compute. exact I.
Qed.

(** ** C2: exact-name identity and the priority of the exact match *)

Lemma filter_ambiguous_subseteq (names : gset string) (x : string) :
  x ∈ _filter_ambiguous_names names ↔ is_specific x ∧ x ∈ names.
Proof. unfold _filter_ambiguous_names. apply elem_of_filter. Qed.

(** What the lookup answers, by cases on the two queries. *)
Lemma find_person_filtered (names : gset string) (g : Graph) :
  find_person_by_any_name names true g
  = match query_exact (_filter_ambiguous_names names) g with
    | r :: _ => Some r
    | [] => head (query_alias (_filter_ambiguous_names names) g)
    end.
Proof.
  unfold find_person_by_any_name.
  assert (Hempty : _filter_ambiguous_names names = ∅ →
            query_exact (_filter_ambiguous_names names) g = []
            ∧ query_alias (_filter_ambiguous_names names) g = []).
  { intros ->. split.
    - apply filter_none. intros q _ Hq. by apply not_elem_of_empty in Hq.
    - apply filter_none. intros q _ (a & _ & Ha)%Exists_exists.
      by apply not_elem_of_empty in Ha. }
  case_bool_decide as Hn.
  - assert (Hs : _filter_ambiguous_names names = ∅).
    { subst names. unfold _filter_ambiguous_names.
      apply leibniz_equiv, filter_empty. }
    by destruct (Hempty Hs) as [-> ->].
  - cbn. case_bool_decide as Hs; [|done].
    by destruct (Hempty Hs) as [-> ->].
Qed.

(** A match on an original name wins over alias overlap: the lookup answers
    a node found through its aliases only when no stored original name is
    among the filtered names. *)
Lemma exact_match_first (names : gset string) (g : Graph) (r : Person.t) :
  find_person_by_any_name names true g = Some r →
  Person.original_name r ∈ _filter_ambiguous_names names
  ∨ ((∀ q, q ∈ g_persons g → Person.original_name q ∉ _filter_ambiguous_names names)
     ∧ Exists (λ a, a ∈ _filter_ambiguous_names names) (Person.aliases r)).
Proof.
  rewrite find_person_filtered.
  destruct (query_exact _ g) as [|r' rest] eqn:E.
  - intros Hh. right. split.
    + intros q Hq Hin. unfold query_exact in E.
      by apply (filter_nil_not_elem_of _ _ q E Hin).
    + apply head_Some_elem_of in Hh. unfold query_alias in Hh.
      apply list_elem_of_filter in Hh. tauto.
  - intros [= <-]. left.
    assert (Hr : r' ∈ query_exact (_filter_ambiguous_names names) g) by (rewrite E; left).
    unfold query_exact in Hr. apply list_elem_of_filter in Hr. tauto.
Qed.

Lemma exact_match_found (names : gset string) (g : Graph) (q : Person.t) :
  q ∈ g_persons g →
  Person.original_name q ∈ _filter_ambiguous_names names →
  ∃ r, find_person_by_any_name names true g = Some r
       ∧ Person.original_name r ∈ _filter_ambiguous_names names.
Proof.
  intros Hq Hin. rewrite find_person_filtered. unfold query_exact.
  destruct (filter_some (λ p, Person.original_name p ∈ _filter_ambiguous_names names)
              _ q Hq Hin) as (r & rest & -> & _ & Hr).
  by exists r.
Qed.

(** C2 (amended).  A candidate whose unfiltered name set is exactly one name
    that is specific (not empty, not blacklisted, longer than one character)
    and is the original name of a stored node is resolved to the first such
    node: the lookup answers it, the proposal is then that node's own alias
    set, and [merge_person] returns its uid unless that set already exceeds
    the ceiling, in which case the candidate's uid is returned.  In every
    lookup a match on an original name takes priority: a node is answered
    through its aliases only when no stored original name matches. *)
Theorem exact_name_identity (person p : Person.t) (n : string) (g : Graph)
    (l1 l2 : list Person.t) :
  Person.all_names person = {[ n ]} →
  is_specific n →
  g_persons g = l1 ++ p :: l2 →
  Person.original_name p = n →
  (∀ q, q ∈ l1 → Person.original_name q ≠ n) →
  find_person_by_any_name (Person.all_names person) true g = Some p
  ∧ proposed_aliases p (Person.all_names person)
    = list_to_set (Person.aliases p) ∖ {[ n; "" ]}
  ∧ ((size (list_to_set (Person.aliases p) ∖ {[ n; "" ]} : gset string)
      ≤ ALIAS_CEILING)%nat →
     (merge_person person g).1 = Person.uid p)
  ∧ ((ALIAS_CEILING
      < size (list_to_set (Person.aliases p) ∖ {[ n; "" ]} : gset string))%nat →
     (merge_person person g).1 = Person.uid person)
  ∧ (∀ names r,
       find_person_by_any_name names true g = Some r →
       Person.original_name r ∈ _filter_ambiguous_names names
       ∨ ((∀ q, q ∈ g_persons g →
                Person.original_name q ∉ _filter_ambiguous_names names)
          ∧ Exists (λ a, a ∈ _filter_ambiguous_names names) (Person.aliases r)))
  ∧ (∀ names q,
       q ∈ g_persons g →
       Person.original_name q ∈ _filter_ambiguous_names names →
       ∃ r, find_person_by_any_name names true g = Some r
            ∧ Person.original_name r ∈ _filter_ambiguous_names names).
Proof.
  intros Hnames Hspec Hg Hp Hl1.
  assert (Hfind : find_person_by_any_name (Person.all_names person) true g = Some p).
  { rewrite find_person_filtered, Hnames. unfold _filter_ambiguous_names.
    rewrite (filter_singleton_True_L (C:=gset string) is_specific n Hspec).
    unfold query_exact. rewrite Hg.
    rewrite (filter_first (λ q, Person.original_name q ∈ ({[ n ]} : gset string))
               l1 l2 p); [done| |by apply elem_of_singleton].
    intros q Hq Hin%elem_of_singleton. by apply (Hl1 q). }
  assert (Hprop : proposed_aliases p (Person.all_names person)
                  = list_to_set (Person.aliases p) ∖ {[ n; "" ]}).
  { apply set_eq. intros x. rewrite elem_of_proposed_aliases, Hnames, Hp.
    rewrite elem_of_difference, elem_of_list_to_set, not_elem_of_union.
    rewrite !not_elem_of_singleton, elem_of_singleton. tauto. }
  split; [done|]. split; [done|].
  unfold merge_person. rewrite Hfind, Hprop.
  split; [|split; [|split]].
  - intros Hle%Nat.ltb_ge. by rewrite Hle.
  - intros Hgt%Nat.ltb_lt. by rewrite Hgt.
  - intros names r. apply exact_match_first.
  - intros names q. apply exact_match_found.
Qed.

Lemma exact_name_identity_witness :
  find_person_by_any_name (Person.all_names zhu_wen_bare) true
    (with_persons [zhu_wen_first] empty_graph) = Some zhu_wen_first
  ∧ (merge_person zhu_wen_bare (with_persons [zhu_wen_first] empty_graph)).1
    = "person_zhuwen".
Proof.
  assert (Hnames : Person.all_names zhu_wen_bare = {[ "朱温" ]}).
  { apply (bool_decide_unpack _). vm_compute. exact I. }
  assert (Hspec : is_specific "朱温").
  { apply (bool_decide_unpack _). vm_compute. exact I. }
  assert (Hl1 : ∀ q : Person.t, q ∈ [] → Person.original_name q ≠ "朱温").
  { intros q Hq%elem_of_nil. destruct Hq. }
  destruct (exact_name_identity zhu_wen_bare zhu_wen_first "朱温"
              (with_persons [zhu_wen_first] empty_graph) [] []
              Hnames Hspec eq_refl eq_refl Hl1) as (Hfind & _ & Hle & _).
  split; [exact Hfind|].
  apply Hle. apply Nat.leb_le. vm_compute. reflexivity.
Defined.

(** C2, as stated, fails: the candidate's name set is exactly the original
    name of a stored node, and [merge_person] does not return that node's
    uid, because the name is blacklisted and takes no part in matching. *)
Lemma exact_name_blacklisted_not_matched :
  g_persons (merge_person jin_wang_stored empty_graph).2 = [jin_wang_stored]
  ∧ Person.all_names jin_wang_candidate = {[ Person.original_name jin_wang_stored ]}
  ∧ find_person_by_any_name (Person.all_names jin_wang_candidate) true
      (merge_person jin_wang_stored empty_graph).2 = None
  ∧ (merge_person jin_wang_candidate (merge_person jin_wang_stored empty_graph).2).1
    ≠ Person.uid jin_wang_stored.
Proof.
  split; [vm_compute; reflexivity|].
  split; [apply (bool_decide_unpack _); vm_compute; exact I|].
  split; [vm_compute; reflexivity|].
  apply (bool_decide_unpack _). vm_compute. exact I.
Qed.

(** ** C3: candidates that share only a blacklisted title *)

Lemma upsert_person_target (p : Person.t) (g : Graph) :
  ∃ n, n ∈ g_persons (upsert_person p g)
       ∧ Person.uid n = Person.uid p
       ∧ Person.original_name n = Person.original_name p
       ∧ Person.aliases n = Person.aliases p.
Proof.
  destruct (merge_node_target Person.uid Person.fresh Person.set_props
              Person_fresh_uid (Person.uid p) p (g_persons g)) as (old & Hu & Hin).
  exists (Person.set_props old p). split; [exact Hin|]. by rewrite <- Hu.
Qed.

Lemma upsert_person_other (p n : Person.t) (g : Graph) :
  n ∈ g_persons g → Person.uid n ≠ Person.uid p → n ∈ g_persons (upsert_person p g).
Proof. intros Hn Hne. by apply merge_node_other. Qed.

(** With no specific name the candidate is written under its own uid. *)
Lemma merge_person_filtered_empty (p : Person.t) (g : Graph) :
  _filter_ambiguous_names (Person.all_names p) = ∅ →
  merge_person p g = (Person.uid p, upsert_person p g).
Proof.
  intros H. unfold merge_person. by rewrite (find_person_filtered_empty _ g H).
Qed.

(** The lookup fails exactly when no specific name of the candidate is
    carried by a stored person; names the filter drops play no part. *)
Lemma find_person_none_iff (names : gset string) (g : Graph) :
  find_person_by_any_name names true g = None
  ↔ ∀ q x, q ∈ g_persons g → x ∈ names → is_specific x → ¬ carries_name x q.
Proof.
  rewrite find_person_filtered. split.
  - intros H q x Hq Hx Hs Hc.
    assert (Hxs : x ∈ _filter_ambiguous_names names) by by apply filter_ambiguous_subseteq.
    destruct (query_exact _ g) as [|r rest] eqn:E; [|done].
    apply head_None in H. destruct Hc as [Hc|Hc].
    + apply (filter_nil_not_elem_of _ _ q E); [by rewrite Hc|done].
    + apply (filter_nil_not_elem_of _ _ q H); [|done].
      apply Exists_exists. by exists x.
  - intros H. unfold query_exact, query_alias.
    rewrite (filter_none (λ p, Person.original_name p ∈ _filter_ambiguous_names names)).
    + apply head_None, filter_none.
      intros q Hq (x & Hx & [Hs Hin]%filter_ambiguous_subseteq)%Exists_exists.
      apply (H q x Hq Hin Hs). by right.
    + intros q Hq [Hs Hin]%filter_ambiguous_subseteq.
      apply (H q _ Hq Hin Hs). by left.
Qed.

(** What holds of C3.  Two candidates none of whose names survives the filter
    (they carry nothing but blacklisted titles or one-character names) and
    whose uids differ resolve to two distinct nodes: the lookup answers
    nothing for either, each is written under its own uid, which is returned,
    and the store afterwards holds a node for each with that candidate's
    names.  In any store the lookup ignores the names the filter drops: it
    fails exactly when no specific name of the candidate is carried by a
    stored person. *)
Theorem blacklisted_titles_never_merge (a b : Person.t) (g : Graph) :
  _filter_ambiguous_names (Person.all_names a) = ∅ →
  _filter_ambiguous_names (Person.all_names b) = ∅ →
  Person.uid a ≠ Person.uid b →
  let ra := merge_person a g in
  let rb := merge_person b ra.2 in
  find_person_by_any_name (Person.all_names a) true g = None
  ∧ find_person_by_any_name (Person.all_names b) true ra.2 = None
  ∧ ra = (Person.uid a, upsert_person a g)
  ∧ rb = (Person.uid b, upsert_person b ra.2)
  ∧ (∃ na nb, na ∈ g_persons rb.2 ∧ nb ∈ g_persons rb.2 ∧ na ≠ nb
              ∧ Person.uid na = Person.uid a
              ∧ Person.original_name na = Person.original_name a
              ∧ Person.aliases na = Person.aliases a
              ∧ Person.uid nb = Person.uid b
              ∧ Person.original_name nb = Person.original_name b
              ∧ Person.aliases nb = Person.aliases b)
  ∧ (∀ names g',
       find_person_by_any_name names true g' = None
       ↔ ∀ q x, q ∈ g_persons g' → x ∈ names → is_specific x → ¬ carries_name x q).
Proof.
  intros Ha Hb Hne ra rb. subst ra rb.
  rewrite (merge_person_filtered_empty a g Ha). cbn [fst snd].
  rewrite (merge_person_filtered_empty b _ Hb). cbn [fst snd].
  split; [by apply find_person_filtered_empty|].
  split; [by apply find_person_filtered_empty|].
  split; [done|]. split; [done|].
  split; [|apply find_person_none_iff].
  destruct (upsert_person_target a g) as (na & Hna & Hua & Hoa & Haa).
  destruct (upsert_person_target b (upsert_person a g)) as (nb & Hnb & Hub & Hob & Hab).
  exists na, nb. repeat split; try done.
  - apply upsert_person_other; [done|]. by rewrite Hua.
  - intros ->. apply Hne. by rewrite <- Hua, <- Hub.
Qed.

Lemma blacklisted_titles_never_merge_witness :
  (merge_person jin_wang_stored empty_graph).1 = "person_jin_wang"
  ∧ (merge_person jin_wang_candidate (merge_person jin_wang_stored empty_graph).2).1
    = "person_li_cunxu"
  ∧ ∃ na nb, na ∈ g_persons (merge_person jin_wang_candidate
                               (merge_person jin_wang_stored empty_graph).2).2
             ∧ nb ∈ g_persons (merge_person jin_wang_candidate
                                 (merge_person jin_wang_stored empty_graph).2).2
             ∧ na ≠ nb
             ∧ Person.original_name na = "晋王" ∧ Person.original_name nb = "晋王".
Proof.
  assert (Ha : _filter_ambiguous_names (Person.all_names jin_wang_stored) = ∅).
  { apply (bool_decide_unpack _). vm_compute. exact I. }
  assert (Hb : _filter_ambiguous_names (Person.all_names jin_wang_candidate) = ∅).
  { apply (bool_decide_unpack _). vm_compute. exact I. }
  assert (Hne : Person.uid jin_wang_stored ≠ Person.uid jin_wang_candidate).
  { apply (bool_decide_unpack _). vm_compute. exact I. }
  destruct (blacklisted_titles_never_merge jin_wang_stored jin_wang_candidate
              empty_graph Ha Hb Hne)
    as (_ & _ & Hra & Hrb & (na & nb & Hna & Hnb & Hd & _ & Hoa & _ & _ & Hob & _) & _).
  split; [exact (f_equal fst Hra)|]. split; [exact (f_equal fst Hrb)|].
  exists na, nb.
  split; [exact Hna|]. split; [exact Hnb|]. split; [exact Hd|].
  split; [exact Hoa|exact Hob].
Defined.

(** C3, the code at the failing input.  Father and son are both extracted
    under the title Prince of Jin alone, hence under the uid the extraction
    derives from that name.  The blacklist keeps the title out of the
    matching, neither candidate is matched, both go through the branch that
    is to create a node, and yet the store holds one node after both: the
    write of that branch is [MERGE] on the uid, and the second candidate
    lands on the node of the first, which is the merge of two persons that
    the blacklist is there to prevent. *)
Lemma shared_title_same_uid_one_node :
  "晋王" ∈ AMBIGUOUS_TITLES
  ∧ Person.all_names jin_wang_father = {[ "晋王" ]}
  ∧ Person.all_names jin_wang_son = {[ "晋王" ]}
  ∧ find_person_by_any_name (Person.all_names jin_wang_father) true empty_graph = None
  ∧ find_person_by_any_name (Person.all_names jin_wang_son) true
      (merge_person jin_wang_father empty_graph).2 = None
  ∧ (merge_person jin_wang_father empty_graph).1
    = (merge_person jin_wang_son (merge_person jin_wang_father empty_graph).2).1
  ∧ g_persons (merge_person jin_wang_son (merge_person jin_wang_father empty_graph).2).2
    = [jin_wang_son].
Proof.
  split; [apply (bool_decide_unpack _); vm_compute; exact I|].
  split; [apply (bool_decide_unpack _); vm_compute; exact I|].
  split; [apply (bool_decide_unpack _); vm_compute; exact I|].
  repeat split; vm_compute; reflexivity.
Qed.

(** ** C4: scalar fields are only filled in *)

Lemma scalars_kept_refl (n : Person.t) : scalars_kept n n.
Proof. by repeat split. Qed.

Lemma scalars_kept_trans (n1 n2 n3 : Person.t) :
  scalars_kept n1 n2 → scalars_kept n2 n3 → scalars_kept n1 n3.
Proof.
  intros (Hb & Hd & Hc & Hr) (Hb' & Hd' & Hc' & Hr'). repeat split.
  - intros H. rewrite <- (Hb H). apply Hb'. by rewrite (Hb H).
  - intros H. rewrite <- (Hd H). apply Hd'. by rewrite (Hd H).
  - intros H. rewrite <- (Hc H). apply Hc'. by rewrite (Hc H).
  - intros H1 H2. rewrite <- (Hr H1 H2). apply Hr'; by rewrite (Hr H1 H2).
Qed.

(** The merge branch writes a scalar only over an empty value. *)
Lemma merged_node_keeps_scalars (existing person : Person.t) (X : gset string) :
  scalars_kept existing (merged_node existing person X existing).
Proof.
  unfold scalars_kept, merged_node. cbn. repeat split.
  - intros ->. by rewrite andb_false_r.
  - intros ->. by rewrite andb_false_r.
  - intros ->. by rewrite andb_false_r.
  - intros H1%String.eqb_neq H2%String.eqb_neq. rewrite H1, H2. cbn.
    by rewrite andb_false_r.
Qed.

(** One call: a stored node keeps its place, its uid and its populated
    scalars, unless the call writes a candidate of the same uid through the
    creation path. *)
Lemma merge_person_keeps_scalars (person : Person.t) (g : Graph) (i : nat)
    (n : Person.t) :
  unique_uids g →
  g_persons g !! i = Some n →
  ¬ (takes_creation_path person g ∧ Person.uid person = Person.uid n) →
  ∃ n', g_persons (merge_person person g).2 !! i = Some n'
        ∧ Person.uid n' = Person.uid n ∧ scalars_kept n n'.
Proof.
  intros Hnd Hi Hno. unfold takes_creation_path in Hno. unfold merge_person.
  assert (Hcreate : Person.uid person ≠ Person.uid n →
            ∃ n', g_persons (upsert_person person g) !! i = Some n'
                  ∧ Person.uid n' = Person.uid n ∧ scalars_kept n n').
  { intros Hne. exists n. split; [|split; [done|apply scalars_kept_refl]].
    apply merge_node_lookup_other; [done|congruence]. }
  destruct (find_person_by_any_name _ _ _) as [existing|] eqn:Hfind.
  - destruct (_ <? _)%nat eqn:Hlt; cbn [snd].
    + apply Hcreate. intros Hu. apply Hno. split; [|done]. by apply Nat.ltb_lt.
    + cbn. rewrite list_lookup_fmap, Hi. cbn.
      destruct (String.eqb (Person.uid n) (Person.uid existing)) eqn:E.
      * apply String.eqb_eq in E.
        assert (n = existing) as ->.
        { apply (unique_uids_eq g); [done| |by eapply find_person_stored|done].
          apply list_elem_of_lookup. by exists i. }
        eexists. split; [done|]. split; [done|]. apply merged_node_keeps_scalars.
      * exists n. split; [done|]. split; [done|apply scalars_kept_refl].
  - cbn [snd]. apply Hcreate. intros Hu. by apply Hno.
Qed.

(** What holds of C4.  In a store with unique uids, through every sequence of
    [merge_person] calls none of which reaches the creation write (no match,
    or merge refused by the pollution guard) with the uid of the node, a
    stored node keeps its place and uid, and each of its scalars birth year,
    death year, cause of death and role that holds a populated value keeps
    that value: the merge branch writes a candidate's scalar only where the
    stored one is absent or empty. *)
Theorem scalar_fill_in_monotonic (candidates : list Person.t) (g : Graph) (i : nat)
    (n : Person.t) :
  unique_uids g →
  g_persons g !! i = Some n →
  never_rewritten (Person.uid n) candidates g →
  ∃ n', g_persons (merge_persons candidates g) !! i = Some n'
        ∧ Person.uid n' = Person.uid n ∧ scalars_kept n n'.
Proof.
  revert g n. induction candidates as [|c rest IH]; intros g n Hnd Hi Hnever.
  - exists n. split; [done|]. split; [done|apply scalars_kept_refl].
  - destruct Hnever as [Hc Hrest]. cbn [merge_persons].
    destruct (merge_person_keeps_scalars c g i n Hnd Hi Hc) as (n1 & Hi1 & Hu1 & Hk1).
    destruct (IH (merge_person c g).2 n1) as (n2 & Hi2 & Hu2 & Hk2).
    + by apply merge_person_unique_uids.
    + done.
    + by rewrite Hu1.
    + exists n2. split; [done|]. split; [congruence|].
      by eapply scalars_kept_trans.
Qed.

Lemma scalar_fill_in_monotonic_witness :
  ∃ n', g_persons (merge_persons [zhu_wen_conflicting; li_keyong]
                     (with_persons [zhu_wen_later] empty_graph)) !! 0%nat = Some n'
        ∧ Person.uid n' = "person_zhu_wen"
        ∧ Person.birth_year n' = Some 852%Z
        ∧ Person.death_year n' = Some 912%Z
        ∧ Person.death_cause n' = Some "被杀"
        ∧ Person.role n' = "皇帝".
Proof.
  assert (Hnd : unique_uids (with_persons [zhu_wen_later] empty_graph)).
  { apply (bool_decide_unpack _). vm_compute. exact I. }
  assert (Hnever : never_rewritten (Person.uid zhu_wen_later)
                     [zhu_wen_conflicting; li_keyong]
                     (with_persons [zhu_wen_later] empty_graph)).
  { apply (bool_decide_unpack _). vm_compute. exact I. }
  destruct (scalar_fill_in_monotonic [zhu_wen_conflicting; li_keyong]
              (with_persons [zhu_wen_later] empty_graph) 0 zhu_wen_later
              Hnd eq_refl Hnever) as (n' & Hi & Hu & Hb & Hd & Hc & Hr).
  exists n'. split; [exact Hi|]. split; [exact Hu|].
  split; [exact (Hb eq_refl)|]. split; [exact (Hd eq_refl)|].
  split; [exact (Hc eq_refl)|].
  apply Hr; apply (bool_decide_unpack _); vm_compute; exact I.
Defined.

(** C4, the code at the failing input.  The father's death year 908 and his
    role are populated after the first call; the second call matches
    nothing, goes through the branch that is to create a node and, writing
    under the same uid with [SET p += props], replaces both, where the merge
    branch guards each scalar by the emptiness of the stored one. *)
Lemma creation_write_replaces_scalars :
  Person.death_year <$> g_persons (merge_persons [jin_wang_father] empty_graph)
  = [Some 908%Z]
  ∧ Person.role <$> g_persons (merge_persons [jin_wang_father] empty_graph)
    = ["藩镇节度使"]
  ∧ Person.death_year
      <$> g_persons (merge_persons [jin_wang_father; jin_wang_son] empty_graph)
    = [Some 926%Z]
  ∧ Person.role
      <$> g_persons (merge_persons [jin_wang_father; jin_wang_son] empty_graph)
    = ["皇帝"].
Proof. repeat split; vm_compute; reflexivity. Qed.

(** ** The removal of the relations after a death *)

Section DictProperties.
Context {V : Type}.

Lemma dict_set_elem (k : string) (v : V) (d : list (string * V)) :
  (k, v) ∈ dict_set k v d.
Proof.
  induction d as [|[k' v'] d IH]; cbn; [left|].
  destruct (String.eqb k' k) eqn:E.
  - apply String.eqb_eq in E as ->. left.
  - by right.
Qed.

Lemma dict_set_elem_other (k k' : string) (v v' : V) (d : list (string * V)) :
  (k', v') ∈ d → k' ≠ k → (k', v') ∈ dict_set k v d.
Proof.
  intros Hin Hne. induction d as [|[k0 v0] d IH]; cbn; [by apply elem_of_nil in Hin|].
  apply elem_of_cons in Hin as [[= <- <-]|Hin].
  - apply String.eqb_neq in Hne. rewrite Hne. left.
  - destruct (String.eqb k0 k); right; [done|by apply IH].
Qed.

Lemma dict_set_inv (k k' : string) (v v' : V) (d : list (string * V)) :
  (k', v') ∈ dict_set k v d → (k' = k ∧ v' = v) ∨ (k', v') ∈ d.
Proof.
  induction d as [|[k0 v0] d IH]; cbn.
  - intros [= -> ->]%list_elem_of_singleton. by left.
  - destruct (String.eqb k0 k) eqn:E.
    + apply String.eqb_eq in E as ->.
      intros [[= -> ->]|Hin]%elem_of_cons; [by left|]. right. by right.
    + intros [[= -> ->]|Hin]%elem_of_cons; [right; left|].
      destruct (IH Hin) as [?|?]; [by left|]. right. by right.
Qed.
End DictProperties.

Lemma death_years_foldl (g : Graph) :
  death_years g = foldl record_death_year [] (g_persons g).
Proof. done. Qed.

Lemma record_death_years_keep (l : list Person.t) (d : list (string * Z))
    (u : string) (dy : Z) :
  (u, dy) ∈ d → (∀ q, q ∈ l → Person.uid q ≠ u) →
  (u, dy) ∈ foldl record_death_year d l.
Proof.
  revert d. induction l as [|q l IH]; intros d Hin Hl; [done|].
  cbn. apply IH.
  - unfold record_death_year. destruct (Person.death_year q); [|done].
    apply dict_set_elem_other; [done|]. intros ->. by apply (Hl q); [left|].
  - intros q' Hq'. apply Hl. by right.
Qed.

(** Every person with a death year has it recorded under its uid. *)
Lemma death_years_complete (l : list Person.t) (d : list (string * Z))
    (p : Person.t) (dy : Z) :
  NoDup (Person.uid <$> l) → p ∈ l → Person.death_year p = Some dy →
  (Person.uid p, dy) ∈ foldl record_death_year d l.
Proof.
  revert d. induction l as [|q l IH]; intros d Hnd Hin Hdy;
    [by apply elem_of_nil in Hin|].
  cbn in Hnd. apply NoDup_cons in Hnd as [Hq Hnd]. cbn.
  apply elem_of_cons in Hin as [->|Hin].
  - apply record_death_years_keep.
    + unfold record_death_year. rewrite Hdy. apply dict_set_elem.
    + intros q' Hq' Heq. apply Hq. apply list_elem_of_fmap. by exists q'.
  - by apply IH.
Qed.

(** Every recorded death year is the one of a stored person. *)
Lemma death_years_sound (l : list Person.t) (d : list (string * Z))
    (u : string) (dy : Z) :
  (u, dy) ∈ foldl record_death_year d l →
  (u, dy) ∈ d ∨ ∃ p, p ∈ l ∧ Person.uid p = u ∧ Person.death_year p = Some dy.
Proof.
  revert d. induction l as [|q l IH]; intros d; cbn; [by left|].
  intros [Hin|(p & Hp & Hu & Hdy)]%IH.
  - unfold record_death_year in Hin. destruct (Person.death_year q) as [dq|] eqn:E;
      [|by left].
    apply dict_set_inv in Hin as [[-> ->]|Hin]; [|by left].
    right. exists q. split; [left|done].
  - right. exists p. split; [by right|done].
Qed.

Lemma elem_of_post_death (u : string) (dy : Z) (g : Graph) (ev : Event.t) :
  ev ∈ post_death u dy g
  ↔ ∃ e, e ∈ g_edges g ∧ participation_of u e
         ∧ ev ∈ g_events g ∧ Event.uid ev = (e_dst e).2 ∧ later_than dy ev.
Proof.
  unfold post_death. rewrite list_elem_of_bind. split.
  - intros (e & Hev & He). case_bool_decide; [|by apply elem_of_nil in Hev].
    apply list_elem_of_filter in Hev. exists e. tauto.
  - intros (e & He & Hp & Hev & Hu & Hl). exists e. split; [|done].
    rewrite bool_decide_eq_true_2 by done. by apply list_elem_of_filter.
Qed.

Lemma elem_of_to_remove (u : string) (dy : Z) (g : Graph) (e : Edge) :
  e ∈ g_edges g →
  (participation_of u e ∧ (e_dst e).2 ∈ to_remove u dy g) ↔ doomed u dy (g_events g) e.
Proof.
  intros He. unfold to_remove, doomed. split.
  - intros [Hp (ev & Hu & Hev)%list_elem_of_fmap]. split; [done|].
    apply list_elem_of_filter in Hev as [Hm Hev].
    apply elem_of_post_death in Hev as (e0 & _ & _ & Hin & _ & Hl).
    by exists ev.
  - intros [Hp (ev & Hin & Hu & Hl & Hm)]. split; [done|].
    apply list_elem_of_fmap. exists ev. split; [done|].
    apply list_elem_of_filter. split; [done|].
    apply elem_of_post_death. by exists e.
Qed.

(** One turn of the loop removes the doomed edges of that person and
    nothing else. *)
Lemma remove_post_death_of_spec (g : Graph) (u : string) (dy : Z) :
  g_persons (remove_post_death_of g (u, dy)) = g_persons g
  ∧ g_dynasties (remove_post_death_of g (u, dy)) = g_dynasties g
  ∧ g_events (remove_post_death_of g (u, dy)) = g_events g
  ∧ g_places (remove_post_death_of g (u, dy)) = g_places g
  ∧ ∀ e, e ∈ g_edges (remove_post_death_of g (u, dy))
         ↔ e ∈ g_edges g ∧ ¬ doomed u dy (g_events g) e.
Proof.
  unfold remove_post_death_of.
  destruct (to_remove u dy g) as [|x rest] eqn:E.
  - do 4 (split; [done|]). intros e. split; [|tauto].
    intros He. split; [done|].
    intros Hd. apply (elem_of_to_remove u dy g e) in Hd as [_ Hd]; [|done].
    rewrite E in Hd. by apply elem_of_nil in Hd.
  - do 4 (split; [done|]). intros e. cbn. rewrite list_elem_of_filter. split.
    + intros [Hn He]. split; [done|]. intros Hd. apply Hn.
      rewrite <- E. by apply elem_of_to_remove.
    + intros [He Hn]. split; [|done].
      intros Hd. apply Hn. apply elem_of_to_remove; [done|]. by rewrite E.
Qed.

(** The whole loop, over any list of recorded death years. *)
Lemma remove_post_death_loop (dys : list (string * Z)) (g : Graph) :
  g_persons (foldl remove_post_death_of g dys) = g_persons g
  ∧ g_dynasties (foldl remove_post_death_of g dys) = g_dynasties g
  ∧ g_events (foldl remove_post_death_of g dys) = g_events g
  ∧ g_places (foldl remove_post_death_of g dys) = g_places g
  ∧ ∀ e, e ∈ g_edges (foldl remove_post_death_of g dys)
         ↔ e ∈ g_edges g
           ∧ ∀ u dy, (u, dy) ∈ dys → ¬ doomed u dy (g_events g) e.
Proof.
  revert g. induction dys as [|[u dy] dys IH]; intros g.
  - do 4 (split; [done|]). intros e. cbn. split; [|tauto].
    intros He. split; [done|]. intros u dy Hin. by apply elem_of_nil in Hin.
  - cbn [foldl].
    destruct (remove_post_death_of_spec g u dy) as (Hp & Hd & Hev & Hpl & Hed).
    destruct (IH (remove_post_death_of g (u, dy))) as (Hp' & Hd' & Hev' & Hpl' & Hed').
    split; [congruence|]. split; [congruence|]. split; [congruence|].
    split; [congruence|].
    intros e. rewrite Hed', Hed, Hev. split.
    + intros [[He Hn] Hall]. split; [done|].
      intros u' dy' [[= -> ->]|Hin]%elem_of_cons; [done|by apply Hall].
    + intros [He Hall]. split; [split; [done|]|].
      * apply Hall. left.
      * intros u' dy' Hin. apply Hall. by right.
Qed.

(** A keyword found in the description or in the name is found in their
    concatenation, which is the text the repair searches. *)
Lemma prefix_empty (s : string) : String.prefix "" s = true.
Proof. by destruct s. Qed.

Lemma prefix_append (kw a b : string) :
  String.prefix kw a = true → String.prefix kw (String.append a b) = true.
Proof.
  revert a. induction kw as [|c kw IH]; intros a; [by rewrite !prefix_empty|].
  destruct a as [|c' a]; [done|].
  change (String.append (String c' a) b) with (String c' (String.append a b)).
  cbn. destruct (ascii_dec c c'); [apply IH|done].
Qed.

Lemma py_in_empty (s : string) : py_in "" s = true.
Proof. destruct s; cbn; by rewrite ?prefix_empty. Qed.

Lemma py_in_append_l (kw a b : string) :
  py_in kw a = true → py_in kw (String.append a b) = true.
Proof.
  induction a as [|c a IH].
  - destruct kw as [|c kw]; [intros _; apply py_in_empty|done].
  - change (String.append (String c a) b) with (String c (String.append a b)).
    cbn [py_in]. intros [H|H]%orb_true_iff.
    + pose proof (prefix_append kw (String c a) b H) as Hp.
      change (String.append (String c a) b) with (String c (String.append a b)) in Hp.
      by rewrite Hp.
    + rewrite (IH H). apply orb_true_r.
Qed.

Lemma py_in_append_r (kw a b : string) :
  py_in kw b = true → py_in kw (String.append a b) = true.
Proof.
  intros H. induction a as [|c a IH]; [done|].
  change (String.append (String c a) b) with (String c (String.append a b)).
  cbn [py_in]. rewrite IH. apply orb_true_r.
Qed.

Lemma memorial_keyword_in_parts (desc name : string) :
  (∃ kw, kw ∈ MEMORIAL_KEYWORDS ∧ (py_in kw desc = true ∨ py_in kw name = true)) →
  has_memorial_keyword (String.append desc name) = true.
Proof.
  intros (kw & Hkw & H). unfold has_memorial_keyword.
  apply existsb_exists. exists kw. split; [by apply list_elem_of_In|].
  destruct H; [by apply py_in_append_l|by apply py_in_append_r].
Qed.

(** Step 1 alone.  In a store with unique person uids, for every person
    with a death year and every PARTICIPATED_IN edge that leaves that person
    towards an event node: the removal pass changes no node and adds no edge,
    and the edge survives it exactly when each event it leads to with a year
    strictly after the death year has a memorial keyword in its description
    followed by its name; in particular it survives when such a keyword
    occurs in the description or in the name, and it is removed when the
    event is later than the death and no keyword occurs. *)
Lemma removal_pass_spec (g : Graph) (p : Person.t) (dy : Z) (e : Edge) :
  unique_uids g →
  p ∈ g_persons g →
  Person.death_year p = Some dy →
  e ∈ g_edges g →
  participation_of (Person.uid p) e →
  let g' := remove_post_death_relations g in
  g_persons g' = g_persons g ∧ g_dynasties g' = g_dynasties g
  ∧ g_events g' = g_events g ∧ g_places g' = g_places g
  ∧ (∀ e', e' ∈ g_edges g' → e' ∈ g_edges g)
  ∧ (e ∈ g_edges g'
     ↔ ∀ ev, ev ∈ g_events g → Event.uid ev = (e_dst e).2 → later_than dy ev →
             has_memorial_keyword (String.append (Event.description ev) (Event.name ev))
             = true)
  ∧ ((∀ ev, ev ∈ g_events g → Event.uid ev = (e_dst e).2 → later_than dy ev →
            ∃ kw, kw ∈ MEMORIAL_KEYWORDS
                  ∧ (py_in kw (Event.description ev) = true
                     ∨ py_in kw (Event.name ev) = true)) →
     e ∈ g_edges g')
  ∧ (∀ ev, ev ∈ g_events g → Event.uid ev = (e_dst e).2 → later_than dy ev →
           has_memorial_keyword (String.append (Event.description ev) (Event.name ev))
           = false →
           e ∉ g_edges g').
Proof.
  intros Hnd Hp Hdy He Hpart g'. subst g'. unfold remove_post_death_relations.
  destruct (remove_post_death_loop (death_years g) g) as (H1 & H2 & H3 & H4 & Hed).
  do 4 (split; [done|]).
  split; [intros e' He'; by apply Hed in He' as [? _]|].
  assert (Hiff : e ∈ g_edges (foldl remove_post_death_of g (death_years g))
     ↔ ∀ ev, ev ∈ g_events g → Event.uid ev = (e_dst e).2 → later_than dy ev →
             has_memorial_keyword (String.append (Event.description ev) (Event.name ev))
             = true).
  { rewrite Hed. split.
    - intros [_ Hall] ev Hev Hu Hl.
      destruct (has_memorial_keyword _) eqn:Hm; [done|].
      exfalso. apply (Hall (Person.uid p) dy).
      + rewrite death_years_foldl. by apply death_years_complete.
      + split; [done|]. by exists ev.
    - intros Hall. split; [done|].
      intros u dy' Hin [Hpu (ev & Hev & Hu & Hl & Hm)].
      assert (u = Person.uid p) as ->.
      { destruct Hpu as [Hs _]. destruct Hpart as [Hs' _]. congruence. }
      rewrite death_years_foldl in Hin.
      apply death_years_sound in Hin as [Hin|(q & Hq & Huq & Hdq)];
        [by apply elem_of_nil in Hin|].
      assert (q = p) as -> by by apply (unique_uids_eq g).
      assert (dy' = dy) as -> by congruence.
      by rewrite (Hall ev Hev Hu Hl) in Hm. }
  split; [exact Hiff|]. split.
  - intros Hkw. apply Hiff. intros ev Hev Hu Hl.
    apply memorial_keyword_in_parts. by apply Hkw.
  - intros ev Hev Hu Hl Hm Hin.
    by rewrite (proj1 Hiff Hin ev Hev Hu Hl) in Hm.
Qed.

(** The same scenario through the whole of [run_phase2_event_relations]:
    without a keyword the edge is gone and is not linked again; with one it
    is kept. *)
Example repair_scenario_without_keyword :
  g_edges (graph_920 battle_920) = [participation_920]
  ∧ g_edges (remove_post_death_relations (graph_920 battle_920)) = []
  ∧ g_edges (run_phase2_event_relations (graph_920 battle_920)) = [].
Proof. repeat split; vm_compute; reflexivity. Qed.

Example repair_scenario_with_keyword :
  g_edges (graph_920 memorial_920) = [participation_920]
  ∧ g_edges (remove_post_death_relations (graph_920 memorial_920)) = [participation_920]
  ∧ g_edges (run_phase2_event_relations (graph_920 memorial_920)) = [participation_920].
Proof. repeat split; vm_compute; reflexivity. Qed.

(** ** C7 and C8: the ingestion loop *)

Lemma checkpoint_fst (fail : option Halt) (torn last : bool)
    (rs : list ExtractionResult) (st : Pipeline) :
  (checkpoint fail torn last rs st).1 = fail.
Proof. destruct fail as [[]|]; done. Qed.

Lemma checkpoint_memory (fail : option Halt) (torn last : bool)
    (rs : list ExtractionResult) (st : Pipeline) :
  _processed_chunks (checkpoint fail torn last rs st).2 = _processed_chunks st
  ∧ graph (checkpoint fail torn last rs st).2 = graph st.
Proof. destruct fail as [[]|], last; done. Qed.

(** What a checkpoint leaves on disk unless the progress write itself
    raised. *)
Lemma checkpoint_file (fail : option Halt) (torn last : bool)
    (rs : list ExtractionResult) (st : Pipeline) :
  fail ≠ Some ProgressWriteFailed →
  ∃ l, _progress_file (checkpoint fail torn last rs st).2 = Saved l
       ∧ list_to_set l = _processed_chunks st.
Proof.
  intros Hf. exists (sorted (elements (_processed_chunks st))).
  split; [|apply list_to_set_sorted].
  destruct fail as [[]|], last; done.
Qed.

Lemma py_slice_from_nil {A} (n : Z) : py_slice_from n ([] : list A) = [].
Proof. unfold py_slice_from. destruct (0 <=? n)%Z; apply drop_nil. Qed.

Lemma py_slice_to_nil {A} (n : Z) : py_slice_to n ([] : list A) = [].
Proof. unfold py_slice_to. destruct (0 <=? n)%Z; apply take_nil. Qed.

Section RunProperties.
Variable py_upper : string → string.
Variable keep_alnum : string → string.
Variable env : Env.

(** A unit whose extraction fails: the call is logged, nothing is written to
    the graph, the unit is recorded as processed. *)
Lemma failed_extraction_step (i : nat) (chunk : TextChunk) (tr : Trace) (st : Pipeline) :
  extract_from_chunk env i chunk = None →
  process_chunk py_upper keep_alnum env i chunk (tr, st)
  = (Build_Trace (extract_calls tr ++ [chunk_id chunk]) (results tr),
     {| _processed_chunks := _processed_chunks st ∪ {[ chunk_id chunk ]};
        _progress_file := _progress_file st;
        graph := graph st;
        _results_file := _results_file st |}).
Proof. intros H. unfold process_chunk. by rewrite H. Qed.

(** Every unit, failed or not, is logged and recorded; only the graph
    depends on the result. *)
Lemma process_chunk_bookkeeping (i : nat) (chunk : TextChunk) (tr : Trace) (st : Pipeline) :
  let r := process_chunk py_upper keep_alnum env i chunk (tr, st) in
  extract_calls r.1 = extract_calls tr ++ [chunk_id chunk]
  ∧ _processed_chunks r.2 = _processed_chunks st ∪ {[ chunk_id chunk ]}
  ∧ _progress_file r.2 = _progress_file st.
Proof. cbn. by destruct (extract_from_chunk env i chunk). Qed.

(** The loop stops early only where a step of a periodic checkpoint
    raises. *)
Lemma process_chunks_halt (chunks : list TextChunk) (i : nat) (ts ts' : Trace * Pipeline)
    (h : Halt) :
  process_chunks py_upper keep_alnum env i chunks ts = (Some h, ts') →
  ∃ j, (i ≤ j < i + length chunks)%nat ∧ (S j mod 10 = 0)%nat
       ∧ periodic env j = Some h.
Proof.
  revert i ts. induction chunks as [|chunk rest IH]; intros i ts; [done|].
  cbn [process_chunks length].
  destruct (process_chunk _ _ _ i chunk ts) as [tr st].
  destruct (S i mod 10 =? 0)%nat eqn:Hmod.
  - pose proof (checkpoint_fst (periodic env i) (torn_write env) false (results tr) st)
      as Hf.
    destruct (checkpoint (periodic env i) _ _ _ st) as [[h'|] st'].
    + intros [= -> <-]. exists i. cbn in Hf. apply Nat.eqb_eq in Hmod.
      split; [lia|done].
    + intros H. destruct (IH _ _ H) as (j & Hj & Hm & Hp). exists j.
      split; [lia|done].
  - intros H. destruct (IH _ _ H) as (j & Hj & Hm & Hp). exists j.
    split; [lia|done].
Qed.

(** While no checkpoint step raises the loop goes through every unit, in
    order, whatever the extraction answers. *)
Lemma process_chunks_exhausts (chunks : list TextChunk) (i : nat) (tr : Trace)
    (st : Pipeline) :
  (∀ j, (i ≤ j < i + length chunks)%nat → periodic env j = None) →
  ∃ tr' st',
    process_chunks py_upper keep_alnum env i chunks (tr, st) = (None, (tr', st'))
    ∧ extract_calls tr' = extract_calls tr ++ (chunk_id <$> chunks)
    ∧ _processed_chunks st' = _processed_chunks st ∪ list_to_set (chunk_id <$> chunks).
Proof.
  revert i tr st. induction chunks as [|chunk rest IH]; intros i tr st Hok.
  - exists tr, st. split; [done|]. split; [by rewrite app_nil_r|].
    cbn. by rewrite (right_id_L ∅ (∪)).
  - cbn [process_chunks].
    pose proof (process_chunk_bookkeeping i chunk tr st) as (Hc & Hp & _).
    destruct (process_chunk _ _ _ i chunk (tr, st)) as [tr1 st1]. cbn in Hc, Hp.
    assert (Hnext : ∃ st2, _processed_chunks st2 = _processed_chunks st1
              ∧ (if (S i mod 10 =? 0)%nat
                 then match checkpoint (periodic env i) (torn_write env) false
                              (results tr1) st1 with
                      | (Some h, st) => (Some h, (tr1, st))
                      | (None, st) =>
                          process_chunks py_upper keep_alnum env (S i) rest (tr1, st)
                      end
                 else process_chunks py_upper keep_alnum env (S i) rest (tr1, st1))
                = process_chunks py_upper keep_alnum env (S i) rest (tr1, st2)).
    { destruct (S i mod 10 =? 0)%nat; [|by exists st1].
      rewrite (Hok i) by (cbn; lia). by exists (_save_progress st1). }
    destruct Hnext as (st2 & Hp2 & ->).
    destruct (IH (S i) tr1 st2) as (tr' & st' & Hrun & Hc' & Hp').
    { intros j Hj. apply Hok. cbn. lia. }
    exists tr', st'. split; [done|]. split.
    + rewrite Hc', Hc, <- app_assoc. done.
    + rewrite Hp', Hp2, Hp. cbn. by rewrite (assoc_L (∪)).
Qed.

(** The run stops before its input is exhausted only where a step of a
    checkpoint raises. *)
Lemma run_halts_at_checkpoint (clear_db resume : bool) (max_chunks : option Z)
    (start_from : Z) (chunks : list TextChunk) (st : Pipeline) (h : Halt)
    (ts : Trace * Pipeline) :
  run py_upper keep_alnum env clear_db resume max_chunks start_from chunks st
  = (Halted h, ts) →
  (∃ j, (S j mod 10 = 0)%nat ∧ periodic env j = Some h) ∨ final env = Some h.
Proof.
  unfold run. destruct (clear_db && clear_database_raises env); [done|].
  destruct chunks as [|c chunks]; [done|].
  set (st0 := if clear_db then _ else _).
  set (todo := match max_chunks with Some m => _ | None => _ end).
  destruct (process_chunks _ _ _ 0 todo _) as [[h'|] [tr st1]] eqn:E.
  - intros [= -> <-]. left.
    destruct (process_chunks_halt _ _ _ _ _ E) as (j & _ & Hm & Hp). by exists j.
  - pose proof (checkpoint_fst (final env) (torn_write env) true (results tr) st1) as Hf.
    destruct (checkpoint (final env) _ _ _ st1) as [[h'|] st2]; [|done].
    intros [= -> <-]. by right.
Qed.
End RunProperties.

(** C7.  A run with resume enabled (the store is not cleared and the
    progress file is loaded) over units whose ids are all in the persisted
    processed set hands no unit to the extraction collaborator, accumulates
    no result, leaves the graph as it was and ends with the processed set it
    loaded; whenever the progress file is written, and also when the run
    returns early for want of units, the file holds that same set. *)
Theorem resume_skips_processed_units (py_upper keep_alnum : string → string)
    (env : Env) (max_chunks : option Z) (start_from : Z)
    (chunks : list TextChunk) (st : Pipeline) (saved : list string) :
  _progress_file st = Saved saved →
  (∀ c, c ∈ chunks → chunk_id c ∈ saved) →
  let r := run py_upper keep_alnum env false true max_chunks start_from chunks st in
  extract_calls r.2.1 = []
  ∧ results r.2.1 = []
  ∧ graph r.2.2 = graph st
  ∧ _processed_chunks r.2.2 = list_to_set saved
  ∧ (r.1 ≠ Halted ProgressWriteFailed →
     ∃ l, _progress_file r.2.2 = Saved l
          ∧ list_to_set l =@{gset string} list_to_set saved).
Proof.
  intros Hfile Hall r. subst r. unfold run, _load_progress. rewrite Hfile.
  cbn [andb]. destruct chunks as [|c chunks].
  - cbn. do 4 (split; [done|]). intros _. by exists saved.
  - cbn [_processed_chunks andb].
    assert (Hne : list_to_set saved ≠@{gset string} ∅).
    { intros Hempty. assert (Hc : chunk_id c ∈ saved) by (apply Hall; left).
      apply (elem_of_list_to_set (C:=gset string)) in Hc. rewrite Hempty in Hc.
      by apply not_elem_of_empty in Hc. }
    rewrite (bool_decide_eq_false_2 _ Hne). cbn [negb].
    rewrite (filter_none (λ c0, chunk_id c0 ∉ (list_to_set saved : gset string))).
    2:{ intros q Hq Hnot. apply Hnot, elem_of_list_to_set. by apply Hall. }
    assert (Htodo : match max_chunks with
                    | Some m => py_slice_to m
                                  (if (0 <? start_from)%Z
                                   then py_slice_from start_from ([] : list TextChunk)
                                   else [])
                    | None => if (0 <? start_from)%Z
                              then py_slice_from start_from ([] : list TextChunk)
                              else []
                    end = []).
    { rewrite py_slice_from_nil.
      destruct max_chunks; destruct (0 <? start_from)%Z;
        by rewrite ?py_slice_to_nil. }
    rewrite Htodo. cbn [process_chunks results].
    set (st1 := {| _processed_chunks := list_to_set saved;
                   _progress_file := Saved saved; graph := graph st;
                   _results_file := _results_file st |}).
    pose proof (checkpoint_fst (final env) (torn_write env) true [] st1) as Hf.
    pose proof (checkpoint_memory (final env) (torn_write env) true [] st1) as [Hm Hg].
    pose proof (checkpoint_file (final env) (torn_write env) true [] st1) as Hfl.
    destruct (checkpoint (final env) _ _ _ st1) as [[h|] st2]; cbn in *.
    + do 4 (split; [done|]). intros Hh. apply Hfl. congruence.
    + do 4 (split; [done|]). intros _. apply Hfl. congruence.
Qed.

Lemma resume_skips_processed_units_witness :
  extract_calls
    (run id id healthy_env false true None 0
       [unit_of "chunk_0000"; unit_of "chunk_0001"] resumed_pipeline).2.1 = []
  ∧ graph
      (run id id healthy_env false true None 0
         [unit_of "chunk_0000"; unit_of "chunk_0001"] resumed_pipeline).2.2
    = with_persons [zhu_wen_first] empty_graph.
Proof.
  assert (Hall : ∀ c, c ∈ [unit_of "chunk_0000"; unit_of "chunk_0001"] →
                      chunk_id c ∈ ["chunk_0000"; "chunk_0001"]).
  { apply Forall_forall. repeat constructor. }
  destruct (resume_skips_processed_units id id healthy_env None 0
              [unit_of "chunk_0000"; unit_of "chunk_0001"] resumed_pipeline
              ["chunk_0000"; "chunk_0001"] eq_refl Hall) as (Hcalls & _ & Hgraph & _).
  split; [exact Hcalls|exact Hgraph].
Defined.

(** Without resume the same run extracts both units and writes the person. *)
Example no_resume_extracts_again :
  extract_calls
    (run id id healthy_env false false None 0
       [unit_of "chunk_0000"; unit_of "chunk_0001"] resumed_pipeline).2.1
  = ["chunk_0000"; "chunk_0001"]
  ∧ Person.uid
      <$> g_persons (graph
            (run id id healthy_env false false None 0
               [unit_of "chunk_0000"; unit_of "chunk_0001"] resumed_pipeline).2.2)
    = ["person_zhuwen"; "person_li_keyong"].
Proof. repeat split; vm_compute; reflexivity. Qed.

(** C8, the code at the failing input.  Every extraction fails and none of
    these failures stops the loop; no checkpoint file write fails (the
    progress of ten units is on disk); yet the run halts with the eleventh
    unit neither extracted nor recorded, on the exception of
    [get_graph_stats], the one call to the graph store of the loop that no
    [try] encloses. *)
Theorem graph_stats_failure_halts_run :
  (run id id stats_down_env false true None 0 eleven_units new_pipeline).1
  = Halted GraphStatsFailed
  ∧ extract_calls
      (run id id stats_down_env false true None 0 eleven_units new_pipeline).2.1
    = [ "chunk_0000"; "chunk_0001"; "chunk_0002"; "chunk_0003"; "chunk_0004";
        "chunk_0005"; "chunk_0006"; "chunk_0007"; "chunk_0008"; "chunk_0009" ]
  ∧ _progress_file
      (run id id stats_down_env false true None 0 eleven_units new_pipeline).2.2
    = Saved [ "chunk_0000"; "chunk_0001"; "chunk_0002"; "chunk_0003"; "chunk_0004";
              "chunk_0005"; "chunk_0006"; "chunk_0007"; "chunk_0008"; "chunk_0009" ]
  ∧ ("chunk_0010"
     ∉ _processed_chunks
         (run id id stats_down_env false true None 0 eleven_units new_pipeline).2.2)
  ∧ graph (run id id stats_down_env false true None 0 eleven_units new_pipeline).2.2
    = empty_graph.
Proof.
  split; [vm_compute; reflexivity|].
  split; [vm_compute; reflexivity|].
  split; [vm_compute; reflexivity|].
  split; [|vm_compute; reflexivity].
  apply (bool_decide_unpack _). vm_compute. exact I.
Qed.

(** With the statistics query answering, the same eleven failed extractions
    are gone through to the end. *)
Example failed_extractions_do_not_halt :
  (run id id failing_extraction_env false true None 0 eleven_units new_pipeline).1
  = Completed
  ∧ size (_processed_chunks
            (run id id failing_extraction_env false true None 0 eleven_units
               new_pipeline).2.2) = 11%nat
  ∧ graph (run id id failing_extraction_env false true None 0 eleven_units
             new_pipeline).2.2 = empty_graph.
Proof. repeat split; vm_compute; reflexivity. Qed.

(* ===================================================================== *)
(** * Further properties *)
(* ===================================================================== *)

(** ** The identity resolver: what a merge leaves behind *)

(** A stored person that carries a non-empty name makes both lookups by
    name answer. *)
Lemma carrier_resolves (n : string) (q : Person.t) (g : Graph) :
  n ≠ "" → q ∈ g_persons g → carries_name n q →
  ∃ r, r ∈ g_persons g ∧ carries_name n r
       ∧ resolve_person_uid n g = Some (Person.uid r)
       ∧ resolve_node_uid n g = Some (Person.uid r).
Proof.
  intros Hne%String.eqb_neq Hq Hc.
  destruct (filter_some (carries_name n) _ _ Hq Hc) as (r & rest & E & Hr & Hcr).
  exists r. unfold resolve_person_uid, resolve_node_uid, query_person_by_name.
  rewrite Hne, E. done.
Qed.

Lemma all_names_spec (person : Person.t) (n : string) :
  n ∈ Person.all_names person
  ↔ (n = Person.original_name person ∨ n ∈ Person.aliases person) ∧ n ≠ "".
Proof.
  unfold Person.all_names.
  rewrite elem_of_difference, elem_of_union, elem_of_list_to_set, !elem_of_singleton.
  tauto.
Qed.

(** X1.  After [merge_person], whatever branch it took, every name of the
    candidate is the original name or an alias of a stored person, so that
    [resolve_person_uid] and [resolve_node_uid] answer a person for it. *)
Theorem merged_names_resolve (person : Person.t) (g : Graph) (n : string) :
  n ∈ Person.all_names person →
  ∃ r, r ∈ g_persons (merge_person person g).2 ∧ carries_name n r
       ∧ resolve_person_uid n (merge_person person g).2 = Some (Person.uid r)
       ∧ resolve_node_uid n (merge_person person g).2 = Some (Person.uid r).
Proof.
  intros Hn. pose proof Hn as Hn'. apply all_names_spec in Hn' as [Hc Hne].
  assert (Hcreate : ∃ q, q ∈ g_persons (upsert_person person g) ∧ carries_name n q).
  { destruct (merge_node_target Person.uid Person.fresh Person.set_props
                Person_fresh_uid (Person.uid person) person (g_persons g)) as (old & _ & Hin).
    exists (Person.set_props old person). split; [exact Hin|].
    unfold carries_name. cbn. destruct Hc as [->|Hc]; [by left|by right]. }
  unfold merge_person.
  destruct (find_person_by_any_name _ _ _) as [existing|] eqn:Hfind.
  2:{ cbn [snd]. destruct Hcreate as (q & Hq & Hcq). by eapply carrier_resolves. }
  destruct (_ <? _)%nat; cbn [snd].
  { destruct Hcreate as (q & Hq & Hcq). by eapply carrier_resolves. }
  apply find_person_stored in Hfind.
  eapply carrier_resolves; [done|by apply update_person_target|].
  unfold carries_name. cbn.
  destruct (decide (n = Person.original_name existing)) as [->|Hno]; [by left|].
  right. apply elem_of_sorted, elem_of_elements, elem_of_proposed_aliases. tauto.
Qed.

Lemma merged_names_resolve_witness :
  ∃ r, r ∈ g_persons (merge_person zhu_wen_later
                        (with_persons [zhu_wen_first] empty_graph)).2
       ∧ carries_name "朱全忠" r
       ∧ resolve_person_uid "朱全忠"
           (merge_person zhu_wen_later (with_persons [zhu_wen_first] empty_graph)).2
         = Some (Person.uid r)
       ∧ resolve_node_uid "朱全忠"
           (merge_person zhu_wen_later (with_persons [zhu_wen_first] empty_graph)).2
         = Some (Person.uid r).
Proof.
  apply (merged_names_resolve zhu_wen_later).
  apply (bool_decide_unpack _). vm_compute. exact I.
Defined.

(** The alias list a merge stores. *)

Lemma sorted_elements_NoDup (X : gset string) : NoDup (sorted (elements X)).
Proof.
  unfold sorted. rewrite merge_sort_Permutation. apply NoDup_elements.
Qed.

Lemma length_sorted_elements (X : gset string) :
  length (sorted (elements X)) = size X.
Proof. unfold sorted. by rewrite merge_sort_Permutation. Qed.

(** X2.  When [merge_person] merges into a matched node, the alias list it
    stores on that node has no duplicates, is in ascending order, holds
    neither the empty string nor the node's canonical name, and has at most
    25 entries. *)
Theorem merged_alias_list_bounded (person existing : Person.t) (g : Graph) (n : Person.t) :
  find_person_by_any_name (Person.all_names person) true g = Some existing →
  (size (proposed_aliases existing (Person.all_names person)) ≤ ALIAS_CEILING)%nat →
  n ∈ g_persons (merge_person person g).2 →
  Person.uid n = Person.uid existing →
  NoDup (Person.aliases n)
  ∧ Sorted str_le (Person.aliases n)
  ∧ (length (Person.aliases n) ≤ ALIAS_CEILING)%nat
  ∧ ("" ∉ Person.aliases n)
  ∧ (Person.original_name existing ∉ Person.aliases n).
Proof.
  intros Hfind Hle. unfold merge_person. rewrite Hfind.
  pose proof Hle as Hle'. apply Nat.ltb_ge in Hle'. rewrite Hle'. cbn [snd].
  intros (n0 & Hn0 & ->)%update_person_elem Hu.
  destruct (String.eqb (Person.uid n0) (Person.uid existing)) eqn:E.
  2:{ apply String.eqb_neq in E. done. }
  cbn. split; [apply sorted_elements_NoDup|].
  split; [apply Sorted_merge_sort; apply _|].
  split; [by rewrite length_sorted_elements|].
  rewrite !elem_of_sorted, !elem_of_elements, !elem_of_proposed_aliases. tauto.
Qed.

Lemma merged_alias_list_bounded_witness :
  NoDup ["朱全忠"; "朱晃"]
  ∧ Sorted str_le ["朱全忠"; "朱晃"]
  ∧ (length ["朱全忠"; "朱晃"] ≤ ALIAS_CEILING)%nat
  ∧ ("" ∉ ["朱全忠"; "朱晃"])
  ∧ ("朱温" ∉ ["朱全忠"; "朱晃"]).
Proof.
  apply (merged_alias_list_bounded zhu_wen_later zhu_wen_first
           (with_persons [zhu_wen_first] empty_graph)
           (Person.mk "person_zhuwen" "朱温" ["朱全忠"; "朱晃"] "皇帝" ["后梁"]
                      (Some 852%Z) (Some 912%Z) (Some "被杀")
                      "后梁开国皇帝，原为黄巢部将")).
  - vm_compute. reflexivity.
  - apply Nat.leb_le. vm_compute. reflexivity.
  - apply (bool_decide_unpack _). vm_compute. exact I.
  - reflexivity.
Defined.

(** ** A merge applied twice *)

Lemma fromkeys_acc_elem (seen l : list string) (x : string) :
  x ∈ fromkeys_acc seen l ↔ x ∈ l ∧ x ∉ seen.
Proof.
  revert seen. induction l as [|y l IH]; intros seen; cbn.
  - rewrite elem_of_nil. tauto.
  - case_bool_decide as Hy.
    + rewrite IH, elem_of_cons. split; [tauto|].
      intros [[->|Hx] Hn]; [done|tauto].
    + rewrite !elem_of_cons, IH, elem_of_cons.
      destruct (decide (x = y)) as [->|Hxy]; tauto.
Qed.

Lemma fromkeys_acc_seen (seen seen' l : list string) :
  (∀ x, x ∈ seen ↔ x ∈ seen') → fromkeys_acc seen l = fromkeys_acc seen' l.
Proof.
  revert seen seen'. induction l as [|y l IH]; intros seen seen' H; cbn; [done|].
  rewrite (bool_decide_ext _ _ (H y)). case_bool_decide.
  - by apply IH.
  - f_equal. apply IH. intros x. rewrite !elem_of_cons, H. done.
Qed.

Lemma fromkeys_acc_app (seen l m : list string) :
  fromkeys_acc seen (l ++ m) = fromkeys_acc seen l ++ fromkeys_acc (l ++ seen) m.
Proof.
  revert seen. induction l as [|y l IH]; intros seen; cbn; [done|].
  case_bool_decide as Hy.
  - rewrite IH. f_equal. apply fromkeys_acc_seen. intros x.
    rewrite !elem_of_cons, !elem_of_app.
    split; [tauto|]. intros [->|?]; tauto.
  - rewrite IH. cbn. do 2 f_equal. apply fromkeys_acc_seen. intros x.
    rewrite !elem_of_cons, !elem_of_app, !elem_of_cons. tauto.
Qed.

Lemma fromkeys_acc_all_seen (seen l : list string) :
  (∀ x, x ∈ l → x ∈ seen) → fromkeys_acc seen l = [].
Proof.
  induction l as [|y l IH]; intros H; cbn; [done|].
  rewrite bool_decide_eq_true_2 by (apply H; left).
  apply IH. intros x Hx. apply H. by right.
Qed.

Lemma fromkeys_acc_idem (seen l : list string) :
  fromkeys_acc seen (fromkeys_acc seen l) = fromkeys_acc seen l.
Proof.
  revert seen. induction l as [|y l IH]; intros seen; cbn; [done|].
  case_bool_decide as Hy; [apply IH|].
  cbn. rewrite (bool_decide_eq_false_2 _ Hy). f_equal. apply IH.
Qed.

(** Merging the same list of polities into the merged one changes
    nothing. *)
Lemma dict_fromkeys_again (a b : list string) :
  dict_fromkeys (dict_fromkeys (a ++ b) ++ b) = dict_fromkeys (a ++ b).
Proof.
  unfold dict_fromkeys. rewrite fromkeys_acc_app, fromkeys_acc_idem.
  rewrite (fromkeys_acc_all_seen _ b); [by rewrite app_nil_r|].
  intros x Hx. rewrite elem_of_app. left.
  apply fromkeys_acc_elem. rewrite elem_of_app, elem_of_nil. tauto.
Qed.

(** The node a merge produces absorbs the same candidate again. *)
Lemma merged_node_again (existing person : Person.t) (X : gset string) :
  let n := merged_node existing person X existing in
  merged_node n person X n = n.
Proof.
  destruct existing as [u o a r l b d c de], person as [u' o' a' r' l' b' d' c' de'].
  unfold merged_node. cbn -[Nat.ltb].
  f_equal.
  - destruct (String.eqb r' "") eqn:E1, (String.eqb r' "其他") eqn:E2; cbn; try done.
    destruct (String.eqb r "其他" || String.eqb r "") eqn:E3; cbn; [|by rewrite E3].
    by rewrite E1, E2.
  - apply dict_fromkeys_again.
  - destruct (truthy_int b') eqn:E1; cbn; [|done].
    destruct (truthy_int b) eqn:E2; cbn; [by rewrite E2|by rewrite E1].
  - destruct (truthy_int d') eqn:E1; cbn; [|done].
    destruct (truthy_int d) eqn:E2; cbn; [by rewrite E2|by rewrite E1].
  - destruct (truthy_str c') eqn:E1; cbn; [|done].
    destruct (truthy_str c) eqn:E2; cbn; [by rewrite E2|by rewrite E1].
  - destruct (py_len de <? py_len de')%nat eqn:E1; cbv beta iota.
    + by rewrite Nat.ltb_irrefl.
    + by rewrite E1.
Qed.

(** With unique uids a stored node splits the store in two parts that do
    not hold its uid. *)
Lemma unique_uids_split (g : Graph) (n : Person.t) :
  unique_uids g → n ∈ g_persons g →
  ∃ l1 l2, g_persons g = l1 ++ n :: l2
           ∧ (∀ q, q ∈ l1 → Person.uid q ≠ Person.uid n)
           ∧ (∀ q, q ∈ l2 → Person.uid q ≠ Person.uid n).
Proof.
  intros Hnd (l1 & l2 & E)%list_elem_of_split. exists l1, l2. split; [done|].
  unfold unique_uids in Hnd. rewrite E, fmap_app, fmap_cons in Hnd.
  apply NoDup_app in Hnd as (_ & H1 & H2). apply NoDup_cons in H2 as [H2 _].
  split.
  - intros q Hq Hu. apply (H1 (Person.uid q)).
    + apply list_elem_of_fmap. by exists q.
    + rewrite Hu. left.
  - intros q Hq Hu. apply H2. rewrite <- Hu. apply list_elem_of_fmap. by exists q.
Qed.

Lemma map_update_other (f : Person.t → Person.t) (u : string) (l : list Person.t) :
  (∀ q, q ∈ l → Person.uid q ≠ u) →
  map (λ n, if String.eqb (Person.uid n) u then f n else n) l = l.
Proof.
  induction l as [|q l IH]; intros H; cbn; [done|].
  assert (Hq : String.eqb (Person.uid q) u = false).
  { apply String.eqb_neq, H. left. }
  rewrite Hq. f_equal. apply IH. intros q' Hq'. apply H. by right.
Qed.

Lemma update_person_split (existing person : Person.t) (X : gset string) (g : Graph)
    (l1 l2 : list Person.t) :
  g_persons g = l1 ++ existing :: l2 →
  (∀ q, q ∈ l1 → Person.uid q ≠ Person.uid existing) →
  (∀ q, q ∈ l2 → Person.uid q ≠ Person.uid existing) →
  g_persons (update_person existing person X g)
  = l1 ++ merged_node existing person X existing :: l2.
Proof.
  intros E H1 H2. cbn. rewrite E, map_app, map_cons, String.eqb_refl.
  by rewrite !map_update_other.
Qed.

Lemma head_filter_split {A} (P : A → Prop) `{!∀ x, Decision (P x)} (l1 l2 : list A) (p : A) :
  head (filter P (l1 ++ p :: l2)) = Some p → p ∉ l1 →
  (∀ q, q ∈ l1 → ¬ P q) ∧ P p.
Proof.
  intros Hh Hp.
  assert (Hnone : ∀ q, q ∈ l1 → ¬ P q).
  { intros q Hq HP.
    destruct (filter_some P l1 q Hq HP) as (r & rest & E & Hr & _).
    rewrite filter_app, E in Hh. injection Hh as ->. done. }
  split; [done|].
  rewrite filter_app, (filter_none P l1 Hnone), app_nil_l in Hh.
  destruct (decide (P p)) as [|Hn]; [done|].
  rewrite filter_cons_False in Hh by done.
  apply head_Some_elem_of, list_elem_of_filter in Hh. tauto.
Qed.

(** The queries of the lookup on a store whose matched node was merged. *)
Lemma find_person_after_merge (person existing : Person.t) (g : Graph) :
  unique_uids g →
  find_person_by_any_name (Person.all_names person) true g = Some existing →
  let X := proposed_aliases existing (Person.all_names person) in
  find_person_by_any_name (Person.all_names person) true
    (update_person existing person X g)
  = Some (merged_node existing person X existing).
Proof.
  intros Hnd Hfind X.
  pose proof (find_person_stored _ _ _ _ Hfind) as Hstored.
  destruct (unique_uids_split g existing Hnd Hstored) as (l1 & l2 & E & H1 & H2).
  assert (Hnotin : existing ∉ l1) by (intros Hin; by apply (H1 _ Hin)).
  pose proof (update_person_split existing person X g l1 l2 E H1 H2) as E'.
  set (S := _filter_ambiguous_names (Person.all_names person)) in *.
  rewrite find_person_filtered in Hfind. rewrite find_person_filtered.
  fold S in Hfind. fold S.
  unfold query_exact, query_alias in *. rewrite E'. rewrite E in Hfind.
  destruct (filter (λ p, Person.original_name p ∈ S) (l1 ++ existing :: l2))
    as [|r rest] eqn:Ex.
  - (* alias match *)
    destruct (head_filter_split _ _ _ _ Hfind Hnotin) as [Hnone Hex].
    assert (Hno : ∀ q, q ∈ l1 ++ existing :: l2 → Person.original_name q ∉ S).
    { intros q Hq HS.
      destruct (filter_some (λ p, Person.original_name p ∈ S) _ q Hq HS)
        as (? & ? & E2 & _). congruence. }
    rewrite (filter_none (λ p, Person.original_name p ∈ S)).
    2:{ intros q Hq. rewrite elem_of_app, elem_of_cons in Hq.
        destruct Hq as [Hq|[->|Hq]].
        - apply Hno. rewrite elem_of_app. by left.
        - cbn. apply Hno. rewrite elem_of_app. right. left.
        - apply Hno. rewrite elem_of_app. right. by right. }
    rewrite filter_first; [done|done|].
    apply Exists_exists in Hex as (a & Ha & HaS).
    apply Exists_exists. exists a. split; [|done]. cbn.
    apply elem_of_sorted, elem_of_elements, elem_of_proposed_aliases.
    assert (Hsp : is_specific a) by (apply filter_ambiguous_subseteq in HaS; tauto).
    split; [by left|]. split; [|apply Hsp].
    intros ->. apply (Hno existing); [|done].
    rewrite elem_of_app. right. left.
  - (* exact match *)
    injection Hfind as ->.
    assert (Hrin : existing ∈ filter (λ p, Person.original_name p ∈ S)
                                (l1 ++ existing :: l2)) by (rewrite Ex; left).
    assert (Hh : head (filter (λ p, Person.original_name p ∈ S)
                          (l1 ++ existing :: l2)) = Some existing) by (by rewrite Ex).
    destruct (head_filter_split _ _ _ _ Hh Hnotin) as [Hnone Hex].
    rewrite filter_first; [done|done|]. done.
Qed.

(** X3.  In a store with unique uids, a candidate that was merged into a matched
    node is, when it is resolved again, merged into the same node and changes
    nothing: the same uid is returned and the store is the one the first call
    left. *)
Theorem merge_person_replay (person existing : Person.t) (g : Graph) :
  unique_uids g →
  find_person_by_any_name (Person.all_names person) true g = Some existing →
  (size (proposed_aliases existing (Person.all_names person)) ≤ ALIAS_CEILING)%nat →
  merge_person person (merge_person person g).2 = merge_person person g.
Proof.
  intros Hnd Hfind Hle.
  pose proof (find_person_after_merge person existing g Hnd Hfind) as Hfind'.
  cbv zeta in Hfind'.
  pose proof (find_person_stored _ _ _ _ Hfind) as Hstored.
  destruct (unique_uids_split g existing Hnd Hstored) as (l1 & l2 & E & H1 & H2).
  set (X := proposed_aliases existing (Person.all_names person)) in *.
  pose proof (update_person_split existing person X g l1 l2 E H1 H2) as E'.
  assert (HX : proposed_aliases (merged_node existing person X existing)
                 (Person.all_names person) = X).
  { apply set_eq. intros x. rewrite elem_of_proposed_aliases. cbn.
    rewrite elem_of_sorted, elem_of_elements. subst X.
    rewrite elem_of_proposed_aliases.
    split; [|tauto]. intros [[H|[H|H]] [Hn Hne]]; tauto. }
  apply Nat.ltb_ge in Hle.
  unfold merge_person at 2 3. rewrite Hfind. fold X. rewrite Hle. cbn [snd].
  unfold merge_person. rewrite Hfind', HX, Hle. cbn [Person.uid merged_node].
  f_equal.
  destruct g as [ps ds es pls eds]. unfold update_person, with_persons in *.
  cbn [g_persons g_dynasties g_events g_places g_edges] in *.
  f_equal. rewrite E'.
  rewrite map_app, map_cons. cbn [Person.uid merged_node].
  rewrite String.eqb_refl, !map_update_other by done.
  by rewrite merged_node_again.
Qed.

Lemma merge_person_replay_witness :
  merge_person zhu_wen_later
    (merge_person zhu_wen_later (with_persons [zhu_wen_first] empty_graph)).2
  = merge_person zhu_wen_later (with_persons [zhu_wen_first] empty_graph).
Proof.
  apply (merge_person_replay zhu_wen_later zhu_wen_first).
  - apply (bool_decide_unpack _). vm_compute. exact I.
  - vm_compute. reflexivity.
  - apply Nat.leb_le. vm_compute. reflexivity.
Defined.

(** ** Edges written twice *)

Section MergeEdgesReplay.
Variable set : Edge → Edge.
Hypothesis set_src : ∀ e, e_src (set e) = e_src e.
Hypothesis set_dst : ∀ e, e_dst (set e) = e_dst e.
Hypothesis set_type : ∀ e, e_type (set e) = e_type e.
Hypothesis set_set : ∀ e, set (set e) = set e.

Lemma merge_edge_settled (ty : string) (ab : NodeRef * NodeRef) (l : list Edge) :
  Exists (is_edge ab.1 ab.2 ty) l →
  (∀ e, e ∈ l → is_edge ab.1 ab.2 ty e → set e = e) →
  merge_edge set ty ab l = l.
Proof.
  intros Hex Hfix. unfold merge_edge. rewrite bool_decide_eq_true_2 by done.
  rewrite <- (map_id l) at 2. apply map_ext_in. intros e He%list_elem_of_In.
  case_bool_decide; [by apply Hfix|done].
Qed.

Lemma foldl_merge_edge_settled (ty : string) (pairs todo : list (NodeRef * NodeRef))
    (l : list Edge) :
  settled set ty pairs l → (∀ ab, ab ∈ todo → ab ∈ pairs) →
  foldl (λ acc ab, merge_edge set ty ab acc) l todo = l.
Proof.
  intros Hs. induction todo as [|ab todo IH]; intros Hsub; [done|].
  cbn. destruct (Hs ab) as [Hex Hfix]; [apply Hsub; left|].
  rewrite merge_edge_settled by done. apply IH. intros ? ?. apply Hsub. by right.
Qed.

Lemma merge_edge_settles (ty : string) (done : list (NodeRef * NodeRef))
    (ab : NodeRef * NodeRef) (l : list Edge) :
  settled set ty done l → settled set ty (done ++ [ab]) (merge_edge set ty ab l).
Proof.
  intros Hs ab' Hab'. split.
  - apply elem_of_app in Hab' as [Hab'|Hab'%list_elem_of_singleton].
    + destruct (Hs ab' Hab') as [Hex _].
      apply Exists_exists in Hex as (e & He & Hab).
      destruct (merge_edge_keeps set (λ _, True) set_src set_dst set_type
                  ltac:(done) ty ty ab'.1 ab'.2 ab l) as (e' & He' & Hab'' & _).
      { by exists e. }
      apply Exists_exists. by exists e'.
    + subst ab'.
      destruct (merge_edge_adds set (λ _, True) set_src set_dst set_type
                  ltac:(done) ty ab l) as (e' & He' & Hab'' & _).
      apply Exists_exists. by exists e'.
  - intros e' He' Hm. unfold merge_edge in He'.
    case_bool_decide as Hex.
    + apply list_elem_of_fmap in He' as (e & -> & He).
      case_bool_decide as Hab; [apply set_set|].
      apply elem_of_app in Hab' as [Hab'|Hab'%list_elem_of_singleton].
      * destruct (Hs ab' Hab') as [_ Hfix]. by apply Hfix.
      * subst ab'. done.
    + apply elem_of_app in He' as [He'|He'%list_elem_of_singleton].
      * apply elem_of_app in Hab' as [Hab'|Hab'%list_elem_of_singleton].
        -- destruct (Hs ab' Hab') as [_ Hfix]. by apply Hfix.
        -- subst ab'. exfalso. apply Hex. apply Exists_exists. by exists e'.
      * subst e'. apply set_set.
Qed.

Lemma foldl_merge_edge_settles (ty : string) (done todo : list (NodeRef * NodeRef))
    (l : list Edge) :
  settled set ty done l →
  settled set ty (done ++ todo) (foldl (λ acc ab, merge_edge set ty ab acc) l todo).
Proof.
  revert done l. induction todo as [|ab todo IH]; intros done l Hs.
  - by rewrite app_nil_r.
  - cbn. rewrite (cons_middle ab done todo), (assoc_L (++) done [ab] todo). apply IH.
    by apply merge_edge_settles.
Qed.

(** A [MERGE] of edges that is run again finds every edge it wrote and
    writes the same properties on it. *)
Lemma foldl_merge_edge_replay (ty : string) (pairs : list (NodeRef * NodeRef))
    (l : list Edge) :
  let l' := foldl (λ acc ab, merge_edge set ty ab acc) l pairs in
  foldl (λ acc ab, merge_edge set ty ab acc) l' pairs = l'.
Proof.
  intros l'. apply (foldl_merge_edge_settled ty pairs); [|done].
  apply (foldl_merge_edge_settles ty [] pairs l). intros ab Hab.
  by apply elem_of_nil in Hab.
Qed.
End MergeEdgesReplay.

Section RelationReplay.
Variable py_upper : string → string.
Variable keep_alnum : string → string.

(** X4.  A relation that is written again changes nothing: the call answers as
    the first time and the store, the edge list included, is the one the
    first call left.  No second edge appears between the two endpoints. *)
Theorem create_relation_replay (relation : Relation.t) (g : Graph) :
  create_relation_by_name py_upper keep_alnum relation
    (create_relation_by_name py_upper keep_alnum relation g).2
  = create_relation_by_name py_upper keep_alnum relation g.
Proof.
  unfold create_relation_by_name.
  destruct (negb (truthy_str (resolve_node_uid (Relation.source relation) g))) eqn:Es.
  { cbn [snd]. by rewrite Es. }
  destruct (negb (truthy_str (resolve_node_uid (Relation.target relation) g))) eqn:Et.
  { cbn [snd]. by rewrite Es, Et. }
  cbn [snd].
  change (resolve_node_uid ?n (with_edges ?l g)) with (resolve_node_uid n g).
  rewrite Es, Et. f_equal.
  change (match_uid ?u (with_edges ?l g)) with (match_uid u g).
  unfold with_edges. cbn [g_persons g_dynasties g_events g_places g_edges].
  f_equal. unfold merge_edges. apply foldl_merge_edge_replay; try done.
  intros e. unfold set_relation_props. cbn. f_equal.
  by destruct (Relation.year relation).
Qed.
End RelationReplay.

(** X5.  A participant that is linked again changes nothing. *)
Theorem link_event_participant_replay (event_uid person_name role : string) (g : Graph) :
  link_event_participant event_uid person_name role
    (link_event_participant event_uid person_name role g)
  = link_event_participant event_uid person_name role g.
Proof.
  unfold link_event_participant.
  set (pu := if truthy_str (resolve_person_uid person_name g) then _ else _).
  destruct pu as [u|] eqn:Epu; subst pu.
  2:{ by rewrite Epu. }
  change (resolve_person_uid ?n (with_edges ?l g)) with (resolve_person_uid n g).
  change (match_label_uid ?a ?u (with_edges ?l g)) with (match_label_uid a u g).
  rewrite Epu.
  unfold with_edges. cbn [g_persons g_dynasties g_events g_places g_edges].
  f_equal. unfold merge_edges. apply foldl_merge_edge_replay; done.
Qed.

(** ** The shape of the store *)

Lemma foldl_preserves {A B} (P : B → Prop) (f : B → A → B) (l : list A) (b : B) :
  (∀ b a, P b → P (f b a)) → P b → P (foldl f b l).
Proof.
  intros Hf. revert b. induction l as [|a l IH]; intros b Hb; [done|].
  cbn. by apply IH, Hf.
Qed.

Lemma elem_of_match_label_uid (r : NodeRef) (l : Label) (u : string) (g : Graph) :
  r ∈ match_label_uid l u g → r = (l, u) ∧ node_exists g r.
Proof.
  unfold node_exists.
  destruct l; cbn; intros (n & -> & [Hu Hn]%list_elem_of_filter)%list_elem_of_fmap;
    (split; [by rewrite Hu|]); cbn; apply list_elem_of_fmap; by exists n.
Qed.

Lemma elem_of_match_uid (r : NodeRef) (u : string) (g : Graph) :
  r ∈ match_uid u g → node_exists g r.
Proof.
  unfold match_uid. rewrite !elem_of_app.
  intros [H|[H|[H|H]]]; by apply elem_of_match_label_uid in H as [_ H].
Qed.

Section EdgeEndpoints.
Variable set : Edge → Edge.
Variable P : NodeRef → Prop.
Hypothesis set_src : ∀ e, e_src (set e) = e_src e.
Hypothesis set_dst : ∀ e, e_dst (set e) = e_dst e.

Lemma merge_edge_endpoints (ty : string) (ab : NodeRef * NodeRef) (l : list Edge) :
  P ab.1 → P ab.2 →
  Forall (λ e, P (e_src e) ∧ P (e_dst e)) l →
  Forall (λ e, P (e_src e) ∧ P (e_dst e)) (merge_edge set ty ab l).
Proof.
  intros Ha Hb Hl. unfold merge_edge. case_bool_decide.
  - apply Forall_fmap. eapply Forall_impl; [exact Hl|].
    intros e He. cbn. case_bool_decide; [|done]. by rewrite set_src, set_dst.
  - apply Forall_app. split; [done|]. apply Forall_singleton.
    by rewrite set_src, set_dst.
Qed.

Lemma foldl_merge_edge_endpoints (ty : string) (pairs : list (NodeRef * NodeRef))
    (l : list Edge) :
  (∀ ab, ab ∈ pairs → P ab.1 ∧ P ab.2) →
  Forall (λ e, P (e_src e) ∧ P (e_dst e)) l →
  Forall (λ e, P (e_src e) ∧ P (e_dst e))
         (foldl (λ acc ab, merge_edge set ty ab acc) l pairs).
Proof.
  revert l. induction pairs as [|ab pairs IH]; intros l Hp Hl; [done|].
  cbn. apply IH.
  - intros ? ?. apply Hp. by right.
  - destruct (Hp ab) as [Ha Hb]; [left|]. by apply merge_edge_endpoints.
Qed.

Lemma merge_edges_endpoints (ty : string) (srcs dsts : list NodeRef) (l : list Edge) :
  (∀ a, a ∈ srcs → P a) → (∀ b, b ∈ dsts → P b) →
  Forall (λ e, P (e_src e) ∧ P (e_dst e)) l →
  Forall (λ e, P (e_src e) ∧ P (e_dst e)) (merge_edges set ty srcs dsts l).
Proof.
  intros Hs Hd. apply foldl_merge_edge_endpoints.
  intros [a b] (a' & (b' & Hab%list_elem_of_singleton & Hb)%list_elem_of_bind & Ha)%list_elem_of_bind.
  injection Hab as -> ->. cbn. split; [by apply Hs|by apply Hd].
Qed.
End EdgeEndpoints.

(** A write that leaves the nodes alone and joins stored nodes only. *)
Lemma well_formed_edges (g : Graph) (l : list Edge) :
  well_formed g →
  Forall (λ e, node_exists g (e_src e) ∧ node_exists g (e_dst e)) l →
  well_formed (with_edges l g).
Proof. intros (H1 & H2 & H3 & H4 & _) Hl. by repeat split. Qed.

(** A write that keeps the edges, keeps every stored uid, and keeps the
    uids of each label apart. *)
Lemma well_formed_nodes (g g' : Graph) :
  well_formed g →
  g_edges g' = g_edges g →
  (∀ l, NoDup (uids_of l g) → NoDup (uids_of l g')) →
  (∀ l u, u ∈ uids_of l g → u ∈ uids_of l g') →
  well_formed g'.
Proof.
  intros (H1 & H2 & H3 & H4 & He) Hed Hnd Hin.
  split; [by apply (Hnd LPerson)|]. split; [by apply (Hnd LDynasty)|].
  split; [by apply (Hnd LEvent)|]. split; [by apply (Hnd LPlace)|].
  rewrite Hed. eapply Forall_impl; [exact He|].
  intros e [Hs Hd]. unfold node_exists in *. split; by apply Hin.
Qed.

Section MergeNodeGrows.
Context {A : Type} (get_uid : A → string) (fresh : string → A) (set_props : A → A → A).
Hypothesis set_props_uid : ∀ old props, get_uid (set_props old props) = get_uid old.
Hypothesis fresh_uid : ∀ u, get_uid (fresh u) = u.

Lemma merge_node_keeps_uids (u v : string) (props : A) (l : list A) :
  v ∈ get_uid <$> l → v ∈ get_uid <$> merge_node get_uid fresh set_props u props l.
Proof.
  rewrite (merge_node_uids get_uid fresh set_props set_props_uid fresh_uid).
  destruct (has_uid get_uid u l); [done|]. rewrite elem_of_app. by left.
Qed.
End MergeNodeGrows.

Lemma upsert_person_well_formed (p : Person.t) (g : Graph) :
  well_formed g → well_formed (upsert_person p g).
Proof.
  intros H. apply (well_formed_nodes g); [done|done| |].
  - intros []; cbn; try done. by apply merge_node_NoDup.
  - intros [] u; cbn; try done. by apply merge_node_keeps_uids.
Qed.

Lemma upsert_dynasty_well_formed (d : Dynasty.t) (g : Graph) :
  well_formed g → well_formed (upsert_dynasty d g).
Proof.
  intros H. apply (well_formed_nodes g); [done|done| |].
  - intros []; cbn; try done. by apply merge_node_NoDup.
  - intros [] u; cbn; try done. by apply merge_node_keeps_uids.
Qed.

Lemma upsert_event_well_formed (e : Event.t) (g : Graph) :
  well_formed g → well_formed (upsert_event e g).
Proof.
  intros H. apply (well_formed_nodes g); [done|done| |].
  - intros []; cbn; try done. by apply merge_node_NoDup.
  - intros [] u; cbn; try done. by apply merge_node_keeps_uids.
Qed.

Lemma upsert_place_well_formed (pl : Place.t) (g : Graph) :
  well_formed g → well_formed (upsert_place pl g).
Proof.
  intros H. apply (well_formed_nodes g); [done|done| |].
  - intros []; cbn; try done. by apply merge_node_NoDup.
  - intros [] u; cbn; try done. by apply merge_node_keeps_uids.
Qed.

Lemma merge_person_well_formed (p : Person.t) (g : Graph) :
  well_formed g → well_formed (merge_person p g).2.
Proof.
  intros H. unfold merge_person.
  destruct (find_person_by_any_name _ _ _) as [existing|];
    [|by apply upsert_person_well_formed].
  destruct (_ <? _)%nat; cbn [snd]; [by apply upsert_person_well_formed|].
  apply (well_formed_nodes g); [done|done| |].
  - intros []; try done. unfold uids_of. by rewrite update_person_uids.
  - intros [] u; try done. unfold uids_of. by rewrite update_person_uids.
Qed.

Lemma link_event_participant_well_formed (event_uid person_name role : string)
    (g : Graph) :
  well_formed g → well_formed (link_event_participant event_uid person_name role g).
Proof.
  intros H. unfold link_event_participant.
  destruct (if truthy_str _ then _ else _) as [pu|]; [|done].
  apply well_formed_edges; [done|].
  apply merge_edges_endpoints; try done.
  - intros a Ha. by apply elem_of_match_label_uid in Ha as [_ Ha].
  - intros a Ha. by apply elem_of_match_label_uid in Ha as [_ Ha].
  - by destruct H as (_ & _ & _ & _ & H).
Qed.

Lemma write_event_well_formed (event : Event.t) (g : Graph) :
  well_formed g → well_formed (write_event event g).
Proof.
  intros H. unfold write_event. apply foldl_preserves.
  - intros ? ?. apply link_event_participant_well_formed.
  - by apply upsert_event_well_formed.
Qed.

Section StoreShape.
Variable py_upper : string → string.
Variable keep_alnum : string → string.

Lemma create_relation_well_formed (relation : Relation.t) (g : Graph) :
  well_formed g →
  well_formed (create_relation_by_name py_upper keep_alnum relation g).2.
Proof.
  intros H. unfold create_relation_by_name.
  destruct (negb _); [done|]. destruct (negb _); [done|]. cbn [snd].
  apply well_formed_edges; [done|].
  apply merge_edges_endpoints; try done.
  - intros a. apply elem_of_match_uid.
  - intros a. apply elem_of_match_uid.
  - by destruct H as (_ & _ & _ & _ & H).
Qed.

(** Writing one extraction result keeps the store well formed. *)
Lemma write_result_well_formed (result : ExtractionResult) (g : Graph) :
  well_formed g →
  well_formed (_write_result_to_neo4j py_upper keep_alnum result g).
Proof.
  intros H. unfold _write_result_to_neo4j.
  apply foldl_preserves; [intros ? ?; apply create_relation_well_formed|].
  apply foldl_preserves; [intros ? ?; apply write_event_well_formed|].
  apply foldl_preserves; [intros ? ?; apply merge_person_well_formed|].
  apply foldl_preserves; [intros ? ?; apply upsert_place_well_formed|].
  apply foldl_preserves; [intros ? ?; apply upsert_dynasty_well_formed|].
  done.
Qed.

Variable env : Env.

Lemma process_chunk_well_formed (i : nat) (chunk : TextChunk) (ts : Trace * Pipeline) :
  well_formed (graph ts.2) →
  well_formed (graph (process_chunk py_upper keep_alnum env i chunk ts).2).
Proof.
  destruct ts as [tr st]. unfold process_chunk. cbn [snd].
  destruct (extract_from_chunk env i chunk); cbn; [|done].
  apply write_result_well_formed.
Qed.

Lemma checkpoint_graph (fail : option Halt) (torn last : bool)
    (rs : list ExtractionResult) (st : Pipeline) :
  graph (checkpoint fail torn last rs st).2 = graph st.
Proof. unfold checkpoint. by destruct fail as [[]|], last. Qed.

Lemma process_chunks_well_formed (chunks : list TextChunk) (i : nat)
    (ts : Trace * Pipeline) :
  well_formed (graph ts.2) →
  well_formed (graph (process_chunks py_upper keep_alnum env i chunks ts).2.2).
Proof.
  revert i ts. induction chunks as [|chunk rest IH]; intros i ts H; [done|].
  cbn [process_chunks].
  pose proof (process_chunk_well_formed i chunk ts H) as H'.
  destruct (process_chunk py_upper keep_alnum env i chunk ts) as [tr st].
  destruct (S i mod 10 =? 0)%nat; [|by apply IH].
  pose proof (checkpoint_graph (periodic env i) (torn_write env) false (results tr) st)
    as Hg.
  destruct (checkpoint (periodic env i) _ _ _ st) as [[h|] st'].
  - cbn in *. by rewrite Hg.
  - apply IH. cbn in *. by rewrite Hg.
Qed.

(** X6.  The ingestion keeps the store well formed.  Whatever the extraction
    collaborator returns and wherever the run stops, a store in which the
    uids of each label are pairwise different and every edge joins two stored
    nodes is in that state again when [run] returns: no write of the loop
    duplicates a uid or leaves an edge without one of its end nodes. *)
Theorem run_keeps_store_well_formed (clear_db resume : bool) (max_chunks : option Z)
    (start_from : Z) (chunks : list TextChunk) (st : Pipeline) :
  well_formed (graph st) →
  well_formed
    (graph (run py_upper keep_alnum env clear_db resume max_chunks start_from
              chunks st).2.2).
Proof.
  intros H. unfold run.
  destruct (clear_db && clear_database_raises env); [done|].
  set (st0 := if clear_db then _ else _).
  assert (H0 : well_formed (graph st0)).
  { subst st0. destruct clear_db.
    - cbn. repeat split; constructor.
    - destruct resume; [|done]. unfold _load_progress.
      by destruct (_progress_file st). }
  clearbody st0. destruct chunks as [|c chunks]; [done|].
  set (sel := match max_chunks with Some m => _ | None => _ end).
  clearbody sel.
  pose proof (process_chunks_well_formed sel 0 (Build_Trace [] [], st0) H0) as H1.
  destruct (process_chunks py_upper keep_alnum env 0 sel _) as [[h|] [tr st1]];
    [done|].
  pose proof (checkpoint_graph (final env) (torn_write env) true (results tr) st1) as Hg.
  destruct (checkpoint (final env) _ _ _ st1) as [[h|] st2]; cbn in *; by rewrite Hg.
Qed.
End StoreShape.

Lemma run_keeps_store_well_formed_witness :
  well_formed
    (graph (run id id healthy_env false true None 0 eleven_units resumed_pipeline).2.2).
Proof.
  apply (run_keeps_store_well_formed id id healthy_env).
  apply (bool_decide_unpack _). vm_compute. exact I.
Defined.

(** ** The founder of a polity and the events of a person *)

Lemma resolve_person_uid_some (name u : string) (g : Graph) :
  resolve_person_uid name g = Some u →
  name ≠ "" ∧ ∃ p, p ∈ g_persons g ∧ carries_name name p ∧ Person.uid p = u.
Proof.
  unfold resolve_person_uid, query_person_by_name.
  destruct (String.eqb name "") eqn:E; [done|]. apply String.eqb_neq in E.
  destruct (head _) as [p|] eqn:Eh; [|done]. intros [= <-].
  apply head_Some_elem_of, list_elem_of_filter in Eh. split; [done|].
  exists p. tauto.
Qed.

Lemma merge_edge_id_elem (ty : string) (ab : NodeRef * NodeRef) (l : list Edge) (e : Edge) :
  e ∈ merge_edge id ty ab l →
  e ∈ l ∨ e = Build_Edge ab.1 ab.2 ty None None None.
Proof.
  unfold merge_edge. case_bool_decide.
  - intros (e' & -> & He')%list_elem_of_fmap. left. by case_bool_decide.
  - rewrite elem_of_app, list_elem_of_singleton. tauto.
Qed.

Lemma foldl_merge_edge_id_elem (ty : string) (pairs : list (NodeRef * NodeRef))
    (l : list Edge) (e : Edge) :
  e ∈ foldl (λ acc ab, merge_edge id ty ab acc) l pairs →
  e ∈ l ∨ ∃ ab, ab ∈ pairs ∧ e = Build_Edge ab.1 ab.2 ty None None None.
Proof.
  revert l. induction pairs as [|ab pairs IH]; intros l; [by left|].
  cbn. intros [[H|H]%merge_edge_id_elem|(ab' & Hab' & H)]%IH.
  - by left.
  - right. exists ab. split; [left|done].
  - right. exists ab'. split; [by right|done].
Qed.

Section MergeEdgePairs.
Variable set : Edge → Edge.
Hypothesis set_src : ∀ e, e_src (set e) = e_src e.
Hypothesis set_dst : ∀ e, e_dst (set e) = e_dst e.
Hypothesis set_type : ∀ e, e_type (set e) = e_type e.

(** Every pair a [MERGE] is run on is joined afterwards. *)
Lemma foldl_merge_edge_joined (ty : string) (pairs : list (NodeRef * NodeRef))
    (l : list Edge) (a b : NodeRef) :
  (a, b) ∈ pairs →
  ∃ e, e ∈ foldl (λ acc ab, merge_edge set ty ab acc) l pairs ∧ is_edge a b ty e.
Proof.
  revert l. induction pairs as [|ab pairs IH]; intros l Hin.
  { by apply elem_of_nil in Hin. }
  cbn. apply elem_of_cons in Hin as [<-|Hin]; [|by apply IH].
  destruct (foldl_merge_edge_keeps set (λ _, True) set_src set_dst set_type
              ltac:(done) ty ty a b pairs (merge_edge set ty (a, b) l))
    as (e & He & Hie & _).
  - destruct (merge_edge_adds set (λ _, True) set_src set_dst set_type
                ltac:(done) ty (a, b) l) as (e & He & Hie & _).
    by exists e.
  - by exists e.
Qed.
End MergeEdgePairs.

(** X7.  [link_dynasty_founder] looks the founder up by name and by nothing
    else.  It never touches a node; every edge it adds is a FOUNDED edge
    from a stored person that carries the given name to the polity of the
    given uid, so a founder string that no person carries adds nothing,
    also when it is the uid of a stored person; and when the name resolves
    to a non-empty uid and the polity is stored, the FOUNDED edge from that
    person to the polity exists afterwards. *)
Theorem link_dynasty_founder_by_name (dynasty_uid person_name : string) (g : Graph) :
  let g' := link_dynasty_founder dynasty_uid person_name g in
  g_persons g' = g_persons g ∧ g_dynasties g' = g_dynasties g
  ∧ g_events g' = g_events g ∧ g_places g' = g_places g
  ∧ (∀ e, e ∈ g_edges g' → e ∉ g_edges g →
       ∃ p, p ∈ g_persons g ∧ carries_name person_name p
            ∧ e = Build_Edge (LPerson, Person.uid p) (LDynasty, dynasty_uid)
                    FOUNDED None None None)
  ∧ ((∀ p, p ∈ g_persons g → ¬ carries_name person_name p) → g' = g)
  ∧ (∀ u d, resolve_person_uid person_name g = Some u → u ≠ "" →
       d ∈ g_dynasties g → Dynasty.uid d = dynasty_uid →
       ∃ e, e ∈ g_edges g'
            ∧ is_edge (LPerson, u) (LDynasty, dynasty_uid) FOUNDED e).
Proof.
  cbv zeta. unfold link_dynasty_founder.
  destruct (resolve_person_uid person_name g) as [u|] eqn:Eres.
  2:{ cbn [truthy_str negb]. do 4 (split; [done|]).
      split; [by intros e He Hn|]. split; [done|]. by intros u d [=]. }
  destruct (resolve_person_uid_some _ _ _ Eres) as (Hne & p & Hp & Hc & Hu).
  cbn [truthy_str negb default].
  destruct (String.eqb u "") eqn:Eu; cbn [negb].
  { apply String.eqb_eq in Eu. do 4 (split; [done|]).
    split; [by intros e He Hn|]. split; [done|]. by intros u' d [= <-]. }
  unfold with_edges. cbn [g_persons g_dynasties g_events g_places g_edges].
  do 4 (split; [done|]). split; [|split].
  - intros e [He|(ab & Hab & ->)]%foldl_merge_edge_id_elem Hnew; [done|].
    apply list_elem_of_bind in Hab as (d & Hab & Hd).
    apply list_elem_of_bind in Hab as (q & Hab%list_elem_of_singleton & Hq).
    subst ab. cbn.
    apply elem_of_match_label_uid in Hd as [-> _].
    apply elem_of_match_label_uid in Hq as [-> _].
    exists p. rewrite Hu. done.
  - intros Hno. by apply Hno in Hc.
  - intros u' d [= <-] _ Hd Hdu.
    assert (Hin : ((LPerson, u), (LDynasty, dynasty_uid))
                  ∈ (d ← match_label_uid LDynasty dynasty_uid g;
                     p ← match_label_uid LPerson u g; [(p, d)])).
    { apply list_elem_of_bind. exists (LDynasty, dynasty_uid). split.
      - apply list_elem_of_bind. exists (LPerson, u). split; [left|].
        by eapply match_label_uid_person.
      - cbn. apply list_elem_of_fmap. exists d. split; [by rewrite Hdu|].
        by apply list_elem_of_filter. }
    cbn [default] in Hin.
    destruct (foldl_merge_edge_joined id ltac:(done) ltac:(done) ltac:(done)
                FOUNDED _ (g_edges g) _ _ Hin) as (e & He & Hie).
    by exists e.
Qed.

(** X8.  A participant that [link_event_participant] resolves by name is
    afterwards listed by [get_person_events]: for a participant string that
    resolves to the non-empty uid [u] and an event stored under the given
    uid, the events of [u] contain that event once the link is written. *)
Theorem linked_event_is_listed (event_uid person_name role u : string) (g : Graph)
    (ev : Event.t) :
  resolve_person_uid person_name g = Some u → u ≠ "" →
  ev ∈ g_events g → Event.uid ev = event_uid →
  ev ∈ get_person_events u (link_event_participant event_uid person_name role g).
Proof.
  intros Hres Hu Hev Heu.
  destruct (resolve_person_uid_some _ _ _ Hres) as (Hne & p & Hp & Hc & Hpu).
  unfold link_event_participant. rewrite Hres. cbn [truthy_str].
  apply String.eqb_neq in Hu. rewrite Hu. cbn [negb].
  destruct (merge_edges_joined (set_role role) (λ _, True)
              ltac:(done) ltac:(done) ltac:(done) ltac:(done)
              PARTICIPATED_IN (match_label_uid LPerson u g)
              (match_label_uid LEvent event_uid g)
              (g_edges g) (LPerson, u) (LEvent, event_uid))
    as (e & He & (Hs & Hd & Ht) & _).
  { by eapply match_label_uid_person. }
  { by eapply match_label_uid_event. }
  unfold get_person_events. rewrite merge_sort_Permutation.
  apply list_elem_of_bind. exists (LPerson, u). split.
  2:{ change (match_label_uid LPerson u (with_edges ?l g))
        with (match_label_uid LPerson u g). by eapply match_label_uid_person. }
  apply list_elem_of_bind. exists e. split; [|exact He].
  rewrite bool_decide_eq_true_2.
  - apply list_elem_of_filter. split; [by rewrite Hd|done].
  - unfold participation_of. by rewrite Hs, Hd, Ht.
Qed.

Lemma linked_event_is_listed_witness :
  xingjiao_mutiny
  ∈ get_person_events "person_li_siyuan"
      (link_event_participant "event_xingjiao" "李嗣源" default_role fallback_graph).
Proof.
  apply (linked_event_is_listed "event_xingjiao" "李嗣源" default_role
           "person_li_siyuan" fallback_graph xingjiao_mutiny).
  - vm_compute. reflexivity.
  - apply (bool_decide_unpack _). vm_compute. exact I.
  - apply (bool_decide_unpack _). vm_compute. exact I.
  - reflexivity.
Defined.

(** ** The bookkeeping of the ingestion loop *)

(** X9.  What is saved is what is loaded: after [_save_progress] a
    [_load_progress] finds the processed set it had in memory, and the file
    lists every processed unit once, in ascending order. *)
Theorem progress_round_trip (st : Pipeline) :
  _load_progress (_save_progress st) = _save_progress st
  ∧ _processed_chunks (_load_progress (_save_progress st)) = _processed_chunks st
  ∧ ∃ l, _progress_file (_save_progress st) = Saved l
         ∧ NoDup l ∧ Sorted str_le l
         ∧ ∀ id, id ∈ l ↔ id ∈ _processed_chunks st.
Proof.
  assert (E : _load_progress (_save_progress st) = _save_progress st).
  { unfold _load_progress, _save_progress. cbn. by rewrite list_to_set_sorted. }
  split; [exact E|]. split; [by rewrite E|].
  exists (sorted (elements (_processed_chunks st))). split; [done|].
  split; [apply sorted_elements_NoDup|].
  split; [apply Sorted_merge_sort; apply _|].
  intros id. by rewrite elem_of_sorted, elem_of_elements.
Qed.

(** A periodic checkpoint leaves [extraction_results.json] alone; the last
    save, when its writes succeed, puts the accumulated results there. *)
Lemma checkpoint_results_file (fail : option Halt) (torn : bool)
    (rs : list ExtractionResult) (st : Pipeline) :
  _results_file (checkpoint fail torn false rs st).2 = _results_file st.
Proof. by destruct fail as [[]|]. Qed.

Section Bookkeeping.
Variable py_upper : string → string.
Variable keep_alnum : string → string.
Variable env : Env.

(** The loop hands a prefix of its units to the extraction, records each of
    them, and writes the accumulated results in order. *)
Lemma process_chunks_prefix (chunks : list TextChunk) (i : nat) (tr : Trace)
    (st : Pipeline) :
  let r := process_chunks py_upper keep_alnum env i chunks (tr, st) in
  ∃ k new,
    (k ≤ length chunks)%nat
    ∧ extract_calls r.2.1 = extract_calls tr ++ (chunk_id <$> take k chunks)
    ∧ _processed_chunks r.2.2
      = _processed_chunks st ∪ list_to_set (chunk_id <$> take k chunks)
    ∧ results r.2.1 = results tr ++ new
    ∧ (length new ≤ k)%nat
    ∧ graph r.2.2
      = foldl (λ acc result, _write_result_to_neo4j py_upper keep_alnum result acc)
              (graph st) new
    ∧ (r.1 = None → k = length chunks)
    ∧ (∀ h, r.1 = Some h → h ≠ ProgressWriteFailed →
         ∃ l, _progress_file r.2.2 = Saved l
              ∧ list_to_set l = _processed_chunks r.2.2)
    ∧ _results_file r.2.2 = _results_file st.
Proof.
  cbv zeta. revert i tr st. induction chunks as [|chunk rest IH]; intros i tr st.
  - exists 0%nat, []. cbn. rewrite !app_nil_r, (right_id_L ∅ (∪)).
    repeat split; try done.
  - cbn [process_chunks].
    assert (Hstep : ∃ new1,
      let r1 := process_chunk py_upper keep_alnum env i chunk (tr, st) in
      extract_calls r1.1 = extract_calls tr ++ [chunk_id chunk]
      ∧ _processed_chunks r1.2 = _processed_chunks st ∪ {[ chunk_id chunk ]}
      ∧ _results_file r1.2 = _results_file st
      ∧ results r1.1 = results tr ++ new1
      ∧ (length new1 ≤ 1)%nat
      ∧ graph r1.2
        = foldl (λ acc result, _write_result_to_neo4j py_upper keep_alnum result acc)
                (graph st) new1).
    { unfold process_chunk. destruct (extract_from_chunk env i chunk) as [r|].
      - exists [r]. cbn. repeat split; done.
      - exists []. cbn. rewrite app_nil_r. repeat split; try done. lia. }
    destruct Hstep as (new1 & Hstep). cbv zeta in Hstep.
    destruct (process_chunk py_upper keep_alnum env i chunk (tr, st)) as [tr1 st1].
    cbn [fst snd] in Hstep.
    destruct Hstep as (Hc1 & Hp1 & Hf1 & Hr1 & Hl1 & Hg1).
    assert (Hcont : ∀ st2,
      _processed_chunks st2 = _processed_chunks st1 → graph st2 = graph st1 →
      _results_file st2 = _results_file st1 →
      let r := process_chunks py_upper keep_alnum env (S i) rest (tr1, st2) in
      ∃ k new,
        (k ≤ length (chunk :: rest))%nat
        ∧ extract_calls r.2.1 = extract_calls tr ++ (chunk_id <$> take k (chunk :: rest))
        ∧ _processed_chunks r.2.2
          = _processed_chunks st ∪ list_to_set (chunk_id <$> take k (chunk :: rest))
        ∧ results r.2.1 = results tr ++ new
        ∧ (length new ≤ k)%nat
        ∧ graph r.2.2
          = foldl (λ acc result, _write_result_to_neo4j py_upper keep_alnum result acc)
                  (graph st) new
        ∧ (r.1 = None → k = length (chunk :: rest))
        ∧ (∀ h, r.1 = Some h → h ≠ ProgressWriteFailed →
             ∃ l, _progress_file r.2.2 = Saved l
                  ∧ list_to_set l = _processed_chunks r.2.2)
        ∧ _results_file r.2.2 = _results_file st).
    { intros st2 Hp2 Hg2 Hrf2. cbv zeta.
      destruct (IH (S i) tr1 st2)
        as (k & new & Hk & Hc & Hp & Hr & Hl & Hg & Hn & Hh & Hrf).
      exists (S k), (new1 ++ new). cbn [take fmap list_fmap].
      split; [cbn; lia|].
      split; [rewrite Hc, Hc1, <- app_assoc; done|].
      split.
      { rewrite Hp, Hp2, Hp1. cbn [list_to_set foldr].
        change (list_to_set (chunk_id chunk :: ?l)) with
          ({[ chunk_id chunk ]} ∪ (list_to_set l : gset string)).
        by rewrite (assoc_L (∪)). }
      split; [rewrite Hr, Hr1, <- app_assoc; done|].
      split; [rewrite length_app; lia|].
      split; [rewrite Hg, Hg2, Hg1, foldl_app; done|].
      split; [intros Hnone; by rewrite (Hn Hnone)|].
      split; [exact Hh|].
      by rewrite Hrf, Hrf2, Hf1. }
    destruct (S i mod 10 =? 0)%nat.
    2:{ by apply Hcont. }
    pose proof (checkpoint_fst (periodic env i) (torn_write env) false (results tr1) st1)
      as Hcf.
    pose proof (checkpoint_memory (periodic env i) (torn_write env) false (results tr1)
                  st1) as [Hcm Hcg].
    pose proof (checkpoint_file (periodic env i) (torn_write env) false (results tr1) st1)
      as Hcfile.
    pose proof (checkpoint_results_file (periodic env i) (torn_write env) (results tr1)
                  st1) as Hcrf.
    destruct (checkpoint (periodic env i) _ _ _ st1) as [[h|] st2]; cbn [fst snd] in *.
    + exists 1%nat, new1. cbn [take fmap list_fmap].
      split; [cbn; lia|].
      split; [by rewrite Hc1|].
      split.
      { rewrite Hcm, Hp1. f_equal. symmetry.
        apply (right_id_L (∅ : gset string) (∪) {[ chunk_id chunk ]}). }
      split; [done|]. split; [done|]. split; [by rewrite Hcg|].
      split; [done|].
      split; [|by rewrite Hcrf].
      intros h' [= <-] Hne. destruct Hcfile as (l & Hl & Hs); [congruence|].
      exists l. by rewrite Hcm.
    + apply Hcont; [done|done|]. by rewrite Hcrf.
Qed.

Lemma py_slice_from_sublist {A} (n : Z) (l : list A) : py_slice_from n l `sublist_of` l.
Proof. unfold py_slice_from. destruct (0 <=? n)%Z; apply sublist_drop. Qed.

Lemma py_slice_to_sublist {A} (n : Z) (l : list A) : py_slice_to n l `sublist_of` l.
Proof. unfold py_slice_to. destruct (0 <=? n)%Z; apply sublist_take. Qed.

(** A run whose [clear_database] raises ends there, with nothing done. *)
Lemma run_clear_failed (clear_db resume : bool) (max_chunks : option Z) (start_from : Z)
    (chunks : list TextChunk) (st : Pipeline) :
  clear_db && clear_database_raises env = true →
  run py_upper keep_alnum env clear_db resume max_chunks start_from chunks st
  = (ClearFailed, (Build_Trace [] [], st)).
Proof. intros H. unfold run. by rewrite H. Qed.

(** The state a run starts its loop from, and what the loop and the last
    save make of it. *)
Lemma run_invariants (clear_db resume : bool) (max_chunks : option Z) (start_from : Z)
    (chunks : list TextChunk) (st : Pipeline) :
  clear_db && clear_database_raises env = false →
  let st0 :=
    if clear_db then
      {| _processed_chunks := ∅; _progress_file := _progress_file st;
         graph := empty_graph; _results_file := _results_file st |}
    else if resume then _load_progress st else st in
  let r := run py_upper keep_alnum env clear_db resume max_chunks start_from chunks st in
  ∃ sel k,
    sel `sublist_of` chunks
    ∧ (k ≤ length sel)%nat
    ∧ (clear_db = true → max_chunks = None → (start_from ≤ 0)%Z → sel = chunks)
    ∧ (resume = true → ∀ c, c ∈ sel → chunk_id c ∉ _processed_chunks st0)
    ∧ (∀ m, max_chunks = Some m → (0 ≤ m)%Z → (length sel ≤ Z.to_nat m)%nat)
    ∧ extract_calls r.2.1 = chunk_id <$> take k sel
    ∧ _processed_chunks r.2.2
      = _processed_chunks st0 ∪ list_to_set (chunk_id <$> take k sel)
    ∧ (length (results r.2.1) ≤ k)%nat
    ∧ graph r.2.2
      = foldl (λ acc result, _write_result_to_neo4j py_upper keep_alnum result acc)
              (graph st0) (results r.2.1)
    ∧ (r.1 = Completed → k = length sel)
    ∧ (r.1 ≠ NoChunks → r.1 ≠ Halted ProgressWriteFailed →
       ∃ l, _progress_file r.2.2 = Saved l ∧ list_to_set l = _processed_chunks r.2.2)
    ∧ r.1 ≠ ClearFailed
    ∧ (r.1 = Completed → _results_file r.2.2 = SavedResults (results r.2.1))
    ∧ (r.1 = NoChunks → r.2.2 = st0).
Proof.
  intros Hclear st0 r. subst r. unfold run. rewrite Hclear. fold st0.
  destruct chunks as [|c chunks].
  { exists [], 0%nat. cbn. rewrite (right_id_L ∅ (∪)).
    repeat split; try done.
    - by intros _ c' Hc'%elem_of_nil.
    - intros. lia. }
  set (all := c :: chunks).
  set (sel1 := if resume && negb (bool_decide (_processed_chunks st0 = ∅))
               then filter (λ c, chunk_id c ∉ _processed_chunks st0) all else all).
  set (sel2 := if (0 <? start_from)%Z then py_slice_from start_from sel1 else sel1).
  set (sel := match max_chunks with Some m => py_slice_to m sel2 | None => sel2 end).
  assert (H32 : sel `sublist_of` sel2).
  { subst sel. destruct max_chunks; [apply py_slice_to_sublist|done]. }
  assert (H21 : sel2 `sublist_of` sel1).
  { subst sel2. destruct (0 <? start_from)%Z; [apply py_slice_from_sublist|done]. }
  assert (H10 : sel1 `sublist_of` all).
  { subst sel1. destruct (resume && _); [apply sublist_filter|done]. }
  assert (Hfresh : resume = true → ∀ c, c ∈ sel1 → chunk_id c ∉ _processed_chunks st0).
  { intros -> c' Hc'. subst sel1. cbn [andb] in Hc'.
    case_bool_decide as Hempty; cbn [negb] in Hc'.
    - rewrite Hempty. apply not_elem_of_empty.
    - apply list_elem_of_filter in Hc'. tauto. }
  pose proof (process_chunks_prefix sel 0 (Build_Trace [] []) st0)
    as (k & new & Hk & Hc & Hp & Hr & Hl & Hg & Hn & Hh & Hrf).
  cbv zeta in Hc, Hp, Hr, Hl, Hg, Hn, Hh, Hrf.
  cbn [extract_calls results app] in Hc, Hr.
  exists sel, k.
  split; [by repeat (etrans; [eassumption|])|].
  split; [done|].
  split.
  { intros -> -> Hsf. subst sel sel2 sel1 st0. cbn [_processed_chunks].
    rewrite bool_decide_eq_true_2 by done. rewrite andb_false_r.
    by rewrite (proj2 (Z.ltb_ge 0 start_from) Hsf). }
  split.
  { intros Hres c' Hc'. apply (Hfresh Hres).
    eapply elem_of_sublist; [exact Hc'|]. by etrans. }
  split.
  { intros m -> Hm. subst sel. unfold py_slice_to.
    rewrite (proj2 (Z.leb_le 0 m) Hm). apply firstn_le_length. }
  destruct (process_chunks py_upper keep_alnum env 0 sel (Build_Trace [] [], st0))
    as [[h|] [tr st1]]; cbn [fst snd] in *.
  - rewrite Hr. split; [done|]. split; [done|]. split; [done|]. split; [done|].
    split; [done|]. split; [intros _ Hne; apply (Hh h); congruence|].
    done.
  - pose proof (checkpoint_fst (final env) (torn_write env) true (results tr) st1) as Hcf.
    pose proof (checkpoint_memory (final env) (torn_write env) true (results tr) st1)
      as [Hcm Hcg].
    pose proof (checkpoint_file (final env) (torn_write env) true (results tr) st1)
      as Hcfile.
    destruct (checkpoint (final env) (torn_write env) true (results tr) st1)
      as [[h|] st2] eqn:Hck; cbn [fst snd] in *.
    + rewrite Hr, Hcm, Hcg. split; [done|]. split; [done|]. split; [done|].
      split; [done|]. split; [done|]. split; [|done].
      intros _ Hne. destruct Hcfile as (l & Hfl & Hs); [congruence|]. by exists l.
    + rewrite Hr, Hcm, Hcg. split; [done|]. split; [done|]. split; [done|].
      split; [done|]. split; [intros _; by apply Hn|].
      split.
      { intros _ _. destruct Hcfile as (l & Hfl & Hs); [congruence|]. by exists l. }
      split; [done|]. split; [|done].
      intros _. rewrite <- Hcf in Hck. cbn in Hck. injection Hck as <-.
      cbn. by rewrite Hr.
Qed.

(** X10.  The units handed to the extraction collaborator are units of the
    input, each at most once per occurrence and in the order of the input;
    with a non-negative [max_chunks] there are at most that many; every one
    of them is recorded as processed, also when the run halts; no more
    results are accumulated than units were handed out; and a run over a
    cleared store without limit and offset that completes has handed out
    every unit. *)
Theorem extraction_calls_follow_input (clear_db resume : bool) (max_chunks : option Z)
    (start_from : Z) (chunks : list TextChunk) (st : Pipeline) :
  let r := run py_upper keep_alnum env clear_db resume max_chunks start_from chunks st in
  extract_calls r.2.1 `sublist_of` (chunk_id <$> chunks)
  ∧ (∀ m, max_chunks = Some m → (0 ≤ m)%Z →
       (length (extract_calls r.2.1) ≤ Z.to_nat m)%nat)
  ∧ (∀ id, id ∈ extract_calls r.2.1 → id ∈ _processed_chunks r.2.2)
  ∧ (length (results r.2.1) ≤ length (extract_calls r.2.1))%nat
  ∧ (clear_db = true → max_chunks = None → (start_from ≤ 0)%Z → r.1 = Completed →
       extract_calls r.2.1 = chunk_id <$> chunks).
Proof.
  intros r.
  destruct (clear_db && clear_database_raises env) eqn:Hclear.
  { subst r. rewrite (run_clear_failed _ _ _ _ _ _ Hclear). cbn.
    split; [apply sublist_nil_l|]. split; [intros; lia|].
    split; [by intros id Hid%elem_of_nil|]. split; [done|]. done. }
  destruct (run_invariants clear_db resume max_chunks start_from chunks st Hclear)
    as (sel & k & Hsub & Hk & Hall & _ & Hmax & Hc & Hp & Hl & _ & Hdone & _).
  fold r in Hc, Hp, Hl, Hdone.
  split.
  { rewrite Hc. apply fmap_sublist. etrans; [apply sublist_take|done]. }
  split.
  { intros m Hm Hpos. rewrite Hc, length_fmap, length_take.
    specialize (Hmax m Hm Hpos). lia. }
  split.
  { intros id Hid. rewrite Hp, elem_of_union, elem_of_list_to_set, <- Hc. by right. }
  split.
  { rewrite Hc, length_fmap, length_take. lia. }
  intros H1 H2 H3 H4. rewrite Hc, (Hdone H4), firstn_all. by rewrite Hall.
Qed.

(** X11.  A resumed run hands no unit to the extraction collaborator whose id is
    in the progress file it loaded, wherever that unit stands in the input
    and whatever limit and offset are given. *)
Theorem resume_never_reextracts (max_chunks : option Z) (start_from : Z)
    (chunks : list TextChunk) (st : Pipeline) (saved : list string) (id : string) :
  _progress_file st = Saved saved →
  id ∈ saved →
  id ∉ extract_calls
         (run py_upper keep_alnum env false true max_chunks start_from chunks st).2.1.
Proof.
  intros Hfile Hid.
  destruct (run_invariants false true max_chunks start_from chunks st eq_refl)
    as (sel & k & _ & _ & _ & Hfresh & _ & Hc & _).
  rewrite Hc. intros (c & -> & Hin)%list_elem_of_fmap.
  apply (Hfresh eq_refl c).
  - eapply elem_of_sublist; [exact Hin|apply sublist_take].
  - unfold _load_progress. rewrite Hfile. cbn. by apply elem_of_list_to_set.
Qed.

(** X12.  What a run leaves of its progress.  When [clear_database] raises, the
    run ends with the pipeline as it found it: the progress file and the
    processed set in memory are those of before, and no unit was handed to
    the extraction collaborator.  When a run over a non-empty input
    completes, or is halted by a step of a checkpoint other than the write of
    the progress file, the progress file lists exactly the units recorded as
    processed in memory, among them every unit handed to the extraction
    collaborator. *)
Theorem run_leaves_progress_on_disk (clear_db resume : bool) (max_chunks : option Z)
    (start_from : Z) (chunks : list TextChunk) (st : Pipeline) :
  let r := run py_upper keep_alnum env clear_db resume max_chunks start_from chunks st in
  (r.1 = ClearFailed ↔ clear_db && clear_database_raises env = true)
  ∧ (r.1 = ClearFailed → r.2.2 = st ∧ extract_calls r.2.1 = [])
  ∧ (r.1 = Completed ∨ (∃ h, r.1 = Halted h ∧ h ≠ ProgressWriteFailed) →
     ∃ l, _progress_file r.2.2 = Saved l
          ∧ (∀ id, id ∈ l ↔ id ∈ _processed_chunks r.2.2)
          ∧ (∀ id, id ∈ extract_calls r.2.1 → id ∈ l)).
Proof.
  intros r.
  destruct (clear_db && clear_database_raises env) eqn:Hclear.
  { subst r. rewrite (run_clear_failed _ _ _ _ _ _ Hclear). cbn.
    split; [done|]. split; [done|].
    intros [H|(h & H & _)]; discriminate. }
  destruct (run_invariants clear_db resume max_chunks start_from chunks st Hclear)
    as (sel & k & _ & _ & _ & _ & _ & Hc & Hp & _ & _ & _ & Hfile & Hnot & _).
  fold r in Hc, Hp, Hfile, Hnot.
  split; [split; [done|discriminate]|]. split; [done|].
  intros Hout.
  destruct Hfile as (l & Hl & Hs).
  { destruct Hout as [H|(h & H & _)]; rewrite H; discriminate. }
  { destruct Hout as [H|(h & H & Hne)]; rewrite H; [discriminate|congruence]. }
  exists l. split; [done|].
  assert (Hiff : ∀ id, id ∈ l ↔ id ∈ _processed_chunks r.2.2).
  { intros id. by rewrite <- Hs, elem_of_list_to_set. }
  split; [done|].
  intros id Hid. apply Hiff. rewrite Hp, elem_of_union, elem_of_list_to_set, <- Hc.
  by right.
Qed.

End Bookkeeping.

Lemma resume_never_reextracts_witness :
  "chunk_0001"
  ∉ extract_calls (run id id healthy_env false true None 0 eleven_units
                     resumed_pipeline).2.1.
Proof.
  apply (resume_never_reextracts id id healthy_env None 0 eleven_units
           resumed_pipeline ["chunk_0000"; "chunk_0001"]).
  - reflexivity.
  - apply (bool_decide_unpack _). vm_compute. exact I.
Defined.

Lemma run_leaves_progress_on_disk_witness :
  ∃ l, _progress_file (run id id stats_down_env false true None 0 eleven_units
                         new_pipeline).2.2 = Saved l
       ∧ (∀ u, u ∈ l
                ↔ u ∈ _processed_chunks
                        (run id id stats_down_env false true None 0 eleven_units
                           new_pipeline).2.2)
       ∧ (∀ u, u ∈ extract_calls
                     (run id id stats_down_env false true None 0 eleven_units
                        new_pipeline).2.1 → u ∈ l).
Proof.
  apply (run_leaves_progress_on_disk id id stats_down_env false true None 0
           eleven_units new_pipeline).
  right. exists GraphStatsFailed. split; [vm_compute; reflexivity|discriminate].
Defined.


(** A run asked to clear a store that refuses: nothing is extracted, the
    person of the store is still there and the progress of the earlier run is
    untouched, on disk and in memory. *)
Example clear_database_failure_halts_run :
  run id id store_down_env true true None 0 eleven_units resumed_pipeline
  = (ClearFailed, (Build_Trace [] [], resumed_pipeline)).
Proof. reflexivity. Qed.

(** A run halted by the write of the progress file: the file of the earlier
    run is still there and does not list the unit recorded in memory. *)
Example failed_progress_write_keeps_old_file :
  (run id id progress_write_down_env false false None 0 [unit_of "chunk_0002"]
     resumed_pipeline).1 = Halted ProgressWriteFailed
  ∧ _progress_file
      (run id id progress_write_down_env false false None 0 [unit_of "chunk_0002"]
         resumed_pipeline).2.2 = Saved ["chunk_0000"; "chunk_0001"]
  ∧ elements
      (_processed_chunks
         (run id id progress_write_down_env false false None 0 [unit_of "chunk_0002"]
            resumed_pipeline).2.2) = ["chunk_0002"].
Proof. repeat split; vm_compute; reflexivity. Qed.

(** ** The removal of duplicate relations *)

Lemma collapse_parallel_sublist (seen : list (NodeRef * NodeRef * string)) (l : list Edge) :
  collapse_parallel seen l `sublist_of` l.
Proof.
  revert seen. induction l as [|e l IH]; intros seen; cbn; [done|].
  case_bool_decide; [by apply sublist_cons|by apply sublist_skip].
Qed.

Lemma collapse_parallel_keys (seen : list (NodeRef * NodeRef * string)) (l : list Edge)
    (k : NodeRef * NodeRef * string) :
  k ∈ edge_key <$> collapse_parallel seen l ↔ k ∈ edge_key <$> l ∧ k ∉ seen.
Proof.
  revert seen. induction l as [|e l IH]; intros seen; cbn.
  - rewrite elem_of_nil. tauto.
  - fold (edge_key e). case_bool_decide as He.
    + rewrite IH, elem_of_cons. split; [tauto|].
      intros [[->|Hk] Hn]; [done|tauto].
    + rewrite fmap_cons, !elem_of_cons, IH, elem_of_cons.
      destruct (decide (k = edge_key e)) as [->|Hne]; tauto.
Qed.

Lemma collapse_parallel_NoDup (seen : list (NodeRef * NodeRef * string)) (l : list Edge) :
  NoDup (edge_key <$> collapse_parallel seen l).
Proof.
  revert seen. induction l as [|e l IH]; intros seen; cbn; [constructor|].
  fold (edge_key e). case_bool_decide as He; [apply IH|].
  rewrite fmap_cons. apply NoDup_cons. split; [|apply IH].
  rewrite collapse_parallel_keys, elem_of_cons. tauto.
Qed.

Lemma collapse_parallel_idem (seen : list (NodeRef * NodeRef * string)) (l : list Edge) :
  collapse_parallel seen (collapse_parallel seen l) = collapse_parallel seen l.
Proof.
  revert seen. induction l as [|e l IH]; intros seen; cbn; [done|].
  fold (edge_key e). case_bool_decide as He; [apply IH|].
  cbn. fold (edge_key e). rewrite (bool_decide_eq_false_2 _ He). f_equal. apply IH.
Qed.

Lemma filter_all {A} (P : A → Prop) `{!∀ x, Decision (P x)} (l : list A) :
  (∀ x, x ∈ l → P x) → filter P l = l.
Proof.
  induction l as [|a l IH]; intros Hall; [done|].
  rewrite filter_cons_True by (apply Hall; left).
  f_equal. apply IH. intros x Hx. apply Hall. by right.
Qed.

(** X14.  The removal of duplicate relations deletes and does nothing else: the
    nodes stay, the edges that remain are edges of the store in their order;
    no edge from a node to itself remains; no two remaining edges share
    source, target and type; every pair of different nodes that was joined by
    an edge of some type still is; and a second pass finds nothing to
    delete. *)
Theorem clean_duplicates_spec (g : Graph) :
  let g' := clean_duplicates g in
  g_persons g' = g_persons g ∧ g_dynasties g' = g_dynasties g
  ∧ g_events g' = g_events g ∧ g_places g' = g_places g
  ∧ g_edges g' `sublist_of` g_edges g
  ∧ (∀ e, e ∈ g_edges g' → e_src e ≠ e_dst e)
  ∧ NoDup (edge_key <$> g_edges g')
  ∧ (∀ e, e ∈ g_edges g → e_src e ≠ e_dst e →
       ∃ e', e' ∈ g_edges g' ∧ edge_key e' = edge_key e)
  ∧ clean_duplicates g' = g'.
Proof.
  cbv zeta. unfold clean_duplicates, with_edges.
  cbn [g_persons g_dynasties g_events g_places g_edges].
  do 4 (split; [done|]).
  split.
  { etrans; [apply collapse_parallel_sublist|apply sublist_filter]. }
  assert (Hloop : ∀ e, e ∈ collapse_parallel [] (filter (λ e, e_src e ≠ e_dst e) (g_edges g))
                       → e_src e ≠ e_dst e).
  { intros e He.
    eapply elem_of_sublist in He; [|apply collapse_parallel_sublist].
    apply list_elem_of_filter in He. tauto. }
  split; [exact Hloop|].
  split; [apply collapse_parallel_NoDup|].
  split.
  { intros e He Hne.
    assert (Hk : edge_key e
                 ∈ edge_key <$> collapse_parallel []
                                  (filter (λ e, e_src e ≠ e_dst e) (g_edges g))).
    { apply collapse_parallel_keys. split; [|apply not_elem_of_nil].
      apply list_elem_of_fmap. exists e. split; [done|].
      by apply list_elem_of_filter. }
    apply list_elem_of_fmap in Hk as (e' & Hk & He'). by exists e'. }
  f_equal.
  rewrite (filter_all _ _ Hloop). apply collapse_parallel_idem.
Qed.

(** ** The table of names of the repair *)

Section DictLookup.
Context {V : Type}.

Lemma dict_get_set_eq (k : string) (v : V) (d : list (string * V)) :
  dict_get k (dict_set k v d) = Some v.
Proof.
  induction d as [|[k' v'] d IH]; cbn; [by rewrite String.eqb_refl|].
  destruct (String.eqb k' k) eqn:E; cbn; by rewrite E.
Qed.

Lemma dict_get_set_ne (k k' : string) (v : V) (d : list (string * V)) :
  k' ≠ k → dict_get k' (dict_set k v d) = dict_get k' d.
Proof.
  intros Hne. induction d as [|[k0 v0] d IH]; cbn.
  - apply not_eq_sym, String.eqb_neq in Hne. by rewrite Hne.
  - destruct (String.eqb k0 k) eqn:E; cbn.
    + apply String.eqb_eq in E as ->.
      apply not_eq_sym, String.eqb_neq in Hne. by rewrite Hne.
    + destruct (String.eqb k0 k'); [done|apply IH].
Qed.

Lemma dict_get_elem (k : string) (v : V) (d : list (string * V)) :
  dict_get k d = Some v → (k, v) ∈ d.
Proof.
  induction d as [|[k0 v0] d IH]; cbn; [done|].
  destruct (String.eqb k0 k) eqn:E.
  - apply String.eqb_eq in E as ->. intros [= ->]. left.
  - intros H. right. by apply IH.
Qed.
End DictLookup.

(** The aliases of one person, entered after its original name. *)
Lemma alias_entries (uid : string) (aliases : list string) (nm : list (string * string))
    (k v : string) :
  let nm' :=
    foldl (λ nm alias,
             if negb (String.eqb alias "") && (1 <? py_len alias)%nat
             then match dict_get alias nm with
                  | Some _ => nm
                  | None => dict_set alias uid nm
                  end
             else nm) nm aliases in
  (dict_get k nm = Some v → dict_get k nm' = Some v)
  ∧ (dict_get k nm' = Some v →
     dict_get k nm = Some v
     ∨ (dict_get k nm = None ∧ v = uid ∧ k ∈ aliases ∧ k ≠ "" ∧ (1 < py_len k)%nat)).
Proof.
  cbv zeta. revert nm. induction aliases as [|a aliases IH]; intros nm; cbn [foldl].
  { split; [done|by left]. }
  set (nm1 := if negb (String.eqb a "") && (1 <? py_len a)%nat
              then match dict_get a nm with
                   | Some _ => nm
                   | None => dict_set a uid nm
                   end
              else nm).
  destruct (IH nm1) as [IH1 IH2].
  assert (Hstep : (∀ w, dict_get k nm = Some w → dict_get k nm1 = Some w)
                  ∧ (dict_get k nm1 = Some v →
                     dict_get k nm = Some v
                     ∨ (dict_get k nm = None ∧ v = uid ∧ k = a ∧ k ≠ ""
                        ∧ (1 < py_len k)%nat))).
  { subst nm1.
    destruct (negb (String.eqb a "")) eqn:Ea; cbn [andb]; [|split; [done|by left]].
    destruct (1 <? py_len a)%nat eqn:El; [|split; [done|by left]].
    destruct (dict_get a nm) as [w|] eqn:Eg; [split; [done|by left]|].
    apply negb_true_iff, String.eqb_neq in Ea. apply Nat.ltb_lt in El.
    destruct (decide (k = a)) as [->|Hne].
    - rewrite dict_get_set_eq, Eg. split; [done|]. intros [= <-]. right. done.
    - rewrite dict_get_set_ne by done. split; [done|by left]. }
  destruct Hstep as [Hs1 Hs2]. split.
  - intros H. by apply IH1, Hs1.
  - intros [H|(Hn & -> & Hin & Hne & Hl)]%IH2.
    + destruct (Hs2 H) as [?|(? & ? & -> & ? & ?)]; [by left|].
      right. repeat split; try done. left.
    + destruct (dict_get k nm) as [w|] eqn:Eg.
      * by rewrite (Hs1 w eq_refl) in Hn.
      * right. repeat split; try done. by right.
Qed.

(** The table while it is filled: every original name met so far is a key,
    and a key leads to a person that has it as original name or, when nobody
    met so far has, as an alias of two characters or more. *)
Lemma name_map_invariant (done todo : list Person.t) (m : list (string * string)) :
  let step := λ (name_map : list (string * string)) (r : Person.t),
    foldl (λ nm alias,
             if negb (String.eqb alias "") && (1 <? py_len alias)%nat
             then match dict_get alias nm with
                  | Some _ => nm
                  | None => dict_set alias (Person.uid r) nm
                  end
             else nm)
          (dict_set (Person.original_name r) (Person.uid r) name_map)
          (Person.aliases r) in
  let inv := λ (ps : list Person.t) (m : list (string * string)),
    (∀ p, p ∈ ps → dict_get (Person.original_name p) m ≠ None)
    ∧ (∀ name uid, dict_get name m = Some uid →
         ∃ p, p ∈ ps ∧ Person.uid p = uid
              ∧ (Person.original_name p = name
                 ∨ (name ∈ Person.aliases p ∧ name ≠ "" ∧ (1 < py_len name)%nat
                    ∧ ∀ q, q ∈ ps → Person.original_name q ≠ name))) in
  inv done m → inv (done ++ todo) (foldl step m todo).
Proof.
  cbv zeta. revert done m. induction todo as [|r todo IH]; intros done m Hinv.
  { by rewrite app_nil_r. }
  cbn [foldl]. rewrite (cons_middle r done todo), (assoc_L (++) done [r] todo).
  apply IH. destruct Hinv as [HC HS].
  set (m0 := dict_set (Person.original_name r) (Person.uid r) m).
  split.
  - intros p Hp.
    assert (Hsome : ∃ v, dict_get (Person.original_name p) m0 = Some v).
    { subst m0. apply elem_of_app in Hp as [Hp|Hp%list_elem_of_singleton].
      - destruct (decide (Person.original_name p = Person.original_name r)) as [->|Hne].
        + eexists. apply dict_get_set_eq.
        + rewrite dict_get_set_ne by done.
          destruct (dict_get (Person.original_name p) m) eqn:E; [by eexists|].
          by apply HC in Hp.
      - subst p. eexists. apply dict_get_set_eq. }
    destruct Hsome as (v & Hv).
    destruct (alias_entries (Person.uid r) (Person.aliases r) m0
                (Person.original_name p) v) as [Hk _].
    by rewrite (Hk Hv).
  - intros name uid Hg.
    destruct (alias_entries (Person.uid r) (Person.aliases r) m0 name uid) as [_ Horigin].
    destruct (Horigin Hg) as [H0|(Hnone & -> & Hin & Hne & Hl)].
    + subst m0. destruct (decide (name = Person.original_name r)) as [->|Hnr].
      * rewrite dict_get_set_eq in H0. injection H0 as <-.
        exists r. split; [apply elem_of_app; right; left|]. split; [done|by left].
      * rewrite dict_get_set_ne in H0 by done.
        destruct (HS name uid H0) as (p & Hp & Hu & Hor).
        exists p. split; [apply elem_of_app; by left|]. split; [done|].
        destruct Hor as [?|(? & ? & ? & Hall)]; [by left|right].
        repeat split; try done.
        intros q [Hq|Hq%list_elem_of_singleton]%elem_of_app; [by apply Hall|].
        subst q. done.
    + exists r. split; [apply elem_of_app; right; left|]. split; [done|].
      right. repeat split; try done.
      intros q Hq Hqn.
      assert (Hkey : dict_get (Person.original_name q) m0 ≠ None).
      { subst m0. apply elem_of_app in Hq as [Hq|Hq%list_elem_of_singleton].
        - destruct (decide (Person.original_name q = Person.original_name r)) as [->|Hne'].
          + by rewrite dict_get_set_eq.
          + rewrite dict_get_set_ne by done. by apply HC.
        - subst q. by rewrite dict_get_set_eq. }
      by rewrite Hqn in Hkey.
Qed.

(** X15.  The table of names built for the repair prefers original names.  Every
    original name of a stored person is a key, and it leads to a person that
    has it as original name, never to one that has it as an alias; any other
    key is an alias of two characters or more of the person it leads to. *)
Theorem name_map_prefers_original_names (g : Graph) :
  let name_map := get_all_person_name_map g in
  (∀ p, p ∈ g_persons g →
     ∃ q, q ∈ g_persons g ∧ Person.original_name q = Person.original_name p
          ∧ dict_get (Person.original_name p) name_map = Some (Person.uid q))
  ∧ (∀ name uid, dict_get name name_map = Some uid →
       ∃ p, p ∈ g_persons g ∧ Person.uid p = uid
            ∧ (Person.original_name p = name
               ∨ (name ∈ Person.aliases p ∧ name ≠ "" ∧ (1 < py_len name)%nat
                  ∧ ∀ q, q ∈ g_persons g → Person.original_name q ≠ name))).
Proof.
  cbv zeta. unfold get_all_person_name_map.
  pose proof (name_map_invariant [] (g_persons g) []) as Hinv.
  cbv zeta in Hinv. rewrite app_nil_l in Hinv.
  destruct Hinv as [HC HS].
  { split; [by intros p Hp%elem_of_nil|done]. }
  split; [|exact HS].
  intros p Hp. specialize (HC p Hp).
  destruct (dict_get (Person.original_name p) _) as [uid|] eqn:E; [|done].
  destruct (HS _ _ E) as (q & Hq & Hu & [Ho|(_ & _ & _ & Hall)]).
  - exists q. by rewrite Hu.
  - by apply Hall in Hp.
Qed.

(** ** The repair of the event relations, as a whole *)

Section MergeEdgeKeys.
Variable set : Edge → Edge.
Hypothesis set_src : ∀ e, e_src (set e) = e_src e.
Hypothesis set_dst : ∀ e, e_dst (set e) = e_dst e.
Hypothesis set_type : ∀ e, e_type (set e) = e_type e.

Lemma set_edge_key (e : Edge) : edge_key (set e) = edge_key e.
Proof. unfold edge_key. by rewrite set_src, set_dst, set_type. Qed.

Lemma merge_edge_key (ty : string) (ab : NodeRef * NodeRef) (l : list Edge) (e' : Edge) :
  e' ∈ merge_edge set ty ab l →
  edge_key e' ∈ edge_key <$> l ∨ edge_key e' = (ab.1, ab.2, ty).
Proof.
  unfold merge_edge. case_bool_decide.
  - intros (e & -> & He)%list_elem_of_fmap. left.
    apply list_elem_of_fmap. exists e. split; [|done].
    case_bool_decide; [apply set_edge_key|done].
  - intros [He|Hs%list_elem_of_singleton]%elem_of_app.
    + left. apply list_elem_of_fmap. by exists e'.
    + right. subst e'. by rewrite set_edge_key.
Qed.

Lemma merge_edges_key (ty : string) (srcs dsts : list NodeRef) (l : list Edge)
    (e' : Edge) :
  e' ∈ merge_edges set ty srcs dsts l →
  edge_key e' ∈ edge_key <$> l
  ∨ ∃ a b, a ∈ srcs ∧ b ∈ dsts ∧ edge_key e' = (a, b, ty).
Proof.
  unfold merge_edges.
  assert (Hpairs : ∀ ab, ab ∈ (a ← srcs; b ← dsts; [(a, b)]) →
                         ab.1 ∈ srcs ∧ ab.2 ∈ dsts).
  { intros ab (a & (b & Hab%list_elem_of_singleton & Hb)%list_elem_of_bind & Ha)%list_elem_of_bind.
    by subst ab. }
  revert l Hpairs.
  induction (a ← srcs; b ← dsts; [(a, b)]) as [|ab pairs IH]; intros l Hpairs.
  { cbn. intros He. left. apply list_elem_of_fmap. by exists e'. }
  cbn. intros [Hk|(a & b & Ha & Hb & Hk)]%IH.
  - apply list_elem_of_fmap in Hk as (e & Hk & He).
    apply merge_edge_key in He as [He|He].
    + left. by rewrite Hk.
    + right. exists ab.1, ab.2. destruct (Hpairs ab) as [? ?]; [left|].
      by rewrite Hk, He.
  - right. by exists a, b.
  - intros ? ?. apply Hpairs. by right.
Qed.
End MergeEdgeKeys.

Lemma links_added_refl (allowed : string → string → Prop) (g : Graph) :
  links_added allowed g g.
Proof.
  repeat split; try done. intros e' He'. left. apply list_elem_of_fmap. by exists e'.
Qed.

Lemma links_added_trans (allowed : string → string → Prop) (g1 g2 g3 : Graph) :
  links_added allowed g1 g2 → links_added allowed g2 g3 → links_added allowed g1 g3.
Proof.
  intros (H1 & H2 & H3 & H4 & H5) (H1' & H2' & H3' & H4' & H5').
  split; [congruence|]. split; [congruence|]. split; [congruence|].
  split; [congruence|].
  intros e' [Hk|Hnew]%H5'; [|by right].
  apply list_elem_of_fmap in Hk as (e & Hk & He). rewrite Hk. by apply H5.
Qed.

Lemma links_added_mono (allowed allowed' : string → string → Prop) (g g' : Graph) :
  (∀ eu pu, allowed eu pu → allowed' eu pu) →
  links_added allowed g g' → links_added allowed' g g'.
Proof.
  intros Himp (H1 & H2 & H3 & H4 & H5). repeat split; try done.
  intros e' [Hk|(eu & pu & Ha & Hk)]%H5; [by left|].
  right. exists eu, pu. split; [by apply Himp|done].
Qed.

Lemma flush_link_added (euid puid : string) (g : Graph) :
  links_added (λ eu pu, eu = euid ∧ pu = puid) g (flush_link euid g puid).
Proof.
  unfold flush_link. destruct (_ =? 0)%nat; [|apply links_added_refl].
  unfold with_edges. repeat split; try done.
  cbn [g_edges]. intros e' [Hk|(a & b & Ha & Hb & Hk)]%merge_edges_key; try done.
  { by left. }
  right. exists euid, puid. split; [done|].
  apply elem_of_match_label_uid in Ha as [-> _].
  apply elem_of_match_label_uid in Hb as [-> _]. done.
Qed.

Lemma flush_event_links_added (batch : list (string * gset string)) (g : Graph) :
  links_added (λ eu pu, ∃ links, (eu, links) ∈ batch ∧ pu ∈ links) g
              (_flush_event_links batch g).
Proof.
  unfold _flush_event_links.
  cut (∀ todo, (∀ x, x ∈ todo → x ∈ batch) →
         ∀ acc, links_added (λ eu pu, ∃ links, (eu, links) ∈ batch ∧ pu ∈ links) g acc →
                links_added (λ eu pu, ∃ links, (eu, links) ∈ batch ∧ pu ∈ links) g
                  (foldl (λ acc entry, foldl (flush_link entry.1) acc (elements entry.2))
                         acc todo)).
  { intros Hcut. apply Hcut; [done|apply links_added_refl]. }
  induction todo as [|[eu links] todo IH]; intros Hsub acc Hacc; [done|].
  cbn [foldl fst snd]. apply IH; [intros ? ?; apply Hsub; by right|].
  assert (Hin : (eu, links) ∈ batch) by (apply Hsub; left).
  cut (∀ pus, (∀ pu, pu ∈ pus → pu ∈ links) →
         ∀ acc, links_added (λ eu pu, ∃ links, (eu, links) ∈ batch ∧ pu ∈ links) g acc →
                links_added (λ eu pu, ∃ links, (eu, links) ∈ batch ∧ pu ∈ links) g
                  (foldl (flush_link eu) acc pus)).
  { intros Hcut. apply Hcut; [|done]. intros pu. apply elem_of_elements. }
  clear acc Hacc. induction pus as [|pu pus IHp]; intros Hpus acc Hacc; [done|].
  cbn [foldl]. apply IHp; [intros ? ?; apply Hpus; by right|].
  eapply links_added_trans; [exact Hacc|].
  eapply links_added_mono; [|apply flush_link_added].
  intros eu' pu' [-> ->]. exists links. split; [done|]. apply Hpus. left.
Qed.

(** Step 2 adds participation edges only, each from a person to an event
    whose filtered link set holds that person. *)
Lemma relink_events_added (dys : list (string * Z)) (g : Graph) :
  links_added
    (λ eu pu, ∃ ev, ev ∈ g_events g ∧ Event.uid ev = eu
                    ∧ pu ∈ final_link (get_all_person_name_map g) dys ev)
    g (relink_events dys g).
Proof.
  unfold relink_events.
  set (A := λ eu pu, ∃ ev, ev ∈ g_events g ∧ Event.uid ev = eu
                           ∧ pu ∈ final_link (get_all_person_name_map g) dys ev).
  set (step := λ (st : list (string * gset string) * Graph) e,
         let '(batch, acc) := st in
         let links := final_link (get_all_person_name_map g) dys e in
         let batch :=
           if bool_decide (links = ∅) then batch
           else batch ++ [(Event.uid e, links)] in
         if (200 <=? length batch)%nat then ([], _flush_event_links batch acc)
         else (batch, acc)).
  assert (Hinv : ∀ evs, (∀ ev, ev ∈ evs → ev ∈ g_events g) →
            ∀ st, (∀ eu links pu, (eu, links) ∈ st.1 → pu ∈ links → A eu pu) →
                  links_added A g st.2 →
                  (∀ eu links pu, (eu, links) ∈ (foldl step st evs).1 → pu ∈ links →
                     A eu pu)
                  ∧ links_added A g (foldl step st evs).2).
  { induction evs as [|ev evs IH]; intros Hsub [batch acc] Hb Hacc; [done|].
    cbn [foldl]. apply IH; [intros ? ?; apply Hsub; by right| |].
    - cbn [step fst snd] in *.
      set (batch' := if bool_decide (_ = ∅) then batch else _).
      destruct (200 <=? length batch')%nat; cbn [fst].
      + by intros eu links pu Hin%elem_of_nil.
      + subst batch'. intros eu links pu Hin Hpu. case_bool_decide.
        * by eapply Hb.
        * apply elem_of_app in Hin as [Hin|[= -> ->]%list_elem_of_singleton].
          -- by eapply Hb.
          -- exists ev. split; [apply Hsub; left|done].
    - cbn [step fst snd] in *.
      set (batch' := if bool_decide (_ = ∅) then batch else _).
      assert (Hb' : ∀ eu links pu, (eu, links) ∈ batch' → pu ∈ links → A eu pu).
      { subst batch'. intros eu links pu Hin Hpu. case_bool_decide.
        * by eapply Hb.
        * apply elem_of_app in Hin as [Hin|[= -> ->]%list_elem_of_singleton].
          -- by eapply Hb.
          -- exists ev. split; [apply Hsub; left|done]. }
      destruct (200 <=? length batch')%nat; cbn [snd]; [|done].
      eapply links_added_trans; [exact Hacc|].
      eapply links_added_mono; [|apply flush_event_links_added].
      intros eu pu (links & Hin & Hpu). by eapply Hb'. }
  destruct (Hinv (g_events g) ltac:(done) ([], g)) as [Hb Hacc].
  { by intros eu links pu Hin%elem_of_nil. }
  { apply links_added_refl. }
  fold step. destruct (foldl step ([], g) (g_events g)) as [batch g'].
  cbn [fst snd] in *.
  eapply links_added_trans; [exact Hacc|].
  eapply links_added_mono; [|apply flush_event_links_added].
  intros eu pu (links & Hin & Hpu). by eapply Hb.
Qed.

Lemma death_year_recorded (l : list Person.t) (d : list (string * Z)) (p : Person.t)
    (dy : Z) :
  NoDup (Person.uid <$> l) → p ∈ l → Person.death_year p = Some dy →
  dict_get (Person.uid p) (foldl record_death_year d l) = Some dy.
Proof.
  intros Hnd Hp Hdy. apply list_elem_of_split in Hp as (l1 & l2 & ->).
  rewrite fmap_app, fmap_cons in Hnd.
  apply NoDup_app in Hnd as (_ & _ & Hnd). apply NoDup_cons in Hnd as [Hnot _].
  rewrite foldl_app. cbn [foldl]. unfold record_death_year at 2. rewrite Hdy.
  generalize (foldl record_death_year d l1). intros d0.
  assert (Hstart : dict_get (Person.uid p) (dict_set (Person.uid p) dy d0) = Some dy)
    by apply dict_get_set_eq.
  revert Hstart. generalize (dict_set (Person.uid p) dy d0). clear d0.
  induction l2 as [|q l2 IH]; intros d0 Hd0; [done|].
  cbn [foldl]. apply IH.
  - intros Hin. apply Hnot. rewrite fmap_cons. by right.
  - unfold record_death_year. destruct (Person.death_year q); [|done].
    rewrite dict_get_set_ne; [done|].
    intros Heq. apply Hnot. rewrite fmap_cons, Heq. left.
Qed.

(** X16.  The repair as a whole.  In a store with unique person uids and unique
    event uids, take a person with a death year other than 0 and an event
    with a year other than 0 that lies after that death, whose text holds no
    memorial keyword, neither as description followed by name nor with a
    space between them.  After [run_phase2_event_relations] no PARTICIPATED_IN
    edge joins that person to that event: step 1 removed the ones there
    were, step 2 did not link the person again, and step 3 only deletes. *)
Theorem phase2_leaves_no_post_death_participation (g : Graph) (p : Person.t)
    (ev : Event.t) (dy y : Z) :
  unique_uids g →
  NoDup (Event.uid <$> g_events g) →
  p ∈ g_persons g → Person.death_year p = Some dy → dy ≠ 0%Z →
  ev ∈ g_events g → Event.year ev = Some y → y ≠ 0%Z → (dy < y)%Z →
  has_memorial_keyword (String.append (Event.description ev) (Event.name ev)) = false →
  has_memorial_keyword
    (String.append (Event.description ev) (String.append " " (Event.name ev))) = false →
  ∀ e, e ∈ g_edges (run_phase2_event_relations g) →
       edge_key e ≠ ((LPerson, Person.uid p), (LEvent, Event.uid ev), PARTICIPATED_IN).
Proof.
  intros Hnd Hnde Hp Hdy Hdy0 Hev Hy Hy0 Hlt Hkw Hkw' e He Hkey.
  unfold run_phase2_event_relations in He.
  set (g1 := remove_post_death_relations g) in *.
  set (g2 := relink_events (death_years g) g1) in *.
  assert (He2 : e ∈ g_edges g2).
  { unfold clean_duplicates, with_edges in He. cbn [g_edges] in He.
    eapply elem_of_sublist in He; [|apply collapse_parallel_sublist].
    apply list_elem_of_filter in He. tauto. }
  destruct (remove_post_death_loop (death_years g) g) as (Hp1 & _ & Hev1 & _ & Hed1).
  fold (remove_post_death_relations g) in Hp1, Hev1, Hed1. fold g1 in Hp1, Hev1, Hed1.
  destruct (relink_events_added (death_years g) g1) as (_ & _ & _ & _ & Hadd).
  fold g2 in Hadd.
  assert (Hdys : dict_get (Person.uid p) (death_years g) = Some dy).
  { rewrite death_years_foldl. by apply death_year_recorded. }
  destruct (Hadd e He2) as [Hold|(eu & pu & (ev' & Hev' & Heu & Hlink) & Hnew)].
  - apply list_elem_of_fmap in Hold as (e1 & Hk1 & He1).
    apply Hed1 in He1 as [He1 Hnot].
    apply (Hnot (Person.uid p) dy).
    { apply dict_get_elem. exact Hdys. }
    rewrite Hkey in Hk1. unfold edge_key in Hk1. injection Hk1 as Hs Hd Ht.
    split.
    + unfold participation_of. by rewrite <- Hs, <- Hd, <- Ht.
    + exists ev. split; [done|]. split; [by rewrite <- Hd|].
      split; [|done]. unfold later_than. by rewrite Hy.
  - rewrite Hkey in Hnew. injection Hnew as <- <-.
    rewrite Hev1 in Hev'.
    assert (ev' = ev) as ->.
    { apply list_elem_of_lookup in Hev' as (i & Hi).
      apply list_elem_of_lookup in Hev as (j & Hj).
      assert (i = j) as ->.
      { eapply NoDup_lookup; [exact Hnde| |].
        - rewrite list_lookup_fmap, Hi. done.
        - rewrite list_lookup_fmap, Hj. cbn. by rewrite Heu. }
      congruence. }
    unfold final_link in Hlink. apply elem_of_filter in Hlink as [Hallowed _].
    unfold link_allowed in Hallowed. rewrite Hdys, Hy in Hallowed.
    apply Z.eqb_neq in Hdy0, Hy0. apply Z.ltb_lt in Hlt.
    rewrite Hdy0, Hy0, Hlt in Hallowed. cbn [negb andb] in Hallowed.
    congruence.
Qed.

Lemma phase2_leaves_no_post_death_participation_witness :
  participation_920 ∈ g_edges (graph_920 battle_920)
  ∧ Forall (λ e, edge_key e
                 ≠ ((LPerson, "person_zhu_wen"), (LEvent, "event_920"),
                    PARTICIPATED_IN))
           (g_edges (run_phase2_event_relations (graph_920 battle_920))).
Proof.
  split; [vm_compute; left|].
  apply Forall_forall.
  apply (phase2_leaves_no_post_death_participation (graph_920 battle_920)
           zhu_wen_later battle_920 912 920).
  - apply (bool_decide_unpack _). vm_compute. exact I.
  - apply (bool_decide_unpack _). vm_compute. exact I.
  - apply (bool_decide_unpack _). vm_compute. exact I.
  - reflexivity.
  - discriminate.
  - apply (bool_decide_unpack _). vm_compute. exact I.
  - reflexivity.
  - discriminate.
  - reflexivity.
  - vm_compute. reflexivity.
  - vm_compute. reflexivity.
Defined.

(** ** C6: the repair of the relations after a death *)




(** [MERGE] deletes no edge. *)
Section MergeEdgeKeeps.
Variable set : Edge → Edge.
Hypothesis set_src : ∀ e, e_src (set e) = e_src e.
Hypothesis set_dst : ∀ e, e_dst (set e) = e_dst e.
Hypothesis set_type : ∀ e, e_type (set e) = e_type e.


End MergeEdgeKeeps.









(** A death year of 0 counts as unknown in step 2 only: step 1 removes the
    edge to the event of 920, step 2 links the person again. *)
Example death_year_zero_is_linked_again :
  g_edges graph_year_zero = [participation_920]
  ∧ g_edges (remove_post_death_relations graph_year_zero) = []
  ∧ g_edges (run_phase2_event_relations graph_year_zero) = [participation_920].
Proof. repeat split; vm_compute; reflexivity. Qed.

(** ** The cleaning of the aliases *)

Section Phase1Properties.
Variable llm : nat → Person.t → option (list string * list string).








End Phase1Properties.


(** ** The repair by hand of the known persons *)

Lemma needs_no_fix_spec (data : KnownPerson) (n : Person.t) :
  needs_no_fix data n = true
  ↔ Person.original_name n = k_original_name data
    ∧ ∀ a, a ∈ Person.aliases n → a ∈ k_correct_aliases data ∨ a = k_original_name data.
Proof.
  unfold needs_no_fix. rewrite andb_true_iff, bool_decide_eq_true, String.eqb_eq.
  split; intros [H1 H2].
  - split; [done|]. intros a Ha.
    destruct (decide (a ∈ k_correct_aliases data)) as [|Hn]; [by left|].
    destruct (decide (a = k_original_name data)) as [|Hn']; [by right|].
    exfalso. apply (not_elem_of_empty (C:=gset string) a). rewrite <- H1.
    rewrite !elem_of_difference, !elem_of_list_to_set, elem_of_singleton. done.
  - split; [|done]. apply set_eq. intros a.
    rewrite !elem_of_difference, !elem_of_list_to_set, elem_of_singleton.
    split; [|by intros ?%not_elem_of_empty].
    intros [[Ha Hn] Hn']. destruct (H2 a Ha); done.
Qed.

Lemma fix_known_needs_no_fix (data : KnownPerson) (n : Person.t) :
  needs_no_fix data (fix_known data n) = true.
Proof.
  apply needs_no_fix_spec. split; [done|]. intros a. cbn.
  rewrite elem_of_sorted, elem_of_elements, elem_of_list_to_set. by left.
Qed.

Lemma node_fix_uid (known : list (string * KnownPerson)) (n : Person.t) :
  Person.uid (node_fix known n) = Person.uid n.
Proof.
  unfold node_fix. destruct (dict_get _ _) as [data|]; [|done].
  by destruct (needs_no_fix data n).
Qed.

Lemma node_fix_idem (known : list (string * KnownPerson)) (n : Person.t) :
  node_fix known (node_fix known n) = node_fix known n.
Proof.
  unfold node_fix at 2. destruct (dict_get (Person.uid n) known) as [data|] eqn:E.
  - destruct (needs_no_fix data n) eqn:Hok.
    + unfold node_fix. by rewrite E, Hok.
    + unfold node_fix.
      change (Person.uid (fix_known data n)) with (Person.uid n).
      by rewrite E, fix_known_needs_no_fix, Hok.
  - unfold node_fix. by rewrite E.
Qed.

Lemma dict_get_not_key {V} (k : string) (d : list (string * V)) :
  k ∉ d.*1 → dict_get k d = None.
Proof.
  induction d as [|[k' v] d IH]; cbn; [done|].
  rewrite not_elem_of_cons. intros [Hne Hd].
  apply not_eq_sym, String.eqb_neq in Hne. rewrite Hne. by apply IH.
Qed.

Lemma dict_get_key {V} (k : string) (v : V) (d : list (string * V)) :
  NoDup d.*1 → (k, v) ∈ d → dict_get k d = Some v.
Proof.
  induction d as [|[k' v'] d IH]; cbn; [by intros _ ?%elem_of_nil|].
  intros [Hk Hnd]%NoDup_cons [[= <- <-]|Hin]%elem_of_cons.
  - by rewrite String.eqb_refl.
  - destruct (String.eqb k' k) eqn:E; [|by apply IH].
    apply String.eqb_eq in E as ->. exfalso. apply Hk.
    apply list_elem_of_fmap. by exists (k, v).
Qed.

(** One turn of the loop, node by node. *)
Lemma cleanup_known_persons (g : Graph) (uid : string) (data : KnownPerson) :
  unique_uids g →
  let g' := cleanup_known g (uid, data) in
  g_persons g' = map (node_fix [(uid, data)]) (g_persons g)
  ∧ g_dynasties g' = g_dynasties g ∧ g_events g' = g_events g
  ∧ g_places g' = g_places g ∧ g_edges g' = g_edges g.
Proof.
  intros Hnd. cbv zeta. unfold cleanup_known.
  assert (Hfix : ∀ n, node_fix [(uid, data)] n
                      = if String.eqb (Person.uid n) uid
                        then if needs_no_fix data n then n else fix_known data n
                        else n).
  { intros n. unfold node_fix. cbn [dict_get]. rewrite String.eqb_sym.
    by destruct (String.eqb (Person.uid n) uid). }
  destruct (filter (λ p, Person.uid p = uid) (g_persons g)) as [|current rest] eqn:E.
  - split; [|done]. rewrite <- (map_id (g_persons g)) at 1.
    apply map_ext_in. intros n Hn%list_elem_of_In. rewrite Hfix.
    destruct (String.eqb (Person.uid n) uid) eqn:Eu; [|done].
    apply String.eqb_eq in Eu.
    assert (Hin : n ∈ filter (λ p, Person.uid p = uid) (g_persons g))
      by (by apply list_elem_of_filter).
    rewrite E in Hin. by apply elem_of_nil in Hin.
  - assert (Hcur : current ∈ g_persons g ∧ Person.uid current = uid).
    { assert (Hin : current ∈ filter (λ p, Person.uid p = uid) (g_persons g))
        by (rewrite E; left).
      apply list_elem_of_filter in Hin. tauto. }
    destruct Hcur as [Hcur Hu].
    destruct (needs_no_fix data current) eqn:Hok.
    + split; [|done]. rewrite <- (map_id (g_persons g)) at 1.
      apply map_ext_in. intros n Hn%list_elem_of_In. rewrite Hfix.
      destruct (String.eqb (Person.uid n) uid) eqn:Eu; [|done].
      apply String.eqb_eq in Eu.
      assert (n = current) as -> by (apply (unique_uids_eq g); congruence).
      by rewrite Hok.
    + split; [|done]. cbn [with_persons g_persons].
      apply map_ext_in. intros n Hn%list_elem_of_In. rewrite Hfix.
      destruct (String.eqb (Person.uid n) uid) eqn:Eu; [|done].
      apply String.eqb_eq in Eu.
      assert (n = current) as -> by (apply (unique_uids_eq g); congruence).
      by rewrite Hok.
Qed.

(** The whole loop, node by node. *)
Lemma cleanup_loop_persons (known : list (string * KnownPerson)) (g : Graph) :
  unique_uids g → NoDup known.*1 →
  let g' := foldl cleanup_known g known in
  g_persons g' = map (node_fix known) (g_persons g)
  ∧ g_dynasties g' = g_dynasties g ∧ g_events g' = g_events g
  ∧ g_places g' = g_places g ∧ g_edges g' = g_edges g.
Proof.
  cbv zeta. revert g. induction known as [|[uid data] known IH]; intros g Hnd Hk.
  - cbn. split; [|done]. rewrite <- (map_id (g_persons g)) at 1.
    by apply map_ext_in.
  - cbn [foldl]. cbn in Hk. apply NoDup_cons in Hk as [Hnot Hk].
    destruct (cleanup_known_persons g uid data Hnd) as (H1 & H2 & H3 & H4 & H5).
    destruct (IH (cleanup_known g (uid, data))) as (H1' & H2' & H3' & H4' & H5').
    { unfold unique_uids. rewrite H1.
      replace (Person.uid <$> map (node_fix [(uid, data)]) (g_persons g))
        with (Person.uid <$> g_persons g); [done|].
      rewrite <- list_fmap_compose. apply list_fmap_ext. intros i n _. cbn.
      by rewrite node_fix_uid. }
    { done. }
    split; [|by rewrite H2', H3', H4', H5'].
    rewrite H1', H1, map_map. apply map_ext. intros n.
    unfold node_fix at 2 3. cbn [dict_get]. rewrite String.eqb_sym.
    destruct (String.eqb (Person.uid n) uid) eqn:Eu.
    + apply String.eqb_eq in Eu.
      assert (Hnone : ∀ m, Person.uid m = uid → node_fix known m = m).
      { intros m Hm. unfold node_fix. rewrite Hm. by rewrite dict_get_not_key. }
      apply Hnone. by destruct (needs_no_fix data n).
    + done.
Qed.

Lemma clean_duplicates_again (g : Graph) :
  clean_duplicates (clean_duplicates g) = clean_duplicates g.
Proof.
  unfold clean_duplicates, with_edges.
  cbn [g_persons g_dynasties g_events g_places g_edges]. f_equal.
  rewrite filter_all; [apply collapse_parallel_idem|].
  intros e He. eapply elem_of_sublist in He; [|apply collapse_parallel_sublist].
  apply list_elem_of_filter in He. tauto.
Qed.

Lemma KNOWN_PERSONS_keys : NoDup KNOWN_PERSONS.*1.
Proof. apply (bool_decide_unpack _). vm_compute. exact I. Qed.

Lemma cleanup_with_spec (known : list (string * KnownPerson)) (g : Graph) :
  unique_uids g → NoDup known.*1 →
  let g' := cleanup_polluted_nodes_with known g in
  Person.uid <$> g_persons g' = Person.uid <$> g_persons g
  ∧ (∀ n, n ∈ g_persons g → Person.uid n ∉ known.*1 → n ∈ g_persons g')
  ∧ (∀ uid data n', (uid, data) ∈ known → n' ∈ g_persons g' →
       Person.uid n' = uid →
       Person.original_name n' = k_original_name data
       ∧ ∀ a, a ∈ Person.aliases n' →
              a ∈ k_correct_aliases data ∨ a = k_original_name data).
Proof.
  intros Hnd Hk. cbv zeta.
  unfold cleanup_polluted_nodes_with, cleanup_duplicate_relations.
  destruct (cleanup_loop_persons known g Hnd Hk) as (H1 & _).
  change (g_persons (clean_duplicates ?x)) with (g_persons x). rewrite H1.
  split.
  { rewrite <- list_fmap_compose. apply list_fmap_ext. intros i n _. cbn.
    by rewrite node_fix_uid. }
  split.
  { intros n Hn Hnk. apply list_elem_of_fmap. exists n. split; [|done].
    unfold node_fix. by rewrite dict_get_not_key. }
  intros uid data n' Hin (n & -> & Hn)%list_elem_of_fmap Hu.
  rewrite node_fix_uid in Hu. unfold node_fix.
  rewrite Hu, (dict_get_key uid data known Hk Hin).
  destruct (needs_no_fix data n) eqn:Hok.
  - by apply needs_no_fix_spec.
  - apply needs_no_fix_spec, fix_known_needs_no_fix.
Qed.

Lemma cleanup_with_again (known : list (string * KnownPerson)) (g : Graph) :
  unique_uids g → NoDup known.*1 →
  cleanup_polluted_nodes_with known (cleanup_polluted_nodes_with known g)
  = cleanup_polluted_nodes_with known g.
Proof.
  intros Hnd Hk.
  unfold cleanup_polluted_nodes_with, cleanup_duplicate_relations.
  set (g1 := foldl cleanup_known g known).
  destruct (cleanup_loop_persons known g Hnd Hk) as (H1 & H2 & H3 & H4 & H5).
  fold g1 in H1, H2, H3, H4, H5.
  assert (Hnd1 : unique_uids (clean_duplicates g1)).
  { unfold unique_uids.
    change (g_persons (clean_duplicates g1)) with (g_persons g1). rewrite H1.
    replace (Person.uid <$> map (node_fix known) (g_persons g))
      with (Person.uid <$> g_persons g); [done|].
    rewrite <- list_fmap_compose. apply list_fmap_ext. intros i n _. cbn.
    by rewrite node_fix_uid. }
  destruct (cleanup_loop_persons known (clean_duplicates g1) Hnd1 Hk)
    as (H1' & H2' & H3' & H4' & H5').
  set (g2 := foldl cleanup_known (clean_duplicates g1) known) in *.
  assert (Eg2 : g2 = clean_duplicates g1).
  { destruct g2 as [ps ds es pls eds], (clean_duplicates g1) as [ps1 ds1 es1 pls1 eds1] eqn:E.
    cbn in H1', H2', H3', H4', H5'. subst ds es pls eds. f_equal.
    rewrite H1'.
    assert (Hps : ps1 = map (node_fix known) (g_persons g)).
    { change ps1 with (g_persons (Build_Graph ps1 ds1 es1 pls1 eds1)).
      rewrite <- E. exact H1. }
    rewrite Hps, map_map. apply map_ext. intros n. apply node_fix_idem. }
  rewrite Eg2. apply clean_duplicates_again.
Qed.

(** X19.  After the repair by hand no known person carries a wrong alias.  In a
    store with unique person uids, [cleanup_polluted_nodes] keeps every
    person node in its place under its uid and leaves the nodes whose uid is
    not in [KNOWN_PERSONS] as they are; a node whose uid is in the table has
    afterwards the original name of the table and no alias other than the
    correct aliases of the table and that original name. *)
Theorem cleanup_leaves_no_wrong_alias (g : Graph) :
  unique_uids g →
  let g' := cleanup_polluted_nodes g in
  Person.uid <$> g_persons g' = Person.uid <$> g_persons g
  ∧ (∀ n, n ∈ g_persons g → Person.uid n ∉ KNOWN_PERSONS.*1 → n ∈ g_persons g')
  ∧ (∀ uid data n', (uid, data) ∈ KNOWN_PERSONS → n' ∈ g_persons g' →
       Person.uid n' = uid →
       Person.original_name n' = k_original_name data
       ∧ ∀ a, a ∈ Person.aliases n' →
              a ∈ k_correct_aliases data ∨ a = k_original_name data).
Proof.
  intros Hnd. exact (cleanup_with_spec KNOWN_PERSONS g Hnd KNOWN_PERSONS_keys).
Qed.

(** X20.  The repair by hand, run again on a store it has repaired, changes
    nothing (stores with unique person uids). *)
Theorem cleanup_polluted_nodes_again (g : Graph) :
  unique_uids g →
  cleanup_polluted_nodes (cleanup_polluted_nodes g) = cleanup_polluted_nodes g.
Proof.
  intros Hnd. exact (cleanup_with_again KNOWN_PERSONS g Hnd KNOWN_PERSONS_keys).
Qed.

Lemma cleanup_leaves_no_wrong_alias_witness :
  let g' := cleanup_polluted_nodes polluted_store in
  Person.uid <$> g_persons g' = Person.uid <$> g_persons polluted_store
  ∧ (∀ n, n ∈ g_persons polluted_store → Person.uid n ∉ KNOWN_PERSONS.*1 →
          n ∈ g_persons g')
  ∧ (∀ uid data n', (uid, data) ∈ KNOWN_PERSONS → n' ∈ g_persons g' →
       Person.uid n' = uid →
       Person.original_name n' = k_original_name data
       ∧ ∀ a, a ∈ Person.aliases n' →
              a ∈ k_correct_aliases data ∨ a = k_original_name data).
Proof.
  apply (cleanup_leaves_no_wrong_alias polluted_store).
  apply (bool_decide_unpack _). vm_compute. exact I.
Defined.

Lemma cleanup_polluted_nodes_again_witness :
  cleanup_polluted_nodes (cleanup_polluted_nodes polluted_store)
  = cleanup_polluted_nodes polluted_store.
Proof.
  apply (cleanup_polluted_nodes_again polluted_store).
  apply (bool_decide_unpack _). vm_compute. exact I.
Defined.

(** The scenario, evaluated: the two foreign names are gone, the node of
    Li Siyuan, who is not in the table, is as it was. *)
Example cleanup_scenario :
  Person.aliases <$> g_persons (cleanup_polluted_nodes polluted_store)
  = [ sorted ["朱邪克用"; "独眼龙"; "李鸦儿"; "飞虎子"; "晋王"; "老晋王"; "太祖武皇帝";
              "献祖文皇帝"; "李邈佶烈"; "李国昌"; "并门"];
      ["邈佶烈"] ].
Proof. vm_compute. reflexivity. Qed.

(** ** The retries of the language-model client *)

Section ChatProperties.
Variable post : nat → Reply.
Variable finish : string → string.
Variable retry : nat.

Lemma chat_from_spec (remaining attempt : nat) :
  (attempt + remaining = retry)%nat →
  let r := chat_from post finish retry attempt remaining in
  (chat_requests r ≤ remaining)%nat
  ∧ chat_sleeps r = (λ k, 2 ^ k)%nat <$> seq attempt (chat_requests r - 1)
  ∧ (∀ j, (attempt ≤ j < attempt + (chat_requests r - 1))%nat → retryable (post j))
  ∧ (remaining ≠ 0%nat → (1 ≤ chat_requests r)%nat)
  ∧ (∀ c, chat_outcome r = inr c →
       ∃ text content,
         post (attempt + (chat_requests r - 1))%nat = Http 200 text (Some content)
         ∧ c = finish content)
  ∧ ((1 ≤ chat_requests r)%nat →
     ¬ retryable (post (attempt + (chat_requests r - 1))%nat)
     ∨ chat_requests r = remaining).
Proof.
  cbv zeta. revert attempt. induction remaining as [|rest IH]; intros attempt Hsum.
  { cbn. repeat split; try done; try lia. }
  cbn [chat_from].
  destruct (IH (S attempt)) as (H1 & H2 & H3 & H4 & H5 & H6); [lia|].
  set (next := chat_from post finish retry (S attempt) rest) in *.
  assert (Hretry : ∀ error,
    retryable (post attempt) →
    let r := if (attempt <? retry - 1)%nat
             then {| chat_outcome := chat_outcome next;
                     chat_requests := S (chat_requests next);
                     chat_sleeps := (2 ^ attempt)%nat :: chat_sleeps next |}
             else {| chat_outcome := inl error; chat_requests := 1;
                     chat_sleeps := [] |} in
    (chat_requests r ≤ S rest)%nat
    ∧ chat_sleeps r = (λ k, 2 ^ k)%nat <$> seq attempt (chat_requests r - 1)
    ∧ (∀ j, (attempt ≤ j < attempt + (chat_requests r - 1))%nat → retryable (post j))
    ∧ (S rest ≠ 0%nat → (1 ≤ chat_requests r)%nat)
    ∧ (∀ c, chat_outcome r = inr c →
         ∃ text content,
           post (attempt + (chat_requests r - 1))%nat = Http 200 text (Some content)
           ∧ c = finish content)
    ∧ ((1 ≤ chat_requests r)%nat →
       ¬ retryable (post (attempt + (chat_requests r - 1))%nat)
       ∨ chat_requests r = S rest)).
  { intros error Hre. cbv zeta.
    destruct (attempt <? retry - 1)%nat eqn:E; cbn [chat_requests chat_sleeps chat_outcome].
    - apply Nat.ltb_lt in E. assert (rest ≠ 0%nat) by lia.
      specialize (H4 ltac:(done)).
      replace (S (chat_requests next) - 1)%nat with (S (chat_requests next - 1)) by lia.
      split; [lia|]. split; [cbn; by rewrite H2|].
      split.
      { intros j Hj. destruct (decide (j = attempt)) as [->|Hne]; [done|].
        apply H3. lia. }
      split; [lia|].
      split.
      { intros c Hc. destruct (H5 c Hc) as (text & content & Hp & ->).
        exists text, content. split; [|done]. rewrite <- Hp. f_equal. lia. }
      intros _. destruct (H6 H4) as [Hn|Hn]; [left|right; lia].
      intros Hr. apply Hn.
      replace (S attempt + (chat_requests next - 1))%nat
        with (attempt + S (chat_requests next - 1))%nat by lia.
      exact Hr.
    - apply Nat.ltb_ge in E. cbn.
      split; [lia|]. split; [done|]. split; [intros j Hj; lia|].
      split; [done|]. split; [done|]. intros _. right. lia. }
  destruct (post attempt) as [code text content| |] eqn:Ep.
  - destruct (negb (code =? 200)%Z) eqn:Ec.
    + apply Hretry. cbn. apply negb_true_iff, Z.eqb_neq in Ec. done.
    + apply negb_false_iff, Z.eqb_eq in Ec. subst code.
      assert (Hnot : ¬ retryable (post (attempt + (1 - 1))%nat)).
      { rewrite Nat.add_0_r, Ep. cbn. tauto. }
      destruct content as [c|]; cbn.
      * split; [lia|]. split; [done|]. split; [intros j Hj; lia|].
        split; [done|]. split; [|intros _; by left].
        intros c' [= <-]. exists text, c. rewrite Nat.add_0_r. done.
      * split; [lia|]. split; [done|]. split; [intros j Hj; lia|].
        split; [done|]. split; [done|]. intros _. by left.
  - by apply Hretry.
  - by apply Hretry.
Qed.

(** X21.  [chat] sends at most [retry] requests, one after the other.  It sleeps
    1, 2, 4, ... seconds between them, doubling each time, and not after the
    last one; every reply but the last was a status other than 200, a
    timeout or a connection error; a content is returned only when the last
    reply has status 200 and a body that parses, and it is that content;
    and the requests stop before [retry] only at a reply with status
    200. *)
Theorem chat_retries_with_backoff :
  let r := chat post finish retry in
  (chat_requests r ≤ retry)%nat
  ∧ chat_sleeps r = (λ k, 2 ^ k)%nat <$> seq 0 (chat_requests r - 1)
  ∧ (∀ j, (j < chat_requests r - 1)%nat → retryable (post j))
  ∧ (retry ≠ 0%nat → (1 ≤ chat_requests r)%nat)
  ∧ (∀ c, chat_outcome r = inr c →
       ∃ text content,
         post (chat_requests r - 1)%nat = Http 200 text (Some content)
         ∧ c = finish content)
  ∧ ((1 ≤ chat_requests r)%nat →
     ¬ retryable (post (chat_requests r - 1)%nat) ∨ chat_requests r = retry).
Proof.
  cbv zeta. unfold chat.
  destruct (chat_from_spec retry 0 eq_refl) as (H1 & H2 & H3 & H4 & H5 & H6).
  cbn [Nat.add] in *. repeat split; try done.
  intros j Hj. apply H3. lia.
Qed.
End ChatProperties.

(** ** The list of known persons handed to the language model *)

Lemma build_context_cached (get : option (list (string * list string)))
    (self : KnowledgeExtractor) (rows : list (string * list string)) :
  _known_persons_cache self = Some rows →
  (_cache_refresh_counter self < 20)%nat →
  ∃ context,
    _build_existing_context false get self
    = (context, false,
       {| _known_persons_cache := Some rows;
          _cache_refresh_counter := S (_cache_refresh_counter self) |})
    ∧ (rows = [] → context = "").
Proof.
  intros Hc Hlt. unfold _build_existing_context. rewrite Hc. cbn [negb andb].
  rewrite bool_decide_eq_true_2 by (by eexists).
  apply Nat.ltb_lt in Hlt. rewrite Hlt. cbn [andb negb _known_persons_cache].
  eexists. split; [reflexivity|]. by intros ->.
Qed.

Lemma build_context_refresh (get : option (list (string * list string)))
    (self : KnowledgeExtractor) :
  _known_persons_cache self = None ∨ (20 ≤ _cache_refresh_counter self)%nat →
  ∃ context,
    _build_existing_context false get self
    = (context, true,
       match get with
       | Some rows => {| _known_persons_cache := Some rows;
                         _cache_refresh_counter := 0 |}
       | None => {| _known_persons_cache := Some [];
                    _cache_refresh_counter := _cache_refresh_counter self |}
       end)
    ∧ (get = None → context = "").
Proof.
  intros H. unfold _build_existing_context.
  assert (Hc : bool_decide (is_Some (_known_persons_cache self))
               && (_cache_refresh_counter self <? 20)%nat = false).
  { destruct H as [H|H].
    - rewrite H. rewrite bool_decide_eq_false_2; [done|]. by intros [? ?].
    - apply Nat.ltb_ge in H. rewrite H. apply andb_false_r. }
  cbn [negb andb]. rewrite Hc. cbn [negb].
  destruct get as [rows|]; cbn [_known_persons_cache].
  - eexists. split; [reflexivity|done].
  - eexists. split; [reflexivity|done].
Qed.

(** From a filled cache with counter [c] the store is not asked before the
    call number [20 - c], which asks it. *)
Lemma contexts_until_refresh (get : nat → option (list (string * list string)))
    (n i : nat) (self : KnowledgeExtractor) (rows : list (string * list string))
    (j : nat) (context : string) (asked : bool) :
  _known_persons_cache self = Some rows →
  (_cache_refresh_counter self ≤ 20)%nat →
  (j ≤ 20 - _cache_refresh_counter self)%nat →
  contexts get i n self !! j = Some (context, asked) →
  asked = bool_decide (j = 20 - _cache_refresh_counter self)%nat
  ∧ (j < 20 - _cache_refresh_counter self → rows = [] → context = "")%nat.
Proof.
  revert i self j. induction n as [|n IH]; intros i self j Hc Hle Hj; [done|].
  cbn [contexts].
  destruct (decide (_cache_refresh_counter self < 20)%nat) as [Hlt|Hge].
  - destruct (build_context_cached (get i) self rows Hc Hlt) as (ctx & -> & Hctx).
    destruct j as [|j]; cbn [lookup list_lookup].
    + intros [= <- <-]. split; [|by intros _]. symmetry. apply bool_decide_eq_false_2. lia.
    + intros Hl.
      destruct (IH (S i)
                  {| _known_persons_cache := Some rows;
                     _cache_refresh_counter := S (_cache_refresh_counter self) |}
                  j eq_refl ltac:(cbn; lia) ltac:(cbn; lia) Hl) as [Ha Hb].
      cbn [_cache_refresh_counter] in Ha, Hb. split.
      * rewrite Ha. apply bool_decide_ext. lia.
      * intros Hjl. apply Hb. lia.
  - destruct (build_context_refresh (get i) self) as (ctx & -> & Hctx); [right; lia|].
    assert (j = 0)%nat as -> by lia. cbn [lookup list_lookup].
    intros [= <- <-]. split; [|lia]. symmetry. apply bool_decide_eq_true_2. lia.
Qed.

(** While the store answers, the calls that ask it are 21 apart. *)
Lemma contexts_cadence (get : nat → option (list (string * list string)))
    (n i : nat) (self : KnowledgeExtractor) (j : nat) (context : string) (asked : bool) :
  (∀ k, is_Some (get k)) →
  is_Some (_known_persons_cache self) →
  (_cache_refresh_counter self ≤ 20)%nat →
  contexts get i n self !! j = Some (context, asked) →
  asked = bool_decide ((_cache_refresh_counter self + j) mod 21 = 20)%nat.
Proof.
  intros Hget. revert i self j. induction n as [|n IH]; intros i self j [rows Hc] Hle;
    [done|].
  cbn [contexts].
  destruct (decide (_cache_refresh_counter self < 20)%nat) as [Hlt|Hge].
  - destruct (build_context_cached (get i) self rows Hc Hlt) as (ctx & -> & _).
    destruct j as [|j]; cbn [lookup list_lookup].
    + intros [= <- <-]. symmetry. apply bool_decide_eq_false_2.
      rewrite Nat.add_0_r, Nat.mod_small by lia. lia.
    + intros Hl.
      rewrite (IH (S i)
                 {| _known_persons_cache := Some rows;
                    _cache_refresh_counter := S (_cache_refresh_counter self) |}
                 j ltac:(by eexists) ltac:(cbn; lia) Hl).
      cbn [_cache_refresh_counter]. apply bool_decide_ext.
      by replace (S (_cache_refresh_counter self) + j)%nat
        with (_cache_refresh_counter self + S j)%nat by lia.
  - destruct (build_context_refresh (get i) self) as (ctx & -> & _); [right; lia|].
    destruct (Hget i) as [rows' ->].
    assert (_cache_refresh_counter self = 20)%nat as Hc20 by lia.
    destruct j as [|j]; cbn [lookup list_lookup].
    + intros [= <- <-]. symmetry. apply bool_decide_eq_true_2.
      rewrite Hc20. done.
    + intros Hl.
      rewrite (IH (S i)
                 {| _known_persons_cache := Some rows';
                    _cache_refresh_counter := 0 |}
                 j ltac:(by eexists) ltac:(cbn; lia) Hl).
      cbn [_cache_refresh_counter]. rewrite Hc20. apply bool_decide_ext.
      replace (20 + S j)%nat with (j + 1 * 21)%nat by lia.
      rewrite Nat.Div0.mod_add. done.
Qed.

(** X22.  The list of known persons is read from the store at the first call and
    then at every 21st: while the store answers, the call number [j] of an
    extractor (counting from 0, none of them forced) asks the store exactly
    when [j] is a multiple of 21; the 20 calls in between are served from
    the cache. *)
Theorem known_persons_refreshed_every_21st_call
    (get : nat → option (list (string * list string)))
    (n j : nat) (context : string) (asked : bool) :
  (∀ k, is_Some (get k)) →
  contexts get 0 n new_extractor !! j = Some (context, asked) →
  asked = bool_decide (j mod 21 = 0)%nat.
Proof.
  intros Hget. destruct n as [|n]; [done|]. cbn [contexts].
  destruct (build_context_refresh (get 0%nat) new_extractor) as (ctx & -> & _);
    [by left|].
  destruct (Hget 0%nat) as [rows ->].
  destruct j as [|j]; cbn [lookup list_lookup].
  - intros [= <- <-]. done.
  - intros Hl.
    rewrite (contexts_cadence get n 1
               {| _known_persons_cache := Some rows; _cache_refresh_counter := 0 |}
               j context asked Hget ltac:(by eexists) ltac:(cbn; lia) Hl).
    cbn [_cache_refresh_counter Nat.add]. apply bool_decide_ext.
    pose proof (Nat.Div0.div_mod j 21) as Hj.
    pose proof (Nat.mod_upper_bound j 21 ltac:(lia)) as Hb.
    pose proof (Nat.Div0.div_mod (S j) 21) as HSj.
    pose proof (Nat.mod_upper_bound (S j) 21 ltac:(lia)) as HSb.
    split; intros H.
    + rewrite H in Hj.
      assert (S j = 21 * S (j / 21))%nat as -> by lia.
      rewrite Nat.mul_comm. apply Nat.Div0.mod_mul.
    + rewrite H in HSj.
      destruct (S j / 21)%nat as [|q] eqn:Eq; [lia|].
      assert (j = 20 + q * 21)%nat as -> by lia.
      rewrite Nat.Div0.mod_add. done.
Qed.

Lemma known_persons_refreshed_every_21st_call_witness :
  snd <$> (contexts (λ _, Some [("朱温", ["朱全忠"])]) 0 30 new_extractor !! 21%nat)
  = Some true
  ∧ true = bool_decide (21 mod 21 = 0)%nat.
Proof.
  split; [vm_compute; reflexivity|].
  apply (known_persons_refreshed_every_21st_call
           (λ _, Some [("朱温", ["朱全忠"])]) 30 21
           (String.append
              "【已入库人物名单（请将文本中的人物与以下已有人物对齐，避免重复创建。"
              (String.append
                 "如果文本中出现的名字是某个已有人物的别名，请使用该已有人物的 original_name）】"
                 (String.append newline "- 朱温（又名：朱全忠）")))
           true).
  - intros k. by eexists.
  - vm_compute. reflexivity.
Defined.

(** X23.  A first query that fails silences the context for 20 calls.  When the
    store does not answer the first call of an extractor, that call and the
    20 calls after it return the empty context, and none of these 20 asks
    the store again, whatever the store would have answered; the store is
    asked again at call number 21. *)
Theorem failed_first_query_silences_context
    (get : nat → option (list (string * list string)))
    (n j : nat) (context : string) (asked : bool) :
  get 0%nat = None →
  (j ≤ 21)%nat →
  contexts get 0 n new_extractor !! j = Some (context, asked) →
  asked = bool_decide (j = 0 ∨ j = 21)%nat
  ∧ (j ≤ 20 → context = "")%nat.
Proof.
  intros Hget Hj. destruct n as [|n]; [done|]. cbn [contexts].
  destruct (build_context_refresh (get 0%nat) new_extractor) as (ctx & -> & Hctx);
    [by left|].
  rewrite Hget. destruct j as [|j]; cbn [lookup list_lookup].
  - intros [= <- <-]. split; [|intros _; by apply Hctx].
    symmetry. apply bool_decide_eq_true_2. by left.
  - intros Hl.
    destruct (contexts_until_refresh get n 1
                {| _known_persons_cache := Some []; _cache_refresh_counter := 0 |}
                [] j context asked eq_refl ltac:(cbn; lia) ltac:(cbn; lia) Hl)
      as [Ha Hb].
    cbn [_cache_refresh_counter new_extractor] in Ha, Hb. split.
    + rewrite Ha. apply bool_decide_ext. lia.
    + intros Hle. apply Hb; [lia|done].
Qed.

Lemma failed_first_query_silences_context_witness :
  contexts (λ i, if (i =? 0)%nat then None else Some [("朱温", ["朱全忠"])])
           0 30 new_extractor !! 7%nat = Some ("", false)
  ∧ false = bool_decide (7 = 0 ∨ 7 = 21)%nat ∧ (7 ≤ 20 → "" = "")%nat.
Proof.
  split; [vm_compute; reflexivity|].
  apply (failed_first_query_silences_context
           (λ i, if (i =? 0)%nat then None else Some [("朱温", ["朱全忠"])]) 30 7
           "" false).
  - reflexivity.
  - lia.
  - vm_compute. reflexivity.
Defined.

(** ** The units of text *)

Lemma nonempty_true (s : list N) : nonempty s = true ↔ s ≠ [].
Proof. unfold nonempty. by rewrite negb_true_iff, bool_decide_eq_false. Qed.

Lemma nonempty_false (s : list N) : nonempty s = false ↔ s = [].
Proof. unfold nonempty. by rewrite negb_false_iff, bool_decide_eq_true. Qed.

Lemma length_py_slice_from_neg {A} (overlap : Z) (l : list A) :
  (0 < overlap)%Z →
  length (py_slice_from (- overlap) l) = Nat.min (Z.to_nat overlap) (length l).
Proof.
  intros H. unfold py_slice_from.
  rewrite (proj2 (Z.leb_gt 0 (- overlap))) by lia.
  rewrite length_drop, Z.opp_involutive. lia.
Qed.

Section ChunkProperties.
Variable chunk_size overlap : Z.

(** The loop, for units within the size: every unit pushed so far and the
    unit under construction hold at most [chunk_size] characters, and the
    pushed ones are not empty. *)
Lemma chunk_loop_bounded (sentences : list (list N)) (chunks : list (list N)) (current : list N) :
  (0 ≤ overlap ≤ chunk_size)%Z →
  (∀ s, s ∈ sentences → (Z.of_nat (length s) ≤ chunk_size - overlap)%Z) →
  (∀ c, c ∈ chunks → c ≠ [] ∧ (Z.of_nat (length c) ≤ chunk_size)%Z) →
  (Z.of_nat (length current) ≤ chunk_size)%Z →
  let st := foldl (chunk_step chunk_size overlap) (chunks, current) sentences in
  (∀ c, c ∈ st.1 → c ≠ [] ∧ (Z.of_nat (length c) ≤ chunk_size)%Z)
  ∧ (Z.of_nat (length st.2) ≤ chunk_size)%Z.
Proof.
  intros Hov. cbv zeta. revert chunks current.
  induction sentences as [|s sentences IH]; intros chunks current Hs Hch Hcur; [done|].
  cbn [foldl].
  assert (Hlen : (Z.of_nat (length s) ≤ chunk_size - overlap)%Z) by (apply Hs; left).
  assert (Hrest : ∀ s', s' ∈ sentences → (Z.of_nat (length s') ≤ chunk_size - overlap)%Z).
  { intros s' Hs'. apply Hs. by right. }
  destruct (chunk_step chunk_size overlap (chunks, current) s) as [chunks1 current1] eqn:Est.
  unfold chunk_step in Est.
  destruct (_ <=? _)%Z eqn:E in Est.
  - injection Est as <- <-.
    apply Z.leb_le in E. apply IH; [done|done|]. rewrite length_app. lia.
  - assert (Hch' : ∀ c, c ∈ (if nonempty current then chunks ++ [current] else chunks) →
                        c ≠ [] ∧ (Z.of_nat (length c) ≤ chunk_size)%Z).
    { intros c Hc. destruct (nonempty current) eqn:En; [|by apply Hch].
      apply elem_of_app in Hc as [Hc|Hc%list_elem_of_singleton]; [by apply Hch|].
      subst c. split; [by apply nonempty_true|done]. }
    destruct ((0 <? overlap)%Z && nonempty current) eqn:Eo; injection Est as <- <-.
    + apply andb_true_iff in Eo as [Eo _]. apply Z.ltb_lt in Eo.
      apply IH; [done|done|].
      rewrite length_app, length_py_slice_from_neg by done. lia.
    + apply IH; [done|done|lia].
Qed.

(** Whatever size and overlap are, the loop pushes no empty unit. *)
Lemma chunk_loop_nonempty (sentences : list (list N)) (chunks : list (list N))
    (current : list N) :
  (∀ c, c ∈ chunks → c ≠ []) →
  ∀ c, c ∈ (foldl (chunk_step chunk_size overlap) (chunks, current) sentences).1 →
       c ≠ [].
Proof.
  revert chunks current.
  induction sentences as [|s sentences IH]; intros chunks current Hch; [done|].
  cbn [foldl].
  destruct (chunk_step chunk_size overlap (chunks, current) s) as [chunks1 current1] eqn:Est.
  apply IH. unfold chunk_step in Est.
  assert (Hch' : ∀ c, c ∈ (if nonempty current then chunks ++ [current] else chunks) →
                      c ≠ []).
  { intros c Hc. destruct (nonempty current) eqn:En; [|by apply Hch].
    apply elem_of_app in Hc as [Hc|Hc%list_elem_of_singleton]; [by apply Hch|].
    subst c. by apply nonempty_true. }
  destruct (_ <=? _)%Z in Est; [by injection Est as <- <-|].
  destruct ((0 <? overlap)%Z && nonempty current); by injection Est as <- <-.
Qed.

(** Without overlap the loop loses and repeats nothing. *)
Lemma chunk_loop_concat (sentences : list (list N)) (chunks : list (list N)) (current : list N) :
  (overlap ≤ 0)%Z →
  let st := foldl (chunk_step chunk_size overlap) (chunks, current) sentences in
  concat st.1 ++ st.2 = concat chunks ++ current ++ concat sentences.
Proof.
  intros Hov. cbv zeta. revert chunks current.
  induction sentences as [|s sentences IH]; intros chunks current.
  { cbn. by rewrite app_nil_r. }
  cbn [foldl concat].
  destruct (chunk_step chunk_size overlap (chunks, current) s) as [chunks1 current1] eqn:Est.
  unfold chunk_step in Est.
  destruct (_ <=? _)%Z in Est.
  - injection Est as <- <-. rewrite IH. by rewrite <- !app_assoc.
  - rewrite (proj2 (Z.ltb_ge 0 overlap)) in Est by lia. cbn [andb] in Est.
    injection Est as <- <-.
    rewrite IH. destruct (nonempty current) eqn:En.
    + rewrite concat_app. cbn. by rewrite app_nil_r, <- !app_assoc.
    + apply nonempty_false in En. subst current. done.
Qed.

(** With overlap, the unit under construction starts with the end of the
    last unit pushed. *)
Lemma chunk_loop_overlapping (sentences : list (list N)) (chunks : list (list N))
    (current : list N) :
  (0 < overlap)%Z →
  overlapping overlap chunks →
  (∀ c, last chunks = Some c →
        current ≠ [] ∧ py_slice_from (- overlap) c `prefix_of` current) →
  let st := foldl (chunk_step chunk_size overlap) (chunks, current) sentences in
  overlapping overlap st.1
  ∧ (∀ c, last st.1 = Some c →
          st.2 ≠ [] ∧ py_slice_from (- overlap) c `prefix_of` st.2).
Proof.
  intros Hov. cbv zeta. revert chunks current.
  induction sentences as [|s sentences IH]; intros chunks current Hch Hlast; [done|].
  cbn [foldl].
  destruct (chunk_step chunk_size overlap (chunks, current) s) as [chunks1 current1] eqn:Est.
  unfold chunk_step in Est.
  destruct (_ <=? _)%Z in Est.
  - injection Est as <- <-.
    apply IH; [done|]. intros c Hc. destruct (Hlast c Hc) as [Hne Hpre]. split.
    + intros Happ. apply app_eq_nil in Happ as [-> _]. done.
    + by apply prefix_app_r.
  - rewrite (proj2 (Z.ltb_lt 0 overlap) Hov) in Est. cbn [andb] in Est.
    destruct (nonempty current) eqn:En; injection Est as <- <-.
    + apply nonempty_true in En. apply IH.
      * intros i c1 c2 H1 H2.
        destruct (decide (S i < length chunks)%nat) as [Hi|Hi].
        -- rewrite lookup_app_l in H1 by lia. rewrite lookup_app_l in H2 by lia.
           by eapply Hch.
        -- assert (S i = length chunks) as Hi'.
           { apply lookup_lt_Some in H2. rewrite length_app in H2. cbn in H2. lia. }
           rewrite lookup_app_l in H1 by lia.
           rewrite lookup_app_r, Hi', Nat.sub_diag in H2 by lia.
           injection H2 as <-.
           apply Hlast. rewrite last_lookup.
           replace (pred (length chunks)) with i by lia. done.
      * intros c Hc. rewrite last_snoc in Hc. injection Hc as <-. split.
        -- intros Happ. apply app_eq_nil in Happ as [Happ _].
           assert (Hl : length (py_slice_from (- overlap) current) = 0%nat)
             by (by rewrite Happ).
           rewrite length_py_slice_from_neg in Hl by done.
           destruct current; [done|]. cbn in Hl. lia.
        -- by apply prefix_app_r.
    + apply nonempty_false in En. subst current. apply IH; [done|].
      intros c Hc. by destruct (Hlast c Hc) as [Hne _].
Qed.

Variable py_isspace : N → bool.

(** X24.  [chunk_text] never returns an empty unit, whatever the text, the size
    and the overlap are; and when the overlap is not negative and not above
    the size, and every sentence of the text leaves room for the overlap, no
    unit is longer than [chunk_size]. *)
Theorem chunks_within_size (text : list N) :
  (∀ c, c ∈ chunk_text py_isspace text chunk_size overlap → c ≠ [])
  ∧ ((0 ≤ overlap ≤ chunk_size)%Z →
     (∀ s, s ∈ merged_sentences py_isspace text →
           (Z.of_nat (length s) ≤ chunk_size - overlap)%Z) →
     ∀ c, c ∈ chunk_text py_isspace text chunk_size overlap →
          (Z.of_nat (length c) ≤ chunk_size)%Z).
Proof.
  unfold chunk_text, chunk_sentences. split.
  - pose proof (chunk_loop_nonempty (merged_sentences py_isspace text) [] []) as Hch.
    destruct (foldl _ _ _) as [chunks current]. cbn [fst snd] in *.
    assert (Hch' : ∀ c, c ∈ chunks → c ≠ []).
    { apply Hch. by intros c' Hc'%elem_of_nil. }
    intros c. destruct (nonempty current) eqn:En; [|by apply Hch'].
    intros [Hc|Hc%list_elem_of_singleton]%elem_of_app; [by apply Hch'|].
    subst c. by apply nonempty_true.
  - intros Hov Hs.
    destruct (chunk_loop_bounded (merged_sentences py_isspace text) [] [] Hov Hs)
      as [Hch Hcur].
    { by intros c' Hc'%elem_of_nil. }
    { cbn. lia. }
    destruct (foldl _ _ _) as [chunks current]. cbn [fst snd] in *.
    intros c. destruct (nonempty current) eqn:En; [|by apply Hch].
    intros [Hc|Hc%list_elem_of_singleton]%elem_of_app; [by apply Hch|].
    by subst c.
Qed.

(** X25.  Without overlap the units are the sentences of the text, cut at other
    places: put one after the other they give the sentences put one after
    the other, nothing lost and nothing repeated. *)
Theorem chunks_without_overlap_keep_text (text : list N) :
  (overlap ≤ 0)%Z →
  concat (chunk_text py_isspace text chunk_size overlap)
  = concat (merged_sentences py_isspace text).
Proof.
  intros Hov. unfold chunk_text, chunk_sentences.
  pose proof (chunk_loop_concat (merged_sentences py_isspace text) [] [] Hov) as H.
  cbv zeta in H. cbn in H.
  destruct (foldl _ _ _) as [chunks current]. cbn [fst snd] in *.
  destruct (nonempty current) eqn:En.
  - rewrite concat_app. cbn. by rewrite app_nil_r.
  - apply nonempty_false in En. subst current. by rewrite app_nil_r in H.
Qed.

(** X26.  With a positive overlap every unit but the first starts with the last
    [overlap] characters of the unit before it (with all of it when it is
    shorter). *)
Theorem chunks_overlap (text : list N) :
  (0 < overlap)%Z →
  overlapping overlap (chunk_text py_isspace text chunk_size overlap).
Proof.
  intros Hov. unfold chunk_text, chunk_sentences.
  destruct (chunk_loop_overlapping (merged_sentences py_isspace text) [] [] Hov)
    as [Hch Hlast].
  { intros i c1 c2 H1. done. }
  { intros c Hc. done. }
  destruct (foldl _ _ _) as [chunks current]. cbn [fst snd] in *.
  destruct (nonempty current) eqn:En; [|done].
  intros i c1 c2 H1 H2.
  destruct (decide (S i < length chunks)%nat) as [Hi|Hi].
  - rewrite lookup_app_l in H1 by lia. rewrite lookup_app_l in H2 by lia.
    by eapply Hch.
  - assert (S i = length chunks) as Hi'.
    { apply lookup_lt_Some in H2. rewrite length_app in H2. cbn in H2. lia. }
    rewrite lookup_app_l in H1 by lia.
    rewrite lookup_app_r, Hi', Nat.sub_diag in H2 by lia.
    injection H2 as <-.
    apply Hlast. rewrite last_lookup.
    replace (pred (length chunks)) with i by lia. done.
Qed.
End ChunkProperties.

(** The text of three sentences in units of four characters with an overlap
    of one: "ab。", "。cd。", "。ef". *)
Example chunk_text_scenario :
  merged_sentences blank_only three_sentences
  = [[97; 98; 12290]; [99; 100; 12290]; [101; 102]]%N
  ∧ chunk_text blank_only three_sentences 4 1
    = [[97; 98; 12290]; [12290; 99; 100; 12290]; [12290; 101; 102]]%N
  ∧ chunk_text blank_only three_sentences 4 0
    = [[97; 98; 12290]; [99; 100; 12290]; [101; 102]]%N.
Proof. repeat split; vm_compute; reflexivity. Qed.

(** A size of 0 and an overlap above it: every sentence closes a unit, the
    units are longer than the size, and none is empty. *)
Example chunks_nonempty_beyond_size :
  chunk_text blank_only three_sentences 0 5
  = [[97; 98; 12290]; [97; 98; 12290; 99; 100; 12290];
     [98; 12290; 99; 100; 12290; 101; 102]]%N.
Proof. vm_compute. reflexivity. Qed.

Lemma chunks_within_size_witness :
  Forall (λ c, c ≠ []) (chunk_text blank_only three_sentences 4 1)
  ∧ Forall (λ c, (Z.of_nat (length c) ≤ 4)%Z)
           (chunk_text blank_only three_sentences 4 1).
Proof.
  destruct (chunks_within_size 4 1 blank_only three_sentences) as [Hne Hsize].
  split; [by apply Forall_forall|].
  apply Forall_forall. apply Hsize.
  - lia.
  - apply Forall_forall. apply (bool_decide_unpack _). vm_compute. exact I.
Defined.

Lemma chunks_without_overlap_keep_text_witness :
  concat (chunk_text blank_only three_sentences 4 0)
  = concat (merged_sentences blank_only three_sentences).
Proof.
  apply (chunks_without_overlap_keep_text 4 0 blank_only three_sentences). lia.
Defined.

Lemma chunks_overlap_witness :
  overlapping 1 (chunk_text blank_only three_sentences 4 1).
Proof.
  apply (chunks_overlap 4 1 blank_only three_sentences). lia.
Defined.
